(** * VEO7 video platform: the batch job processing engine

    A shallow embedding of [backend/services/batch_service.py] and of the
    routes of [backend/api/batch_routes.py], with the properties the
    specification of the engine states and further ones the code shows.

    Modelling conventions.
    - Python objects that are shared and mutated in place (the [BatchJob]
      instances, reachable from a batch's [jobs] list, from the priority
      queue and from the [active_jobs]/[completed_jobs] dictionaries) live
      in an object store [objects]; everything else refers to a job by its
      address in that store.
    - Python [int] is [Z], Python [float] is a binary64 primitive float,
      Python [str] is [string] (one character per code point), a [dict]
      keyed by batch or job id is a [gmap string _], a JSON-like payload is
      a [pyval].
    - [datetime.now()] is an input: every operation receives a [clock]
      whose [k]-th reading is the value of the [k]-th call it makes.
    - [uuid.uuid4()] is an input as well: the 128-bit number drawn.
    - The task executors (video, audio and translation services) are an
      oracle [task] giving the outcome of one invocation.
    - One transition of the engine is one call of a service method or one
      half of an iteration of the worker loop: up to the call of the task
      executor, and from its return on. A finer system cuts the first half
      at its statements, for what depends on a method being called between
      the test of a job's status and the beginning of its processing. *)

From Stdlib Require Import ZArith Lia ZifyNat Bool List Ascii String.
From Stdlib Require Import Floats.PrimFloat Uint63 Sorted.
From stdpp Require Import gmap strings list fin_maps pretty.

Local Set Warnings "-register-all,-inexact-float".
Local Open Scope string_scope.
Local Open Scope list_scope.
Local Open Scope Z_scope.

(* ===================================================================== *)
(** ** Enumerations *)
(* ===================================================================== *)

Inductive JobStatus := PENDING | PROCESSING | COMPLETED | FAILED | CANCELLED.

Inductive JobPriority := LOW | MEDIUM | HIGH | URGENT.

#[global] Instance JobStatus_eq_dec : EqDecision JobStatus.
Proof. solve_decision. Defined.

#[global] Instance JobPriority_eq_dec : EqDecision JobPriority.
Proof. solve_decision. Defined.

(** [JobStatus.X.value] *)
Definition status_value (s : JobStatus) : string :=
  match s with
  | PENDING => "pending"
  | PROCESSING => "processing"
  | COMPLETED => "completed"
  | FAILED => "failed"
  | CANCELLED => "cancelled"
  end.

(** [JobStatus(v)]; [None] stands for the [ValueError] of an unknown value. *)
Definition status_of_value (v : string) : option JobStatus :=
  if String.eqb v "pending" then Some PENDING
  else if String.eqb v "processing" then Some PROCESSING
  else if String.eqb v "completed" then Some COMPLETED
  else if String.eqb v "failed" then Some FAILED
  else if String.eqb v "cancelled" then Some CANCELLED
  else None.

(** [JobPriority.X.value] *)
Definition priority_value (p : JobPriority) : Z :=
  match p with
  | LOW => 3
  | MEDIUM => 2
  | HIGH => 1
  | URGENT => 0
  end.

(** [JobPriority(v)] *)
Definition priority_of_value (v : Z) : option JobPriority :=
  match v with
  | 0 => Some URGENT
  | 1 => Some HIGH
  | 2 => Some MEDIUM
  | 3 => Some LOW
  | _ => None
  end.

(* ===================================================================== *)
(** ** Payloads *)
(* ===================================================================== *)

(** The values a request payload, a task result or the persisted JSON
    document is made of. *)
Inductive pyval :=
  | VNone
  | VBool (b : bool)
  | VInt (z : Z)
  | VFloat (f : float)
  | VStr (s : string)
  | VList (l : list pyval)
  | VDict (d : list (string * pyval)).

Definition pydict := list (string * pyval).

(** [d.get(key)]: the first binding of [key] in [d]. *)
Fixpoint dict_lookup (key : string) (d : pydict) : option pyval :=
  match d with
  | [] => None
  | (k, v) :: d' => if String.eqb k key then Some v else dict_lookup key d'
  end.

(** [d.get(key, default)] *)
Definition dict_get (key : string) (default : pyval) (d : pydict) : pyval :=
  match dict_lookup key d with
  | Some v => v
  | None => default
  end.

(* ===================================================================== *)
(** ** Naive datetimes *)
(* ===================================================================== *)

(** A [datetime.datetime] without time zone: its seven fields. *)
Record datetime := mkdatetime {
  year : Z;
  month : Z;
  day : Z;
  hour : Z;
  minute : Z;
  second : Z;
  microsecond : Z
}.

Definition is_leap (y : Z) : bool :=
  (y mod 4 =? 0) && (negb (y mod 100 =? 0) || (y mod 400 =? 0)).

Definition days_in_month (y m : Z) : Z :=
  match m with
  | 1 | 3 | 5 | 7 | 8 | 10 | 12 => 31
  | 4 | 6 | 9 | 11 => 30
  | 2 => if is_leap y then 29 else 28
  | _ => 0
  end.

(** The values the [datetime] constructor accepts. *)
Definition valid_datetime (d : datetime) : bool :=
  (1 <=? year d) && (year d <=? 9999) &&
  (1 <=? month d) && (month d <=? 12) &&
  (1 <=? day d) && (day d <=? days_in_month (year d) (month d)) &&
  (0 <=? hour d) && (hour d <? 24) &&
  (0 <=? minute d) && (minute d <? 60) &&
  (0 <=? second d) && (second d <? 60) &&
  (0 <=? microsecond d) && (microsecond d <? 1000000).

(** Comparison of two datetimes: lexicographic on the fields. *)
Definition dt_compare (a b : datetime) : comparison :=
  match Z.compare (year a) (year b) with
  | Eq =>
    match Z.compare (month a) (month b) with
    | Eq =>
      match Z.compare (day a) (day b) with
      | Eq =>
        match Z.compare (hour a) (hour b) with
        | Eq =>
          match Z.compare (minute a) (minute b) with
          | Eq =>
            match Z.compare (second a) (second b) with
            | Eq => Z.compare (microsecond a) (microsecond b)
            | c => c
            end
          | c => c
          end
        | c => c
        end
      | c => c
      end
    | c => c
    end
  | c => c
  end.

(** [a < b] on datetimes *)
Definition dt_ltb (a b : datetime) : bool :=
  match dt_compare a b with Lt => true | _ => false end.

(** [max(ts)] and [min(ts)] of a non-empty list of datetimes *)
Definition dt_max (d : datetime) (ds : list datetime) : datetime :=
  fold_left (fun acc x => if dt_ltb acc x then x else acc) ds d.

Definition dt_min (d : datetime) (ds : list datetime) : datetime :=
  fold_left (fun acc x => if dt_ltb x acc then x else acc) ds d.

(** *** Proleptic Gregorian ordinals (day 1 is 0001-01-01) *)

Definition days_before_year (y : Z) : Z :=
  let p := y - 1 in p * 365 + p / 4 - p / 100 + p / 400.

Definition days_before_month (y m : Z) : Z :=
  fold_right Z.add 0
    (map (fun k => days_in_month y (Z.of_nat k)) (seq 1 (Z.to_nat (m - 1)))).

Definition toordinal (d : datetime) : Z :=
  days_before_year (year d) + days_before_month (year d) (month d) + day d.

(** Finds the month of the [n]-th day (counted from 0) of year [y],
    starting the search at month [m]. *)
Fixpoint month_of_yday (fuel : nat) (y m n : Z) : Z * Z :=
  match fuel with
  | O => (m, n)
  | S fuel' =>
    let len := days_in_month y m in
    if n <? len then (m, n) else month_of_yday fuel' y (m + 1) (n - len)
  end.

(** The date of an ordinal: year, month, day. *)
Definition ord2ymd (o : Z) : Z * Z * Z :=
  let n := o - 1 in
  let n400 := n / 146097 in
  let n := n mod 146097 in
  let n100 := n / 36524 in
  let n := n mod 36524 in
  let n4 := n / 1461 in
  let n := n mod 1461 in
  let n1 := n / 365 in
  let n := n mod 365 in
  let y := n400 * 400 + 1 + n100 * 100 + n4 * 4 + n1 in
  if (n1 =? 4) || (n100 =? 4) then (y - 1, 12, 31)
  else
    let '(m, r) := month_of_yday 11 y 1 n in
    (y, m, r + 1).

Definition max_ordinal : Z := 3652059.

(** [d - timedelta(days=n)]; [None] stands for [OverflowError]. *)
Definition dt_sub_days (d : datetime) (n : Z) : option datetime :=
  if Z.abs n >? 999999999 then None
  else
    let o := toordinal d - n in
    if (1 <=? o) && (o <=? max_ordinal) then
      let '(y, m, dd) := ord2ymd o in
      Some (mkdatetime y m dd (hour d) (minute d) (second d) (microsecond d))
    else None.

(** Microseconds since 0001-01-01T00:00:00 (shifted by one day). *)
Definition to_microseconds (d : datetime) : Z :=
  (toordinal d * 86400 + hour d * 3600 + minute d * 60 + second d) * 1000000
  + microsecond d.

(** [float(z)] for an integer below [2^63] in absolute value. *)
Definition Z_to_float (z : Z) : float :=
  if z <? 0 then PrimFloat.opp (PrimFloat.of_uint63 (Uint63.of_Z (- z)))
  else PrimFloat.of_uint63 (Uint63.of_Z z).

(** [(a - b).total_seconds()] *)
Definition total_seconds (a b : datetime) : float :=
  PrimFloat.div (Z_to_float (to_microseconds a - to_microseconds b))
                (Z_to_float 1000000).

(** *** Text forms of a datetime *)

Definition digit_char (d : Z) : ascii := ascii_of_N (Z.to_N (48 + d)).

Definition digit_val (c : ascii) : option Z :=
  let n := Z.of_N (N_of_ascii c) in
  if (48 <=? n) && (n <=? 57) then Some (n - 48) else None.

(** ["%02d" % n], ["%04d" % n] and ["%06d" % n] for a field of a valid
    datetime. *)
Definition pad2 (n : Z) : string :=
  String (digit_char (n / 10 mod 10)) (String (digit_char (n mod 10)) "").

Definition pad4 (n : Z) : string :=
  String (digit_char (n / 1000 mod 10))
    (String (digit_char (n / 100 mod 10)) (pad2 n)).

Definition pad6 (n : Z) : string :=
  String (digit_char (n / 100000 mod 10))
    (String (digit_char (n / 10000 mod 10)) (pad4 n)).

(** [d.isoformat()]: [YYYY-MM-DDTHH:MM:SS], followed by [.ffffff] when the
    microsecond field is not zero. *)
Definition isoformat (d : datetime) : string :=
  pad4 (year d) +:+ "-" +:+ pad2 (month d) +:+ "-" +:+ pad2 (day d) +:+ "T" +:+
  pad2 (hour d) +:+ ":" +:+ pad2 (minute d) +:+ ":" +:+ pad2 (second d) +:+
  (if microsecond d =? 0 then "" else "." +:+ pad6 (microsecond d)).

Definition num2 (a b : ascii) : option Z :=
  x ← digit_val a; y ← digit_val b; Some (x * 10 + y).

Definition num4 (a b c d : ascii) : option Z :=
  x ← num2 a b; y ← num2 c d; Some (x * 100 + y).

Definition num6 (a b c d e f : ascii) : option Z :=
  x ← num2 a b; y ← num4 c d e f; Some (x * 10000 + y).

Definition sep (c expected : ascii) : option unit :=
  if Ascii.eqb c expected then Some tt else None.

Definition checked (d : datetime) : option datetime :=
  if valid_datetime d then Some d else None.

(** [datetime.fromisoformat(s)] on the two layouts [isoformat] writes;
    [None] stands for [ValueError]. *)
Definition fromisoformat (s : string) : option datetime :=
  match list_ascii_of_string s with
  | y1 :: y2 :: y3 :: y4 :: s1 :: m1 :: m2 :: s2 :: d1 :: d2 :: t ::
    h1 :: h2 :: c1 :: n1 :: n2 :: c2 :: e1 :: e2 :: rest =>
    y ← num4 y1 y2 y3 y4; _ ← sep s1 "-"; m ← num2 m1 m2; _ ← sep s2 "-";
    d ← num2 d1 d2; _ ← sep t "T"; h ← num2 h1 h2; _ ← sep c1 ":";
    n ← num2 n1 n2; _ ← sep c2 ":"; e ← num2 e1 e2;
    match rest with
    | [] => checked (mkdatetime y m d h n e 0)
    | [p; u1; u2; u3; u4; u5; u6] =>
      _ ← sep p "."; u ← num6 u1 u2 u3 u4 u5 u6;
      checked (mkdatetime y m d h n e u)
    | _ => None
    end
  | _ => None
  end.

(** [d.strftime('%Y%m%d_%H%M%S')] *)
Definition strftime_compact (d : datetime) : string :=
  pad4 (year d) +:+ pad2 (month d) +:+ pad2 (day d) +:+ "_" +:+
  pad2 (hour d) +:+ pad2 (minute d) +:+ pad2 (second d).

(* ===================================================================== *)
(** ** Identifiers *)
(* ===================================================================== *)

Definition hex_char (d : Z) : ascii :=
  if d <? 10 then ascii_of_N (Z.to_N (48 + d)) else ascii_of_N (Z.to_N (87 + d)).

(** The [k] lowest hexadecimal digits of [n], most significant first. *)
Fixpoint hex_digits (k : nat) (n : Z) : string :=
  match k with
  | O => ""
  | S k' => String (hex_char (n / 16 ^ Z.of_nat k' mod 16)) (hex_digits k' n)
  end.

(** [str(uuid.UUID(int=n))]: 32 hexadecimal digits in groups of 8, 4, 4, 4
    and 12. *)
Definition uuid_str (n : Z) : string :=
  let h := hex_digits 32 n in
  substring 0 8 h +:+ "-" +:+ substring 8 4 h +:+ "-" +:+ substring 12 4 h +:+
  "-" +:+ substring 16 4 h +:+ "-" +:+ substring 20 12 h.

(** [s.split('_')[0]]: the part of [s] before its first underscore. *)
Fixpoint split_head (s : string) : string :=
  match s with
  | EmptyString => EmptyString
  | String c s' => if Ascii.eqb c "_" then EmptyString else String c (split_head s')
  end.

(** [f"{batch_id}_{kind}_{i}"] *)
Definition make_job_id (batch_id kind : string) (i : nat) : string :=
  batch_id +:+ "_" +:+ kind +:+ "_" +:+ pretty i.

(* ===================================================================== *)
(** ** Jobs and batches *)
(* ===================================================================== *)

Record BatchJob := mkBatchJob {
  job_id : string;
  job_type : string;
  input_data : pydict;
  priority : JobPriority;
  job_status : JobStatus;
  job_created_at : datetime;
  started_at : option datetime;
  completed_at : option datetime;
  progress : float;
  result : pyval;
  error : option string;
  retry_count : Z;
  max_retries : Z
}.

(** [BatchJob(id=.., job_type=.., input_data=.., priority=.., status=..,
    created_at=..)] with the defaults of the remaining fields. *)
Definition new_job (id kind : string) (input : pydict) (p : JobPriority)
    (st : JobStatus) (created : datetime) : BatchJob :=
  mkBatchJob id kind input p st created None None 0%float VNone None 0 3.

(** [BatchJob.__lt__] *)
Definition job_lt (self other : BatchJob) : bool :=
  priority_value (priority self) <? priority_value (priority other).

(** A batch request; [J] is what its [jobs] list holds: addresses of job
    objects in the running service, job records in a snapshot. *)
Record BatchRequest (J : Type) := mkBatchRequest {
  batch_id : string;
  batch_name : string;
  jobs : list J;
  batch_created_at : datetime;
  total_jobs : Z;
  completed_jobs : Z;
  failed_jobs : Z;
  batch_status : JobStatus;
  estimated_duration : option float;
  actual_duration : option float
}.

Arguments mkBatchRequest {J}.
Arguments batch_id {J}.
Arguments batch_name {J}.
Arguments jobs {J}.
Arguments batch_created_at {J}.
Arguments total_jobs {J}.
Arguments completed_jobs {J}.
Arguments failed_jobs {J}.
Arguments batch_status {J}.
Arguments estimated_duration {J}.
Arguments actual_duration {J}.

(** Field assignments on a job object. *)
Definition set_status (st : JobStatus) (j : BatchJob) : BatchJob :=
  mkBatchJob (job_id j) (job_type j) (input_data j) (priority j) st
    (job_created_at j) (started_at j) (completed_at j) (progress j)
    (result j) (error j) (retry_count j) (max_retries j).

Definition set_priority (p : JobPriority) (j : BatchJob) : BatchJob :=
  mkBatchJob (job_id j) (job_type j) (input_data j) p (job_status j)
    (job_created_at j) (started_at j) (completed_at j) (progress j)
    (result j) (error j) (retry_count j) (max_retries j).

Definition set_started_at (t : option datetime) (j : BatchJob) : BatchJob :=
  mkBatchJob (job_id j) (job_type j) (input_data j) (priority j) (job_status j)
    (job_created_at j) t (completed_at j) (progress j)
    (result j) (error j) (retry_count j) (max_retries j).

Definition set_completed_at (t : option datetime) (j : BatchJob) : BatchJob :=
  mkBatchJob (job_id j) (job_type j) (input_data j) (priority j) (job_status j)
    (job_created_at j) (started_at j) t (progress j)
    (result j) (error j) (retry_count j) (max_retries j).

Definition set_progress (p : float) (j : BatchJob) : BatchJob :=
  mkBatchJob (job_id j) (job_type j) (input_data j) (priority j) (job_status j)
    (job_created_at j) (started_at j) (completed_at j) p
    (result j) (error j) (retry_count j) (max_retries j).

Definition set_result (r : pyval) (j : BatchJob) : BatchJob :=
  mkBatchJob (job_id j) (job_type j) (input_data j) (priority j) (job_status j)
    (job_created_at j) (started_at j) (completed_at j) (progress j)
    r (error j) (retry_count j) (max_retries j).

Definition set_error (e : option string) (j : BatchJob) : BatchJob :=
  mkBatchJob (job_id j) (job_type j) (input_data j) (priority j) (job_status j)
    (job_created_at j) (started_at j) (completed_at j) (progress j)
    (result j) e (retry_count j) (max_retries j).

Definition set_retry_count (n : Z) (j : BatchJob) : BatchJob :=
  mkBatchJob (job_id j) (job_type j) (input_data j) (priority j) (job_status j)
    (job_created_at j) (started_at j) (completed_at j) (progress j)
    (result j) (error j) n (max_retries j).

Definition set_counts {J} (c f : Z) (b : BatchRequest J) : BatchRequest J :=
  mkBatchRequest (batch_id b) (batch_name b) (jobs b) (batch_created_at b)
    (total_jobs b) c f (batch_status b) (estimated_duration b)
    (actual_duration b).

Definition set_batch_status {J} (st : JobStatus) (b : BatchRequest J) :
    BatchRequest J :=
  mkBatchRequest (batch_id b) (batch_name b) (jobs b) (batch_created_at b)
    (total_jobs b) (completed_jobs b) (failed_jobs b) st
    (estimated_duration b) (actual_duration b).

Definition set_actual_duration {J} (d : option float) (b : BatchRequest J) :
    BatchRequest J :=
  mkBatchRequest (batch_id b) (batch_name b) (jobs b) (batch_created_at b)
    (total_jobs b) (completed_jobs b) (failed_jobs b) (batch_status b)
    (estimated_duration b) d.

Definition set_jobs {J K} (js : list K) (b : BatchRequest J) : BatchRequest K :=
  mkBatchRequest (batch_id b) (batch_name b) js (batch_created_at b)
    (total_jobs b) (completed_jobs b) (failed_jobs b) (batch_status b)
    (estimated_duration b) (actual_duration b).

(* ===================================================================== *)
(** ** The priority queue *)
(* ===================================================================== *)

(** [queue.PriorityQueue] keeps its items in a list ordered as a binary heap
    by [heapq], which compares items with [__lt__] only. The items are
    addresses of job objects; [lt] compares the objects they point to. *)
Section Heapq.

Variable lt : nat → nat → bool.

Fixpoint siftdown_loop (fuel : nat) (heap : list nat) (newitem : nat)
    (startpos pos : nat) : list nat :=
  match fuel with
  | O => <[pos := newitem]> heap
  | S fuel' =>
    if (startpos <? pos)%nat then
      let parentpos := ((pos - 1) / 2)%nat in
      let parent := heap !!! parentpos in
      if lt newitem parent
      then siftdown_loop fuel' (<[pos := parent]> heap) newitem startpos parentpos
      else <[pos := newitem]> heap
    else <[pos := newitem]> heap
  end.

(** [heapq._siftdown(heap, startpos, pos)] *)
Definition _siftdown (heap : list nat) (startpos pos : nat) : list nat :=
  siftdown_loop pos heap (heap !!! pos) startpos pos.

Fixpoint siftup_loop (fuel : nat) (heap : list nat) (endpos pos : nat) :
    list nat * nat :=
  match fuel with
  | O => (heap, pos)
  | S fuel' =>
    let childpos := (2 * pos + 1)%nat in
    if (childpos <? endpos)%nat then
      let rightpos := (childpos + 1)%nat in
      let childpos :=
        if (rightpos <? endpos)%nat && negb (lt (heap !!! childpos) (heap !!! rightpos))
        then rightpos else childpos in
      siftup_loop fuel' (<[pos := heap !!! childpos]> heap) endpos childpos
    else (heap, pos)
  end.

(** [heapq._siftup(heap, pos)] *)
Definition _siftup (heap : list nat) (pos : nat) : list nat :=
  let newitem := heap !!! pos in
  let '(heap', pos') := siftup_loop (length heap) heap (length heap) pos in
  _siftdown (<[pos' := newitem]> heap') pos pos'.

(** [heapq.heappush(heap, item)] *)
Definition heappush (heap : list nat) (item : nat) : list nat :=
  _siftdown (heap ++ [item]) 0 (length heap).

(** [heapq.heappop(heap)]; [None] when the heap is empty. *)
Definition heappop (heap : list nat) : option (nat * list nat) :=
  match last heap with
  | None => None
  | Some lastelt =>
    match take (length heap - 1) heap with
    | [] => Some (lastelt, [])
    | returnitem :: rest =>
      Some (returnitem, _siftup (lastelt :: rest) 0)
    end
  end.

End Heapq.

(** The comparison the queue applies to two queued addresses. *)
Definition lt_at (objs : list BatchJob) (a b : nat) : bool :=
  match objs !! a, objs !! b with
  | Some x, Some y => job_lt x y
  | _, _ => false
  end.

(* ===================================================================== *)
(** ** Duration estimator *)
(* ===================================================================== *)

(** The operand of [duration / 5.0]; [None] stands for [TypeError].
    Integers are taken below [2^63] in absolute value. *)
Definition as_number (v : pyval) : option float :=
  match v with
  | VFloat f => Some f
  | VInt z => Some (Z_to_float z)
  | VBool b => Some (if b then 1%float else 0%float)
  | _ => None
  end.

(** [{'fast': 0.7, 'medium': 1.0, 'high': 1.5}.get(quality, 1.0)]; [None]
    stands for the [TypeError] of an unhashable key. *)
Definition quality_multiplier (quality : pyval) : option float :=
  match quality with
  | VStr q =>
    Some (if String.eqb q "fast" then 0.7%float
          else if String.eqb q "medium" then 1.0%float
          else if String.eqb q "high" then 1.5%float
          else 1.0%float)
  | VList _ | VDict _ => None
  | _ => Some 1.0%float
  end.

(** [len(v)] *)
Definition py_len (v : pyval) : option Z :=
  match v with
  | VStr s => Some (Z.of_nat (String.length s))
  | VList l => Some (Z.of_nat (length l))
  | VDict d => Some (Z.of_nat (length d))
  | _ => None
  end.

(** [estimates.get(job_type, 10.0)] *)
Definition base_estimate (kind : string) : float :=
  if String.eqb kind "video" then 30.0%float
  else if String.eqb kind "audio" then 5.0%float
  else if String.eqb kind "translation" then 2.0%float
  else 10.0%float.

(** One iteration of the loop over the jobs: the new [total_estimate]. *)
Definition add_job_estimate (total_estimate : float) (job : BatchJob) :
    option float :=
  let base := base_estimate (job_type job) in
  if String.eqb (job_type job) "video" then
    duration ← as_number (dict_get "duration" (VFloat 5.0%float) (input_data job));
    multiplier ← quality_multiplier (dict_get "quality" (VStr "medium") (input_data job));
    Some (total_estimate + base * (duration / 5.0) * multiplier)%float
  else if String.eqb (job_type job) "audio" then
    text_length ← py_len (dict_get "text" (VStr "") (input_data job));
    Some (total_estimate + base * (Z_to_float text_length / 100.0))%float
  else if String.eqb (job_type job) "translation" then
    text_length ← py_len (dict_get "text" (VStr "") (input_data job));
    Some (total_estimate + base * (Z_to_float text_length / 200.0))%float
  else Some total_estimate.

Fixpoint sum_job_estimates (total_estimate : float) (js : list BatchJob) :
    option float :=
  match js with
  | [] => Some total_estimate
  | job :: js' =>
    t ← add_job_estimate total_estimate job; sum_job_estimates t js'
  end.

(** [min(max_workers, len(jobs)) / len(jobs)]; [None] stands for
    [ZeroDivisionError]. *)
Definition parallel_factor (max_workers : Z) (n : Z) : option float :=
  if n =? 0 then None
  else Some (Z_to_float (Z.min max_workers n) / Z_to_float n)%float.

(** [BatchProcessingService._estimate_batch_duration] *)
Definition _estimate_batch_duration (max_workers : Z) (js : list BatchJob) :
    float :=
  let n := Z.of_nat (length js) in
  match
    total_estimate ← sum_job_estimates 0%float js;
    factor ← parallel_factor max_workers n;
    Some (total_estimate * factor)%float
  with
  | Some estimate => estimate
  | None => (Z_to_float n * 10.0)%float
  end.

(* ===================================================================== *)
(** ** The service *)
(* ===================================================================== *)

(** [self.stats] *)
Record Stats := mkStats {
  total_jobs_processed : Z;
  total_jobs_failed : Z;
  average_processing_time : float;
  queue_size : Z;
  active_workers : Z
}.

(** The state of a [BatchProcessingService]. [objects] is the store of job
    objects, [current] the job the worker thread is inside [_process_job]
    with (if any), [finished_jobs] is [self.completed_jobs], [disk] the
    content of [batch_requests.json] ([None] while the file does not
    exist). *)
Record Service := mkService {
  max_workers : Z;
  objects : list BatchJob;
  job_queue : list nat;
  current : option nat;
  active_jobs : gmap string nat;
  finished_jobs : gmap string nat;
  batch_requests : gmap string (BatchRequest nat);
  stats : Stats;
  disk : option pyval
}.

Definition set_objects (x : list BatchJob) (s : Service) : Service :=
  mkService (max_workers s) x (job_queue s) (current s) (active_jobs s)
    (finished_jobs s) (batch_requests s) (stats s) (disk s).

Definition set_job_queue (x : list nat) (s : Service) : Service :=
  mkService (max_workers s) (objects s) x (current s) (active_jobs s)
    (finished_jobs s) (batch_requests s) (stats s) (disk s).

Definition set_current (x : option nat) (s : Service) : Service :=
  mkService (max_workers s) (objects s) (job_queue s) x (active_jobs s)
    (finished_jobs s) (batch_requests s) (stats s) (disk s).

Definition set_active_jobs (x : gmap string nat) (s : Service) : Service :=
  mkService (max_workers s) (objects s) (job_queue s) (current s) x
    (finished_jobs s) (batch_requests s) (stats s) (disk s).

Definition set_finished_jobs (x : gmap string nat) (s : Service) : Service :=
  mkService (max_workers s) (objects s) (job_queue s) (current s) (active_jobs s)
    x (batch_requests s) (stats s) (disk s).

Definition set_batch_requests (x : gmap string (BatchRequest nat)) (s : Service) :
    Service :=
  mkService (max_workers s) (objects s) (job_queue s) (current s) (active_jobs s)
    (finished_jobs s) x (stats s) (disk s).

Definition set_stats (x : Stats) (s : Service) : Service :=
  mkService (max_workers s) (objects s) (job_queue s) (current s) (active_jobs s)
    (finished_jobs s) (batch_requests s) x (disk s).

Definition set_disk (x : option pyval) (s : Service) : Service :=
  mkService (max_workers s) (objects s) (job_queue s) (current s) (active_jobs s)
    (finished_jobs s) (batch_requests s) (stats s) x.

(** The state [__init__] builds before it loads the persisted data. *)
Definition empty_service (workers : Z) (file : option pyval) : Service :=
  mkService workers [] [] None ∅ ∅ ∅ (mkStats 0 0 0%float 0 0) file.

(** The job objects a list of addresses points to. *)
Definition deref (objs : list BatchJob) (addrs : list nat) : list BatchJob :=
  omap (fun a => objs !! a) addrs.

(** A batch with its job objects in place of their addresses. *)
Definition snapshot_batch (objs : list BatchJob) (b : BatchRequest nat) :
    BatchRequest BatchJob :=
  set_jobs (deref objs (jobs b)) b.

(** The table of batches as a reader of the service sees it. *)
Definition snapshot (s : Service) : gmap string (BatchRequest BatchJob) :=
  snapshot_batch (objects s) <$> batch_requests s.

(* ===================================================================== *)
(** ** Persistence *)
(* ===================================================================== *)

Definition opt_datetime_json (t : option datetime) : pyval :=
  match t with
  | Some d => VStr (isoformat d)
  | None => VNone
  end.

Definition opt_float_json (f : option float) : pyval :=
  match f with
  | Some x => VFloat x
  | None => VNone
  end.

Definition opt_str_json (e : option string) : pyval :=
  match e with
  | Some x => VStr x
  | None => VNone
  end.

(** [asdict(job)] with the timestamps and the enumerations converted. *)
Definition job_to_json (job : BatchJob) : pyval :=
  VDict [
    ("id", VStr (job_id job));
    ("job_type", VStr (job_type job));
    ("input_data", VDict (input_data job));
    ("priority", VInt (priority_value (priority job)));
    ("status", VStr (status_value (job_status job)));
    ("created_at", VStr (isoformat (job_created_at job)));
    ("started_at", opt_datetime_json (started_at job));
    ("completed_at", opt_datetime_json (completed_at job));
    ("progress", VFloat (progress job));
    ("result", result job);
    ("error", opt_str_json (error job));
    ("retry_count", VInt (retry_count job));
    ("max_retries", VInt (max_retries job))
  ].

(** [asdict(batch_request)] with [created_at], [status] and [jobs]
    converted. *)
Definition batch_to_json (b : BatchRequest BatchJob) : pyval :=
  VDict [
    ("id", VStr (batch_id b));
    ("name", VStr (batch_name b));
    ("jobs", VList (map job_to_json (jobs b)));
    ("created_at", VStr (isoformat (batch_created_at b)));
    ("total_jobs", VInt (total_jobs b));
    ("completed_jobs", VInt (completed_jobs b));
    ("failed_jobs", VInt (failed_jobs b));
    ("status", VStr (status_value (batch_status b)));
    ("estimated_duration", opt_float_json (estimated_duration b));
    ("actual_duration", opt_float_json (actual_duration b))
  ].

Definition stats_to_json (st : Stats) : pyval :=
  VDict [
    ("total_jobs_processed", VInt (total_jobs_processed st));
    ("total_jobs_failed", VInt (total_jobs_failed st));
    ("average_processing_time", VFloat (average_processing_time st));
    ("queue_size", VInt (queue_size st));
    ("active_workers", VInt (active_workers st))
  ].

(** The document [_save_persistent_data] hands to [json.dump]. *)
Definition persistent_data (s : Service) : pyval :=
  VDict [
    ("batch_requests",
     VDict (map (fun kb => (kb.1, batch_to_json kb.2))
                (map_to_list (snapshot s))));
    ("stats", stats_to_json (stats s))
  ].

(** [BatchProcessingService._save_persistent_data] *)
Definition _save_persistent_data (s : Service) : Service :=
  set_disk (Some (persistent_data s)) s.

Arguments _save_persistent_data : simpl never.

(** Reading a field of a decoded JSON object at the type the dataclass
    declares; a field holding a value of another type is rejected. *)
Definition get_str (key : string) (d : pydict) : option string :=
  match dict_lookup key d with Some (VStr x) => Some x | _ => None end.

Definition get_int (key : string) (d : pydict) : option Z :=
  match dict_lookup key d with Some (VInt x) => Some x | _ => None end.

Definition get_int_default (key : string) (default : Z) (d : pydict) :
    option Z :=
  match dict_lookup key d with
  | Some (VInt x) => Some x
  | None => Some default
  | _ => None
  end.

Definition get_opt_float (key : string) (d : pydict) : option (option float) :=
  match dict_lookup key d with
  | Some (VFloat x) => Some (Some x)
  | Some VNone | None => Some None
  | _ => None
  end.

Definition get_opt_str (key : string) (d : pydict) : option (option string) :=
  match dict_lookup key d with
  | Some (VStr x) => Some (Some x)
  | Some VNone | None => Some None
  | _ => None
  end.

(** [if job_data.get(key): job.x = datetime.fromisoformat(job_data[key])] *)
Definition get_opt_datetime (key : string) (d : pydict) :
    option (option datetime) :=
  match dict_lookup key d with
  | Some (VStr x) => t ← fromisoformat x; Some (Some t)
  | Some VNone | None => Some None
  | _ => None
  end.

(** A dataclass constructor called with the entries of [d] as keyword
    arguments raises [TypeError] on a key that is not one of its fields. *)
Definition keys_allowed (fields : list string) (d : pydict) : bool :=
  forallb (fun kv => bool_decide (kv.1 ∈ fields)) d.

Definition job_fields : list string :=
  ["id"; "job_type"; "input_data"; "priority"; "status"; "created_at";
   "started_at"; "completed_at"; "progress"; "result"; "error";
   "retry_count"; "max_retries"].

Definition batch_fields : list string :=
  ["id"; "name"; "jobs"; "created_at"; "total_jobs"; "completed_jobs";
   "failed_jobs"; "status"; "estimated_duration"; "actual_duration"].

(** [BatchJob] built from the entries of [job_data], followed by the
    conversions of the loader; [None] stands for the exception that aborts
    the load. *)
Definition job_of_json (v : pyval) : option BatchJob :=
  match v with
  | VDict d =>
    if keys_allowed job_fields d then
      id ← get_str "id" d;
      kind ← get_str "job_type" d;
      input ← match dict_lookup "input_data" d with
              | Some (VDict x) => Some x
              | _ => None
              end;
      pv ← get_int "priority" d;
      sv ← get_str "status" d;
      cs ← get_str "created_at" d;
      created ← fromisoformat cs;
      started ← get_opt_datetime "started_at" d;
      completed ← get_opt_datetime "completed_at" d;
      prog ← match dict_lookup "progress" d with
             | Some (VFloat x) => Some x
             | None => Some 0%float
             | _ => None
             end;
      err ← get_opt_str "error" d;
      retries ← get_int_default "retry_count" 0 d;
      maxr ← get_int_default "max_retries" 3 d;
      p ← priority_of_value pv;
      st ← status_of_value sv;
      Some (mkBatchJob id kind input p st created started completed prog
              (dict_get "result" VNone d) err retries maxr)
    else None
  | _ => None
  end.

(** [BatchRequest] built from the entries of [batch_data], followed by the
    conversions of the loader. *)
Definition batch_of_json (v : pyval) : option (BatchRequest BatchJob) :=
  match v with
  | VDict d =>
    if keys_allowed batch_fields d then
      id ← get_str "id" d;
      name ← get_str "name" d;
      total ← get_int "total_jobs" d;
      completed ← get_int_default "completed_jobs" 0 d;
      failed ← get_int_default "failed_jobs" 0 d;
      estimated ← get_opt_float "estimated_duration" d;
      actual ← get_opt_float "actual_duration" d;
      cs ← get_str "created_at" d;
      created ← fromisoformat cs;
      js ← match dict_lookup "jobs" d with
           | Some (VList l) => mapM job_of_json l
           | _ => None
           end;
      sv ← get_str "status" d;
      st ← status_of_value sv;
      Some (mkBatchRequest id name js created total completed failed st
              estimated actual)
    else None
  | _ => None
  end.

(** [self.batch_requests[batch_id] = batch_request] for a batch read from
    disk: its jobs become new objects. *)
Definition install_batch (key : string) (b : BatchRequest BatchJob)
    (s : Service) : Service :=
  let addrs := seq (length (objects s)) (length (jobs b)) in
  set_batch_requests (<[key := set_jobs addrs b]> (batch_requests s))
    (set_objects (objects s ++ jobs b) s).

(** The loop over [data.get('batch_requests', {}).items()]: the first
    exception ends it and keeps what was restored before. *)
Fixpoint load_batches (items : pydict) (s : Service) : Service :=
  match items with
  | [] => s
  | (key, v) :: items' =>
    match batch_of_json v with
    | Some b => load_batches items' (install_batch key b s)
    | None => s
    end
  end.

(** [BatchProcessingService._load_persistent_data] *)
Definition _load_persistent_data (s : Service) : Service :=
  match disk s with
  | Some (VDict data) =>
    match dict_get "batch_requests" (VDict []) data with
    | VDict items => load_batches items s
    | _ => s
    end
  | _ => s
  end.

(** [BatchProcessingService(max_workers)] started on the file [file]. *)
Definition start_service (workers : Z) (file : option pyval) : Service :=
  _load_persistent_data (empty_service workers file).

(* ===================================================================== *)
(** ** Batch submission *)
(* ===================================================================== *)

(** The loop that creates the jobs of a batch and puts each on the queue.
    It returns the object store, the queue and the list [jobs]. *)
Fixpoint enqueue_jobs (bid kind : string) (p : JobPriority)
    (clock : nat → datetime) (i : nat) (requests : list pydict)
    (objs : list BatchJob) (queue : list nat) (js : list nat) :
    list BatchJob * list nat * list nat :=
  match requests with
  | [] => (objs, queue, js)
  | request :: rest =>
    let job := new_job (make_job_id bid kind i) kind request p PENDING (clock i) in
    let a := length objs in
    let objs' := objs ++ [job] in
    enqueue_jobs bid kind p clock (S i) rest objs'
      (heappush (lt_at objs') queue a) (js ++ [a])
  end.

Definition set_queue_size (n : Z) (st : Stats) : Stats :=
  mkStats (total_jobs_processed st) (total_jobs_failed st)
    (average_processing_time st) n (active_workers st).

(** The common body of [create_video_batch], [create_audio_batch] and
    [create_translation_batch]: [kind] is the job type and [label] the
    prefix of the default batch name; [uuid] is the number [uuid.uuid4()]
    draws. The result is the new state and the batch id returned. *)
Definition create_batch (kind label : string) (uuid : Z)
    (clock : nat → datetime) (requests : list pydict)
    (name : option string) (p : JobPriority) (s : Service) :
    Service * string :=
  let bid := uuid_str uuid in
  let '(name, clock) :=
    match name with
    | Some n =>
      if String.eqb n "" then (label +:+ strftime_compact (clock 0%nat),
                               fun k => clock (S k))
      else (n, clock)
    | None => (label +:+ strftime_compact (clock 0%nat), fun k => clock (S k))
    end in
  let '(objs, queue, js) :=
    enqueue_jobs bid kind p clock 0 requests (objects s) (job_queue s) [] in
  let batch_request :=
    mkBatchRequest bid name js (clock (length requests))
      (Z.of_nat (length js)) 0 0 PENDING
      (Some (_estimate_batch_duration (max_workers s) (deref objs js))) None in
  let s1 := set_job_queue queue (set_objects objs s) in
  let s2 := set_batch_requests (<[bid := batch_request]> (batch_requests s1)) s1 in
  let s3 := set_stats (set_queue_size (Z.of_nat (length queue)) (stats s2)) s2 in
  (_save_persistent_data s3, bid).

(** [BatchProcessingService.create_video_batch] *)
Definition create_video_batch := create_batch "video" "Video Batch ".

(** [BatchProcessingService.create_audio_batch] *)
Definition create_audio_batch := create_batch "audio" "Audio Batch ".

(** [BatchProcessingService.create_translation_batch] *)
Definition create_translation_batch :=
  create_batch "translation" "Translation Batch ".

(* ===================================================================== *)
(** ** Batch aggregator *)
(* ===================================================================== *)

(** [sum(1 for j in js if j.status == st)] *)
Definition count_status (st : JobStatus) (js : list BatchJob) : Z :=
  Z.of_nat (length (filter (fun j => job_status j = st) js)).

(** The status given to a batch whose jobs are all counted. *)
Definition aggregate_status (completed failed : Z) : JobStatus :=
  if failed =? 0 then COMPLETED
  else if completed =? 0 then FAILED
  else COMPLETED.

(** The recomputation [_update_batch_status] applies to the batch record,
    [js] being its job objects. *)
Definition aggregate (js : list BatchJob) (b : BatchRequest nat) :
    BatchRequest nat :=
  let completed := count_status COMPLETED js in
  let failed := count_status FAILED js in
  let b1 := set_counts completed failed b in
  if completed + failed =? total_jobs b1 then
    let b2 := set_batch_status (aggregate_status completed failed) b1 in
    match jobs b2 with
    | [] => b2
    | _ :: _ =>
      match omap started_at js, omap completed_at js with
      | t0 :: start_times, t1 :: end_times =>
        set_actual_duration
          (Some (total_seconds (dt_max t1 end_times) (dt_min t0 start_times))) b2
      | _, _ => b2
      end
    end
  else b1.

(** [BatchProcessingService._update_batch_status], for the job object at
    address [a]. *)
Definition _update_batch_status (a : nat) (s : Service) : Service :=
  match objects s !! a with
  | None => s
  | Some job =>
    let bid := split_head (job_id job) in
    match batch_requests s !! bid with
    | None => s
    | Some b =>
      set_batch_requests
        (<[bid := aggregate (deref (objects s) (jobs b)) b]> (batch_requests s)) s
    end
  end.

(* ===================================================================== *)
(** ** Worker *)
(* ===================================================================== *)

(** What one call of a task executor did. *)
Inductive outcome :=
  | Returned (r : pyval)
  | Raised (msg : string).

Definition known_type (kind : string) : bool :=
  String.eqb kind "video" || String.eqb kind "audio"
  || String.eqb kind "translation".

(** The dispatch on [job.job_type]: the executor of the type is called, an
    unknown type raises without calling any. *)
Definition run_task (task : BatchJob → outcome) (job : BatchJob) : outcome :=
  if known_type (job_type job) then task job
  else Raised ("Unknown job type: " +:+ job_type job).

(** [BatchProcessingService._update_average_processing_time]; the division
    by a zero count raises and is logged. *)
Definition _update_average_processing_time (processing_time : float)
    (st : Stats) : Stats :=
  let total := total_jobs_processed st in
  if total =? 1 then
    mkStats total (total_jobs_failed st) processing_time (queue_size st)
      (active_workers st)
  else if total =? 0 then st
  else
    mkStats total (total_jobs_failed st)
      ((average_processing_time st * Z_to_float (total - 1) + processing_time)
       / Z_to_float total)%float
      (queue_size st) (active_workers st).

(** [JobPriority(min(p.value + 1, JobPriority.LOW.value))] *)
Definition demote (p : JobPriority) : JobPriority :=
  match priority_of_value (Z.min (priority_value p + 1) (priority_value LOW)) with
  | Some q => q
  | None => p
  end.

(** The assignments of the success path of [_process_job]. *)
Definition complete_job (now : datetime) (r : pyval) (job : BatchJob) : BatchJob :=
  set_progress 100%float
    (set_result r (set_completed_at (Some now) (set_status COMPLETED job))).

(** The first assignments of the exception handler of [_process_job]. *)
Definition fail_job (now : datetime) (msg : string) (job : BatchJob) : BatchJob :=
  set_completed_at (Some now) (set_error (Some msg) (set_status FAILED job)).

(** The assignments of the retry branch. *)
Definition retry_job (job : BatchJob) : BatchJob :=
  set_priority (demote (priority job))
    (set_error None
      (set_completed_at None
        (set_started_at None
          (set_status PENDING
            (set_retry_count (retry_count job + 1) job))))).

Definition incr_processed (st : Stats) : Stats :=
  mkStats (total_jobs_processed st + 1) (total_jobs_failed st)
    (average_processing_time st) (queue_size st) (active_workers st).

Definition incr_failed (st : Stats) : Stats :=
  mkStats (total_jobs_processed st) (total_jobs_failed st + 1)
    (average_processing_time st) (queue_size st) (active_workers st).

Definition set_worker_stats (q w : Z) (st : Stats) : Stats :=
  mkStats (total_jobs_processed st) (total_jobs_failed st)
    (average_processing_time st) q w.

(** [(job.completed_at - job.started_at).total_seconds()]; [started_at]
    was set when the job was taken. *)
Definition processing_time (now : datetime) (job : BatchJob) : float :=
  match started_at job with
  | Some t => total_seconds now t
  | None => 0%float
  end.

(** The first statements of [_process_job], up to the call of the executor:
    the job object at address [a] is marked as processing. *)
Definition begin_job (now : datetime) (a : nat) (s : Service) : Service :=
  match objects s !! a with
  | None => s
  | Some job0 =>
    let job := set_started_at (Some now) (set_status PROCESSING job0) in
    set_current (Some a)
      (set_active_jobs (<[job_id job := a]> (active_jobs s))
        (set_objects (<[a := job]> (objects s)) s))
  end.

(** The rest of the [try] block and the exception handler of [_process_job],
    [o] being what the executor did. *)
Definition conclude (o : outcome) (now : datetime) (a : nat) (job : BatchJob)
    (s : Service) : Service :=
  match o with
  | Returned r =>
    let job' := complete_job now r job in
    let st :=
      _update_average_processing_time (processing_time now job)
        (incr_processed (stats s)) in
    set_stats st (set_objects (<[a := job']> (objects s)) s)
  | Raised msg =>
    let job' := fail_job now msg job in
    if retry_count job' <? max_retries job' then
      let objs := <[a := retry_job job']> (objects s) in
      set_job_queue (heappush (lt_at objs) (job_queue s) a) (set_objects objs s)
    else
      set_stats (incr_failed (stats s)) (set_objects (<[a := job']> (objects s)) s)
  end.

(** [_process_job] from the return of the executor on, its [finally] block
    included. *)
Definition finish_job (o : outcome) (now : datetime) (s : Service) : Service :=
  match current s with
  | None => s
  | Some a =>
    match objects s !! a with
    | None => s
    | Some job =>
      let s2 := conclude o now a job s in
      let s3 := set_active_jobs (delete (job_id job) (active_jobs s2)) s2 in
      let s4 := set_finished_jobs (<[job_id job := a]> (finished_jobs s3)) s3 in
      let s5 := _update_batch_status a s4 in
      let s6 :=
        set_stats
          (set_worker_stats (Z.of_nat (length (job_queue s5)))
             (Z.of_nat (size (active_jobs s5))) (stats s5)) s5 in
      _save_persistent_data (set_current None s6)
    end
  end.

(** The outcome of the executor call for the job the worker holds. *)
Definition current_outcome (task : BatchJob → outcome) (s : Service) : outcome :=
  match current s with
  | Some a =>
    match objects s !! a with
    | Some job => run_task task job
    | None => Raised ""
    end
  | None => Raised ""
  end.

(** The executor call of the job the worker holds comes back, and
    [_process_job] runs to its end. *)
Definition resume (task : BatchJob → outcome) (now : datetime) (s : Service) :
    Service :=
  finish_job (current_outcome task s) now s.

(** [BatchProcessingService._process_job], for the job object at address
    [a]: [clock 0] is read when the job starts and [clock 1] when the
    executor is back. *)
Definition _process_job (task : BatchJob → outcome) (clock : nat → datetime)
    (a : nat) (s : Service) : Service :=
  resume task (clock 1%nat) (begin_job (clock 0%nat) a s).

(** What the worker loop did with the queue. *)
Inductive dispatch :=
  | Idle
  | Skipped (a : nat)
  | Ran (a : nat).

(** The beginning of an iteration of the loop of [_process_queue], up to
    the call of the executor: [Idle] when the queue stayed empty for the
    time-out, [Skipped a] when the job taken is cancelled and dropped,
    [Ran a] when it is handed to [_process_job]. *)
Definition take_job (now : datetime) (s : Service) : Service * dispatch :=
  match heappop (lt_at (objects s)) (job_queue s) with
  | None => (s, Idle)
  | Some (a, queue) =>
    let s1 := set_job_queue queue s in
    match objects s1 !! a with
    | None => (s1, Idle)
    | Some job =>
      if decide (job_status job = CANCELLED) then (s1, Skipped a)
      else (begin_job now a s1, Ran a)
    end
  end.

(** One whole iteration of the loop of [_process_queue]. *)
Definition _process_queue_iteration (task : BatchJob → outcome)
    (clock : nat → datetime) (s : Service) : Service * dispatch :=
  let '(s1, d) := take_job (clock 0%nat) s in
  match d with
  | Ran a => (resume task (clock 1%nat) s1, d)
  | _ => (s1, d)
  end.

(* ===================================================================== *)
(** ** Cancellation and cleanup *)
(* ===================================================================== *)

(** The body of the loop of [cancel_batch] for one job. *)
Definition cancel_job (objs : list BatchJob) (a : nat) : list BatchJob :=
  match objs !! a with
  | Some job =>
    if decide (job_status job = PENDING)
    then <[a := set_status CANCELLED job]> objs
    else objs
  | None => objs
  end.

(** [BatchProcessingService.cancel_batch]: the new state and the value
    returned. *)
Definition cancel_batch (bid : string) (s : Service) : Service * bool :=
  match batch_requests s !! bid with
  | None => (s, false)
  | Some b =>
    let objs := fold_left cancel_job (jobs b) (objects s) in
    let s1 := set_objects objs s in
    let s2 :=
      set_batch_requests
        (<[bid := set_batch_status CANCELLED b]> (batch_requests s1)) s1 in
    (_save_persistent_data s2, true)
  end.

Definition terminal_status (st : JobStatus) : bool :=
  bool_decide (st ∈ [COMPLETED; FAILED; CANCELLED]).

(** The test that puts a batch on the list [to_remove]. *)
Definition removable (cutoff_date : datetime) (b : BatchRequest nat) : bool :=
  terminal_status (batch_status b) && dt_ltb (batch_created_at b) cutoff_date.

(** The test that puts an entry of [self.completed_jobs] on [old_jobs]. *)
Definition old_job (objs : list BatchJob) (cutoff_time : datetime) (a : nat) :
    bool :=
  match objs !! a with
  | Some job =>
    match completed_at job with
    | Some t => dt_ltb t cutoff_time
    | None => false
    end
  | None => false
  end.

(** [BatchProcessingService.cleanup_old_batches]: the new state and the
    value returned. The function has no [return] statement, and a cut-off
    date that cannot be represented raises inside its [try]. *)
Definition cleanup_old_batches (clock : nat → datetime) (days_old : Z)
    (s : Service) : Service * pyval :=
  match dt_sub_days (clock 0%nat) days_old with
  | None => (s, VNone)
  | Some cutoff_date =>
    let s1 :=
      set_batch_requests
        (filter (fun kb => removable cutoff_date kb.2 = false) (batch_requests s))
        s in
    match dt_sub_days (clock 1%nat) days_old with
    | None => (s1, VNone)
    | Some cutoff_time =>
      let s2 :=
        set_finished_jobs
          (filter (fun ka => old_job (objects s1) cutoff_time ka.2 = false)
                  (finished_jobs s1)) s1 in
      (_save_persistent_data s2, VNone)
    end
  end.

(* ===================================================================== *)
(** ** The engine as a transition system *)
(* ===================================================================== *)

(** One transition: a call of a service method, or one of the two halves
    of an iteration of the worker loop, before and after the executor runs.
    Between the two halves the other methods can be called; the job the
    worker holds is then in the state Processing. Each transition is taken
    as a whole: a switch of threads in the middle of a method, or of a half
    of an iteration, is not a state of this system. *)
Inductive step : Service → Service → Prop :=
  | step_create_video uuid clock requests name p s :
      step s (create_video_batch uuid clock requests name p s).1
  | step_create_audio uuid clock requests name p s :
      step s (create_audio_batch uuid clock requests name p s).1
  | step_create_translation uuid clock requests name p s :
      step s (create_translation_batch uuid clock requests name p s).1
  | step_take now s :
      current s = None → step s (take_job now s).1
  | step_finish task now s :
      is_Some (current s) → step s (resume task now s)
  | step_cancel bid s :
      step s (cancel_batch bid s).1
  | step_cleanup clock days_old s :
      step s (cleanup_old_batches clock days_old s).1.

(** The states a service started without a file can be in. *)
Definition reachable (s : Service) : Prop :=
  ∃ workers, rtc step (empty_service workers None) s.

(* ===================================================================== *)
(** ** The worker loop, statement by statement *)
(* ===================================================================== *)

(** Where the worker thread is between the call of [job_queue.get] and the
    call of [_process_job]: [Free] when it holds no job it has yet to
    begin (it is at the head of the loop, or inside [_process_job] with the
    job [current]), [Popped a] when [get] has returned the job at address
    [a] and its status has not been tested yet, [Tested a] when the test
    of the status has let the job pass and [_process_job] has not yet
    marked it. *)
Inductive position :=
  | Free
  | Popped (a : nat)
  | Tested (a : nat).

#[global] Instance position_eq_dec : EqDecision position.
Proof. solve_decision. Defined.

(** [job = self.job_queue.get(timeout=1.0)] *)
Definition get_job (s : Service) : position * Service :=
  match heappop (lt_at (objects s)) (job_queue s) with
  | None => (Free, s)
  | Some (a, queue) => (Popped a, set_job_queue queue s)
  end.

(** [if job.status == JobStatus.CANCELLED: continue] *)
Definition test_job (a : nat) (s : Service) : position :=
  match objects s !! a with
  | None => Free
  | Some job => if decide (job_status job = CANCELLED) then Free else Tested a
  end.

(** A call of a method of the service by a thread other than the worker. *)
Inductive method_call : Service → Service → Prop :=
  | call_create_video uuid clock requests name p s :
      method_call s (create_video_batch uuid clock requests name p s).1
  | call_create_audio uuid clock requests name p s :
      method_call s (create_audio_batch uuid clock requests name p s).1
  | call_create_translation uuid clock requests name p s :
      method_call s (create_translation_batch uuid clock requests name p s).1
  | call_cancel bid s :
      method_call s (cancel_batch bid s).1
  | call_cleanup clock days_old s :
      method_call s (cleanup_old_batches clock days_old s).1.

(** The transitions of [step] with the first half of an iteration of the
    worker loop cut at its statements: the worker takes a job from the
    queue, tests its status and, if the job passes, begins it; a method can
    be called between any two of these. *)
Inductive fine_step : position * Service → position * Service → Prop :=
  | fine_call w s s' :
      method_call s s' → fine_step (w, s) (w, s')
  | fine_get s :
      current s = None → fine_step (Free, s) (get_job s)
  | fine_test a s :
      fine_step (Popped a, s) (test_job a s, s)
  | fine_begin now a s :
      fine_step (Tested a, s) (Free, begin_job now a s)
  | fine_finish task now s :
      is_Some (current s) → fine_step (Free, s) (Free, resume task now s).

Definition fine_reachable (st : position * Service) : Prop :=
  ∃ workers, rtc fine_step (Free, empty_service workers None) st.

(* ===================================================================== *)
(** ** Definitions used to state the properties *)
(* ===================================================================== *)

(** A string without underscore. *)
Fixpoint no_underscore (s : string) : bool :=
  match s with
  | EmptyString => true
  | String c s' => negb (Ascii.eqb c "_") && no_underscore s'
  end.

(** The job objects a submission creates, in order. *)
Fixpoint created_jobs (bid kind : string) (p : JobPriority)
    (clock : nat → datetime) (i : nat) (requests : list pydict) : list BatchJob :=
  match requests with
  | [] => []
  | request :: rest =>
    new_job (make_job_id bid kind i) kind request p PENDING (clock i)
    :: created_jobs bid kind p clock (S i) rest
  end.

(** [n] iterations of the worker loop with the same executor oracle: the
    final state and what each iteration did. *)
Fixpoint run_worker (n : nat) (task : BatchJob → outcome)
    (clock : nat → datetime) (s : Service) : Service * list dispatch :=
  match n with
  | O => (s, [])
  | S n' =>
    let '(s1, d) := _process_queue_iteration task clock s in
    let '(s2, ds) := run_worker n' task clock s1 in
    (s2, d :: ds)
  end.

#[global] Instance dispatch_eq_dec : EqDecision dispatch.
Proof. solve_decision. Defined.

(** The number of iterations of the worker loop that ran the job at [a]. *)
Definition runs_of (a : nat) (ds : list dispatch) : nat :=
  length (filter (fun d => d = Ran a) ds).

(** A job in one of the states Completed, Failed or Cancelled. *)
Definition job_terminal (j : BatchJob) : bool :=
  terminal_status (job_status j).

(** A job the aggregator counts: Completed or Failed. *)
Definition job_counted (j : BatchJob) : bool :=
  bool_decide (job_status j = COMPLETED ∨ job_status j = FAILED).




(** The fields of a request the estimator reads are absent or of the type
    the request models of the routes give them: for a video job a float
    under [duration] and a string under [quality], for an audio or a
    translation job a string under [text]. *)
Definition typed_request (kind : string) (request : pydict) : bool :=
  if String.eqb kind "video" then
    match dict_get "duration" (VFloat 5.0%float) request,
          dict_get "quality" (VStr "medium") request with
    | VFloat _, VStr _ => true
    | _, _ => false
    end
  else
    match dict_get "text" (VStr "") request with
    | VStr _ => true
    | _ => false
    end.

(** *** Scenarios *)

(** A clock for the scenarios: its [k]-th reading is [k] seconds after
    10:00 on 2025-11-03. *)
Definition morning (k : nat) : datetime :=
  mkdatetime 2025 11 3 10 0 (Z.of_nat k) 0.

Definition request (text : string) : pydict := [("text", VStr text)].

Definition demo_id : string := uuid_str 255.

(** An executor that always returns, and one that always raises. *)
Definition succeeding (job : BatchJob) : outcome := Returned (VStr "done").

Definition raising (job : BatchJob) : outcome := Raised "boom".

(** An audio batch of three jobs has been submitted. *)
Definition three_pending : Service :=
  (create_audio_batch 255 morning [request "a"; request "b"; request "c"]
     (Some "demo") MEDIUM (empty_service 4 None)).1.

(** The worker has taken the first of them. *)
Definition one_running : Service := (take_job (morning 10) three_pending).1.

(** An audio batch of two jobs: the worker takes the first, the batch is
    cancelled, then the first job completes. *)
Definition two_pending : Service :=
  (create_audio_batch 255 morning [request "a"; request "b"]
     (Some "demo") MEDIUM (empty_service 4 None)).1.

Definition completed_and_cancelled : Service :=
  resume succeeding (morning 20)
    (cancel_batch demo_id (take_job (morning 10) two_pending).1).1.

(** An audio batch of one job, cancelled before the worker takes the job. *)
Definition one_pending : Service :=
  (create_audio_batch 255 morning [request "a"] (Some "demo") MEDIUM
     (empty_service 4 None)).1.

Definition all_cancelled : Service := (cancel_batch demo_id one_pending).1.

(** The first job of a batch of three is taken from the queue and passes
    the test; the batch is cancelled before [_process_job] marks the job. *)
Definition tested_then_cancelled : Service :=
  (cancel_batch demo_id (get_job three_pending).2).1.

(** An audio batch of one job that has completed. *)
Definition one_completed : Service :=
  resume succeeding (morning 20) (take_job (morning 10) one_pending).1.

(** A clock ten days after [morning]. *)
Definition ten_days_later (k : nat) : datetime :=
  mkdatetime 2025 11 13 10 0 (Z.of_nat k) 0.

(** *** Well-formed states *)

(** A batch record agrees with the job objects: [total_jobs] is the length
    of [jobs], every address in [jobs] holds a job whose id starts with the
    key of the batch, and the two counters are the numbers of Completed and
    of Failed jobs. *)
Definition batch_well_formed (objs : list BatchJob) (bid : string)
    (b : BatchRequest nat) : Prop :=
  total_jobs b = Z.of_nat (length (jobs b)) ∧
  (∀ a, a ∈ jobs b →
        ∃ job, objs !! a = Some job ∧ split_head (job_id job) = bid) ∧
  completed_jobs b = count_status COMPLETED (deref objs (jobs b)) ∧
  failed_jobs b = count_status FAILED (deref objs (jobs b)).

(** The queue holds each address once; a queued job is Pending or
    Cancelled and is not the job the worker is running. *)
Definition queue_well_formed (s : Service) : Prop :=
  NoDup (job_queue s) ∧
  ∀ a, a ∈ job_queue s →
       current s ≠ Some a ∧
       ∃ job, objects s !! a = Some job ∧
              (job_status job = PENDING ∨ job_status job = CANCELLED).

(** The job the worker is running is in the state Processing. *)
Definition current_well_formed (s : Service) : Prop :=
  ∀ a, current s = Some a →
       ∃ job, objects s !! a = Some job ∧ job_status job = PROCESSING.

Definition well_formed (s : Service) : Prop :=
  (∀ bid b, batch_requests s !! bid = Some b →
            batch_well_formed (objects s) bid b) ∧
  queue_well_formed s ∧
  current_well_formed s.

(** What the cut leaves true: the job the worker is running is Processing,
    and the worker runs none while it holds a job it has yet to begin. *)
Definition fine_well_formed (st : position * Service) : Prop :=
  current_well_formed st.2 ∧ (st.1 ≠ Free → current st.2 = None).

(** Two versions of a job object that the aggregator cannot tell apart:
    same id, and Completed resp. Failed in one exactly when in the other. *)
Definition same_counted (job job' : BatchJob) : Prop :=
  job_id job' = job_id job ∧
  (job_status job' = COMPLETED ↔ job_status job = COMPLETED) ∧
  (job_status job' = FAILED ↔ job_status job = FAILED).

(** *** Snapshots that can be written and read back *)

Definition opt_valid (t : option datetime) : bool :=
  match t with
  | Some d => valid_datetime d
  | None => true
  end.

(** The timestamps of a job are datetimes. *)
Definition job_valid (job : BatchJob) : bool :=
  valid_datetime (job_created_at job) && opt_valid (started_at job)
  && opt_valid (completed_at job).

Definition batch_valid (b : BatchRequest BatchJob) : bool :=
  valid_datetime (batch_created_at b) && forallb job_valid (jobs b).

(** Every timestamp in the table of batches is a datetime. *)
Definition timestamps_valid (s : Service) : bool :=
  forallb (fun kb => batch_valid kb.2) (map_to_list (snapshot s)).

(** Every address the table of batches holds is in the object store. *)
Definition closed (s : Service) : Prop :=
  ∀ bid b a, batch_requests s !! bid = Some b → a ∈ jobs b →
             (a < length (objects s))%nat.

(** The spec's persistence scenario: a batch of three jobs, two of them
    completed and one still pending. *)
Definition two_completed_one_pending : Service :=
  resume succeeding (morning 40)
    (take_job (morning 30)
       (resume succeeding (morning 20)
          (take_job (morning 10) three_pending).1)).1.

(** *** The queue as a heap *)

(** The invariant of [heapq]: the key of an item is not below the key of
    its parent, the item at index [(i - 1) // 2]. *)
Definition is_heap (key : nat → Z) (heap : list nat) : Prop :=
  ∀ i, (0 < i < length heap)%nat →
       key (heap !!! ((i - 1) / 2)%nat) ≤ key (heap !!! i).

(** The priority value of the job object at an address. *)
Definition priority_at (objs : list BatchJob) (a : nat) : Z :=
  match objs !! a with
  | Some job => priority_value (priority job)
  | None => 0
  end.

(** The queue is a heap for the priority values of the jobs it holds. *)
Definition queue_is_heap (s : Service) : Prop :=
  is_heap (priority_at (objects s)) (job_queue s).

(** Three audio batches of one job each, submitted to a service with one
    worker at the priorities Low, Urgent and Medium. *)
Definition mixed_priorities : Service :=
  let s1 := (create_audio_batch 1 morning [request "a"] (Some "low") LOW
               (empty_service 1 None)).1 in
  let s2 := (create_audio_batch 2 morning [request "b"] (Some "urgent") URGENT
               s1).1 in
  (create_audio_batch 3 morning [request "c"] (Some "medium") MEDIUM s2).1.

(** *** The bookkeeping of a running service *)

(** What the fields of a job object are in each state of its life: a job
    is created with [max_retries = 3] and one of the three job types, its
    progress is 100 once it has completed and 0 before, and its timestamps
    and its error follow its status. *)
Definition job_sound (job : BatchJob) : Prop :=
  max_retries job = 3 ∧ 0 ≤ retry_count job ≤ 3 ∧
  known_type (job_type job) = true ∧
  match job_status job with
  | PENDING | CANCELLED =>
    started_at job = None ∧ completed_at job = None ∧ error job = None ∧
    progress job = 0%float ∧ result job = VNone
  | PROCESSING =>
    is_Some (started_at job) ∧ completed_at job = None ∧ error job = None ∧
    progress job = 0%float ∧ result job = VNone
  | COMPLETED =>
    is_Some (started_at job) ∧ is_Some (completed_at job) ∧ error job = None ∧
    progress job = 100%float
  | FAILED =>
    is_Some (started_at job) ∧ is_Some (completed_at job) ∧
    is_Some (error job) ∧ progress job = 0%float ∧ result job = VNone ∧
    retry_count job = 3
  end.

(** A batch of the table: it is stored under its own id, its status is
    never Processing, and its [i]-th job carries the id the submission
    gave it. *)
Definition batch_sound (objs : list BatchJob) (bid : string)
    (b : BatchRequest nat) : Prop :=
  batch_id b = bid ∧ batch_status b ≠ PROCESSING ∧
  ∃ kind, ∀ i a, jobs b !! i = Some a →
    ∃ job, objs !! a = Some job ∧ job_id job = make_job_id bid kind i.

(** [self.active_jobs] holds the job the worker is running and nothing
    else. *)
Definition active_entry (s : Service) : gmap string nat :=
  match current s with
  | Some a =>
    match objects s !! a with
    | Some job => {[job_id job := a]}
    | None => ∅
    end
  | None => ∅
  end.

Definition sound (s : Service) : Prop :=
  (∀ a job, objects s !! a = Some job → job_sound job) ∧
  (∀ a job, objects s !! a = Some job → job_status job = PENDING →
            a ∈ job_queue s) ∧
  (∀ bid b, batch_requests s !! bid = Some b →
            batch_sound (objects s) bid b) ∧
  active_jobs s = active_entry s ∧
  active_workers (stats s) = 0 ∧
  total_jobs_processed (stats s) = count_status COMPLETED (objects s) ∧
  total_jobs_failed (stats s) = count_status FAILED (objects s).

(* ===================================================================== *)
(** ** Queries *)
(* ===================================================================== *)

(** The members of [JobStatus], in the order of their definition. *)
Definition all_statuses : list JobStatus :=
  [PENDING; PROCESSING; COMPLETED; FAILED; CANCELLED].

(** The entry of one job in ['jobs'] of the result of [get_batch_status]. *)
Definition job_info (job : BatchJob) : pyval :=
  VDict [
    ("id", VStr (job_id job));
    ("type", VStr (job_type job));
    ("status", VStr (status_value (job_status job)));
    ("progress", VFloat (progress job));
    ("created_at", VStr (isoformat (job_created_at job)));
    ("started_at", opt_datetime_json (started_at job));
    ("completed_at", opt_datetime_json (completed_at job));
    ("error", opt_str_json (error job));
    ("retry_count", VInt (retry_count job))
  ].

(** [job_statuses]: for each status, the number of jobs that have it. *)
Definition job_statuses (js : list BatchJob) : pydict :=
  map (fun st => (status_value st, VInt (count_status st js))) all_statuses.

(** [sum(job.progress for job in jobs)], the progress values added from
    left to right; the values a running service gives to [progress] are 0
    and 100, whose sums are exact. *)
Definition total_progress (js : list BatchJob) : float :=
  fold_left (fun acc job => (acc + progress job)%float) js 0%float.

(** [total_progress / total_jobs if total_jobs > 0 else 0] *)
Definition overall_progress (js : list BatchJob) (total : Z) : pyval :=
  if 0 <? total then VFloat (total_progress js / Z_to_float total)%float
  else VInt 0.

(** The dictionary [get_batch_status] builds for a batch whose job objects
    are [js]. *)
Definition batch_status_dict {J : Type} (b : BatchRequest J)
    (js : list BatchJob) : pydict :=
  [ ("id", VStr (batch_id b));
    ("name", VStr (batch_name b));
    ("status", VStr (status_value (batch_status b)));
    ("total_jobs", VInt (total_jobs b));
    ("completed_jobs", VInt (completed_jobs b));
    ("failed_jobs", VInt (failed_jobs b));
    ("overall_progress", overall_progress js (total_jobs b));
    ("job_statuses", VDict (job_statuses js));
    ("created_at", VStr (isoformat (batch_created_at b)));
    ("estimated_duration", opt_float_json (estimated_duration b));
    ("actual_duration", opt_float_json (actual_duration b));
    ("jobs", VList (map job_info js)) ].

(** [BatchProcessingService.get_batch_status]; [None] for a batch id that
    is not in the table. *)
Definition get_batch_status (bid : string) (s : Service) : option pydict :=
  match batch_requests s !! bid with
  | None => None
  | Some b => Some (batch_status_dict b (deref (objects s) (jobs b)))
  end.

(** ['success_rate'] of [get_service_stats]: the quotient of two integers,
    taken below [2^53], or the integer 0 when nothing has finished. *)
Definition success_rate (st : Stats) : pyval :=
  let finished := total_jobs_processed st + total_jobs_failed st in
  if 0 <? finished
  then VFloat (Z_to_float (total_jobs_processed st) / Z_to_float finished)%float
  else VInt 0.

(** ['active_batches'] of [get_service_stats] *)
Definition active_batches (s : Service) : Z :=
  Z.of_nat (size (filter (fun kb => batch_status kb.2 = PROCESSING)
                         (batch_requests s))).

(** [BatchProcessingService.get_service_stats]; [is_running] is the flag
    [self.is_running], which [start_processing] sets. *)
Definition get_service_stats (is_running : bool) (s : Service) : pydict :=
  [ ("queue_size", VInt (queue_size (stats s)));
    ("active_workers", VInt (active_workers (stats s)));
    ("total_jobs_processed", VInt (total_jobs_processed (stats s)));
    ("total_jobs_failed", VInt (total_jobs_failed (stats s)));
    ("average_processing_time", VFloat (average_processing_time (stats s)));
    ("success_rate", success_rate (stats s));
    ("max_workers", VInt (max_workers s));
    ("is_running", VBool is_running);
    ("total_batches", VInt (Z.of_nat (size (batch_requests s))));
    ("active_batches", VInt (active_batches s)) ].

(* ===================================================================== *)
(** ** Routes *)
(* ===================================================================== *)

(** What a route gives back: a body, or an [HTTPException]. *)
Inductive response (A : Type) :=
  | Ok (body : A)
  | HTTPException (status_code : Z) (detail : string).

Arguments Ok {A}.
Arguments HTTPException {A}.

(** [c.lower()] for a character below U+0100: the letters A to Z and the
    capital letters of Latin-1 (U+00C0 to U+00DE without the sign U+00D7)
    move up by 32. *)
Definition lower_char (c : ascii) : ascii :=
  let n := N_of_ascii c in
  if ((65 <=? n) && (n <=? 90) || (192 <=? n) && (n <=? 222) && negb (n =? 215))%N
  then ascii_of_N (n + 32) else c.

(** [s.lower()] *)
Fixpoint lower (s : string) : string :=
  match s with
  | EmptyString => EmptyString
  | String c s' => String (lower_char c) (lower s')
  end.

(** [parse_priority] *)
Definition parse_priority (priority_str : string) : JobPriority :=
  let key := lower priority_str in
  if String.eqb key "low" then LOW
  else if String.eqb key "medium" then MEDIUM
  else if String.eqb key "high" then HIGH
  else if String.eqb key "urgent" then URGENT
  else MEDIUM.

(** The request models, as they are after validation. *)
Record VideoJobRequest := mkVideoJobRequest {
  image_path : string;
  audio_path : option string;
  video_output_path : string;
  duration : float;
  video_quality : string;
  effects : list string
}.

Record AudioJobRequest := mkAudioJobRequest {
  audio_text : string;
  audio_output_path : string;
  voice : string;
  audio_quality : string;
  language : string
}.

Record TranslationJobRequest := mkTranslationJobRequest {
  translation_text : string;
  source_lang : option string;
  target_lang : string;
  translation_quality : string
}.

(** [job.dict()] for each of the three models. *)
Definition video_job_dict (r : VideoJobRequest) : pydict :=
  [ ("image_path", VStr (image_path r));
    ("audio_path", opt_str_json (audio_path r));
    ("output_path", VStr (video_output_path r));
    ("duration", VFloat (duration r));
    ("quality", VStr (video_quality r));
    ("effects", VList (map VStr (effects r))) ].

Definition audio_job_dict (r : AudioJobRequest) : pydict :=
  [ ("text", VStr (audio_text r));
    ("output_path", VStr (audio_output_path r));
    ("voice", VStr (voice r));
    ("quality", VStr (audio_quality r));
    ("language", VStr (language r)) ].

Definition translation_job_dict (r : TranslationJobRequest) : pydict :=
  [ ("text", VStr (translation_text r));
    ("source_lang", opt_str_json (source_lang r));
    ("target_lang", VStr (target_lang r));
    ("quality", VStr (translation_quality r)) ].

(** [BatchResponse] *)
Record BatchResponse := mkBatchResponse {
  response_batch_id : string;
  message : string;
  response_total_jobs : Z;
  response_estimated_duration : option float
}.

(** [batch_status.get('estimated_duration') if batch_status else None] *)
Definition estimate_of_status (batch_status : option pydict) : option float :=
  match batch_status with
  | Some d =>
    match dict_lookup "estimated_duration" d with
    | Some (VFloat x) => Some x
    | _ => None
    end
  | None => None
  end.

(** The common body of the three submission routes: [create] is the method
    of the service the route calls, [noun] the first word of the message
    and [requests] the list of the [job.dict()]. *)
Definition create_batch_route
    (create : Z → (nat → datetime) → list pydict → option string →
              JobPriority → Service → Service * string)
    (noun : string) (uuid : Z) (clock : nat → datetime)
    (requests : list pydict) (name : option string) (priority_str : string)
    (s : Service) : Service * response BatchResponse :=
  let p := parse_priority priority_str in
  let '(s', bid) := create uuid clock requests name p s in
  let batch_status := get_batch_status bid s' in
  (s', Ok (mkBatchResponse bid
             (noun +:+ " batch created successfully with " +:+
              pretty (length requests) +:+ " jobs")
             (Z.of_nat (length requests))
             (estimate_of_status batch_status))).

(** The routes [POST /video], [POST /audio] and [POST /translation] *)
Definition create_video_batch_route (uuid : Z) (clock : nat → datetime)
    (jobs : list VideoJobRequest) :=
  create_batch_route create_video_batch "Video" uuid clock
    (map video_job_dict jobs).

Definition create_audio_batch_route (uuid : Z) (clock : nat → datetime)
    (jobs : list AudioJobRequest) :=
  create_batch_route create_audio_batch "Audio" uuid clock
    (map audio_job_dict jobs).

Definition create_translation_batch_route (uuid : Z) (clock : nat → datetime)
    (jobs : list TranslationJobRequest) :=
  create_batch_route create_translation_batch "Translation" uuid clock
    (map translation_job_dict jobs).

(** The route [DELETE /cancel/{batch_id}] *)
Definition cancel_batch_route (bid : string) (s : Service) :
    Service * response pydict :=
  let '(s', success) := cancel_batch bid s in
  if success
  then (s', Ok [("message", VStr ("Batch " +:+ bid +:+ " cancelled successfully"))])
  else (s', HTTPException 404
              ("Batch " +:+ bid +:+ " not found or cannot be cancelled")).

(** *** The list of batches *)

(** [a < b] on strings: the order of the code points. *)
Definition str_lt (a b : string) : bool :=
  match String.compare a b with
  | Lt => true
  | _ => false
  end.

(** [l.sort(key=key, reverse=True)]: the sort is stable, so that its
    result is the one arrangement of [l] with descending keys that leaves
    items of equal keys in their order. *)
Fixpoint insert_desc {A : Type} (key : A → string) (x : A) (l : list A) :
    list A :=
  match l with
  | [] => [x]
  | y :: l' =>
    if str_lt (key x) (key y) then y :: insert_desc key x l' else x :: l
  end.

Definition sort_desc {A : Type} (key : A → string) (l : list A) : list A :=
  fold_right (insert_desc key) [] l.

(** The position a slice bound [i] stands for in a list of length [n]. *)
Definition slice_bound (n i : Z) : nat :=
  Z.to_nat (Z.min n (if i <? 0 then Z.max 0 (n + i) else i)).

(** [l[start:stop]] *)
Definition py_slice {A : Type} (start stop : Z) (l : list A) : list A :=
  let n := Z.of_nat (length l) in
  take (slice_bound n stop - slice_bound n start) (drop (slice_bound n start) l).

(** The dictionary [batch_info] of [list_batches]. *)
Record BatchInfo := mkBatchInfo {
  info_id : string;
  info_name : string;
  info_status : string;
  info_total_jobs : Z;
  info_completed_jobs : Z;
  info_failed_jobs : Z;
  info_created_at : string;
  info_estimated_duration : option float;
  info_actual_duration : option float
}.

Definition batch_info (b : BatchRequest nat) : BatchInfo :=
  mkBatchInfo (batch_id b) (batch_name b) (status_value (batch_status b))
    (total_jobs b) (completed_jobs b) (failed_jobs b)
    (isoformat (batch_created_at b)) (estimated_duration b)
    (actual_duration b).

(** The dictionary [list_batches] returns. *)
Record BatchList := mkBatchList {
  batches : list BatchInfo;
  total_count : Z;
  limit : Z;
  offset : Z;
  has_more : bool
}.

(** The route [GET /list]; [items] is [service.batch_requests.items()],
    the batches in the order of their insertion. *)
Definition list_batches (items : list (string * BatchRequest nat))
    (status : option string) (limit offset : Z) : BatchList :=
  let all_batches := map (fun kb => batch_info kb.2) items in
  let all_batches :=
    match status with
    | Some st =>
      if String.eqb st "" then all_batches
      else List.filter (fun b => String.eqb (info_status b) (lower st))
                       all_batches
    | None => all_batches
    end in
  let all_batches := sort_desc info_created_at all_batches in
  let total_count := Z.of_nat (length all_batches) in
  mkBatchList (py_slice offset (offset + limit) all_batches) total_count
    limit offset (offset + limit <? total_count).

(** *** Health *)

(** [stats.get('success_rate', 0) > 0.8] *)
Definition rate_above_threshold (rate : pyval) : bool :=
  match rate with
  | VFloat f => (0.8 <? f)%float
  | VInt z => 1 <=? z
  | _ => false
  end.

(** The route [GET /health]: the entries ['status'], ['is_running'],
    ['queue_size'], ['active_workers'], ['success_rate'] and
    ['timestamp']. *)
Definition health_check (is_running : bool) (now : datetime) (s : Service) :
    pydict :=
  let is_healthy :=
    is_running && (queue_size (stats s) <? 1000)
    && rate_above_threshold (success_rate (stats s)) in
  [ ("status", VStr (if is_healthy then "healthy" else "unhealthy"));
    ("is_running", VBool is_running);
    ("queue_size", VInt (queue_size (stats s)));
    ("active_workers", VInt (active_workers (stats s)));
    ("success_rate", success_rate (stats s));
    ("timestamp", VStr (isoformat now)) ].

(** *** Restart *)

(** The process is stopped and started again: a new service is built on
    the file the old one wrote last. *)
Definition restart (workers : Z) (s : Service) : Service :=
  start_service workers (disk s).

(** *** Vocabulary for the list of batches *)

(** [x] may stand before [y] in a list sorted by [key] in descending order:
    the key of [x] is not below that of [y]. *)
Definition desc {A : Type} (key : A → string) (x y : A) : Prop :=
  str_lt (key x) (key y) = false.

(** The batches [list_batches] sorts: all of them, or those whose status
    is the text of the filter in lower case. *)
Definition listed (items : list (string * BatchRequest nat))
    (status : option string) : list BatchInfo :=
  List.filter
    (fun b =>
       match status with
       | Some st =>
         if String.eqb st "" then true
         else String.eqb (info_status b) (lower st)
       | None => true
       end)
    (map (fun kb => batch_info kb.2) items).

(* ===================================================================== *)
(** * Properties *)
(* ===================================================================== *)

(** ** Priority ordering *)

Lemma job_lt_spec (x y : BatchJob) :
  job_lt x y = true ↔ priority_value (priority x) < priority_value (priority y).
Proof. unfold job_lt. apply Z.ltb_lt. Qed.

Lemma priority_value_inj (p q : JobPriority) :
  priority_value p = priority_value q → p = q.
Proof. destruct p, q; simpl; intros H; congruence || lia. Qed.

Lemma priority_value_range (p : JobPriority) : 0 ≤ priority_value p ≤ 3.
Proof. destruct p; simpl; lia. Qed.

(** [BatchJob.__lt__] looks at the priority value only: it orders [x]
    before [y] exactly when the priority value of [x] is smaller, it is a
    strict weak order (irreflexive, transitive, with a transitive
    incomparability), and it never orders two jobs of the same priority. *)
Lemma job_lt_strict_weak_order :
  (∀ x y, job_lt x y = true ↔
          priority_value (priority x) < priority_value (priority y)) ∧
  (∀ x, job_lt x x = false) ∧
  (∀ x y z, job_lt x y = true → job_lt y z = true → job_lt x z = true) ∧
  (∀ x y z, job_lt x y = false → job_lt y z = false → job_lt x z = false) ∧
  (∀ x y, priority x = priority y → job_lt x y = false ∧ job_lt y x = false) ∧
  (∀ x y, priority x ≠ priority y → job_lt x y = true ∨ job_lt y x = true).
Proof.
  repeat split.
  - apply job_lt_spec.
  - apply job_lt_spec.
  - intros x. unfold job_lt. apply Z.ltb_irrefl.
  - intros x y z. rewrite !job_lt_spec. lia.
  - intros x y z. unfold job_lt. rewrite !Z.ltb_ge. lia.
  - unfold job_lt. rewrite H. apply Z.ltb_irrefl.
  - unfold job_lt. rewrite H. apply Z.ltb_irrefl.
  - intros x y Hne. rewrite !job_lt_spec.
    destruct (Z.lt_trichotomy (priority_value (priority x))
                              (priority_value (priority y))) as [H|[H|H]];
      [by left| |by right].
    by apply priority_value_inj in H.
Qed.

(** C2 (counterexample). Four jobs submitted together at the same priority:
    the second and the third are distinct jobs that [__lt__] does not order
    either way, and the worker runs the third before the second. *)
Lemma same_priority_not_fifo :
  let clock := fun k : nat => mkdatetime 2025 11 3 10 0 (Z.of_nat k) 0 in
  let s := (create_audio_batch 255 clock (replicate 4 [("text", VStr "hi")])
              (Some "b") MEDIUM (empty_service 1 None)).1 in
  (∃ x y, objects s !! 1%nat = Some x ∧ objects s !! 2%nat = Some y ∧
          x ≠ y ∧ priority x = priority y ∧
          job_lt x y = false ∧ job_lt y x = false) ∧
  (run_worker 4 (fun _ => Returned VNone) clock s).2
  = [Ran 0; Ran 2; Ran 1; Ran 3].
Proof.
  split.
  - eexists _, _. split; [vm_compute; reflexivity|].
    split; [vm_compute; reflexivity|].
    split; [discriminate|]. by vm_compute.
  - by vm_compute.
Qed.

(** ** Duration estimator *)




(** The loop of the estimator adds nothing for a job of another type than
    video, audio and translation; no submission creates such a job. *)
Lemma add_job_estimate_other (total : float) (job : BatchJob) :
  known_type (job_type job) = false → add_job_estimate total job = Some total.
Proof.
  unfold known_type, add_job_estimate. intros Hk.
  apply orb_false_elim in Hk as [Hk ->]. apply orb_false_elim in Hk as [-> ->].
  done.
Qed.

(** ** Job identifiers *)

Lemma split_head_app (b rest : string) :
  no_underscore b = true → split_head (b +:+ String "_" rest) = b.
Proof.
  induction b as [|c b IH]; simpl; [done|].
  intros [Hc Hb]%andb_true_iff.
  apply negb_true_iff in Hc. rewrite Hc. f_equal. by apply IH.
Qed.

Lemma no_underscore_app (a b : string) :
  no_underscore a = true → no_underscore b = true →
  no_underscore (a +:+ b) = true.
Proof.
  induction a as [|c a IH]; simpl; [done|].
  intros [Hc Ha]%andb_true_iff Hb. rewrite Hc. simpl. by apply IH.
Qed.

Lemma no_underscore_substring (s : string) (i k : nat) :
  no_underscore s = true → no_underscore (substring i k s) = true.
Proof.
  revert i k. induction s as [|c s IH]; intros i k.
  - by destruct i, k.
  - simpl. intros [Hc Hs]%andb_true_iff.
    destruct i as [|i]; [destruct k as [|k]; [done|]|by apply IH].
    simpl. rewrite Hc. simpl. by apply IH.
Qed.

Lemma hex_char_not_underscore (d : Z) :
  0 ≤ d < 16 → Ascii.eqb (hex_char d) "_" = false.
Proof.
  intros H.
  assert (Hd : d = 0 ∨ d = 1 ∨ d = 2 ∨ d = 3 ∨ d = 4 ∨ d = 5 ∨ d = 6 ∨ d = 7 ∨
               d = 8 ∨ d = 9 ∨ d = 10 ∨ d = 11 ∨ d = 12 ∨ d = 13 ∨ d = 14 ∨
               d = 15) by lia.
  repeat (destruct Hd as [->|Hd]; [reflexivity|]). by subst.
Qed.

Lemma no_underscore_hex_digits (k : nat) (n : Z) :
  no_underscore (hex_digits k n) = true.
Proof.
  induction k as [|k IH]; simpl; [done|].
  rewrite hex_char_not_underscore, IH; [done|].
  apply Z.mod_pos_bound. lia.
Qed.

(** The text of a UUID holds no underscore. *)
Lemma no_underscore_uuid (n : Z) : no_underscore (uuid_str n) = true.
Proof.
  unfold uuid_str.
  repeat (apply no_underscore_app;
          [apply no_underscore_substring, no_underscore_hex_digits|];
          apply (no_underscore_app "-"); [done|]).
  apply no_underscore_substring, no_underscore_hex_digits.
Qed.

Lemma split_head_job_id (bid kind : string) (i : nat) :
  no_underscore bid = true → split_head (make_job_id bid kind i) = bid.
Proof. intros H. unfold make_job_id. by apply split_head_app. Qed.

(** ** Batch submission *)

Lemma enqueue_jobs_spec bid kind p clock requests :
  ∀ i objs queue js,
    ∃ queue',
      enqueue_jobs bid kind p clock i requests objs queue js
      = (objs ++ created_jobs bid kind p clock i requests, queue',
         js ++ seq (length objs) (length requests)).
Proof.
  induction requests as [|r rest IH]; intros i objs queue js; simpl.
  - exists queue. by rewrite !app_nil_r.
  - destruct (IH (S i) (objs ++ [new_job (make_job_id bid kind i) kind r p
                                   PENDING (clock i)])
                (heappush
                   (lt_at (objs ++ [new_job (make_job_id bid kind i) kind r p
                                      PENDING (clock i)])) queue (length objs))
                (js ++ [length objs])) as [q' ->].
    exists q'. rewrite length_app. simpl.
    rewrite <- !app_assoc. simpl. by rewrite Nat.add_1_r.
Qed.

(** What a submission does to the object store and to the table: the job
    objects are appended to the store and the batch is bound to its id. *)
Lemma create_batch_spec kind label uuid clock requests name p s :
  ∃ name' clock' est,
    let s' := (create_batch kind label uuid clock requests name p s).1 in
    (create_batch kind label uuid clock requests name p s).2 = uuid_str uuid ∧
    objects s' =
      objects s ++ created_jobs (uuid_str uuid) kind p clock' 0 requests ∧
    batch_requests s' =
      <[uuid_str uuid :=
          mkBatchRequest (uuid_str uuid) name'
            (seq (length (objects s)) (length requests))
            (clock' (length requests)) (Z.of_nat (length requests)) 0 0
            PENDING est None]> (batch_requests s) ∧
    finished_jobs s' = finished_jobs s ∧
    max_workers s' = max_workers s.
Proof.
  unfold create_batch.
  set (nc := match name with
             | Some n =>
               if String.eqb n "" then (label +:+ strftime_compact (clock 0%nat),
                                        fun k => clock (S k))
               else (n, clock)
             | None => (label +:+ strftime_compact (clock 0%nat),
                        fun k => clock (S k))
             end).
  destruct nc as [name' clock'].
  destruct (enqueue_jobs_spec (uuid_str uuid) kind p clock' requests 0%nat
              (objects s) (job_queue s) []) as [q' ->].
  eexists name', clock', _. simpl.
  rewrite length_seq. done.
Qed.

Lemma created_jobs_lookup bid kind p clock requests :
  ∀ i k job,
    created_jobs bid kind p clock i requests !! k = Some job →
    job_id job = make_job_id bid kind (i + k) ∧ job_status job = PENDING ∧
    job_type job = kind ∧ retry_count job = 0 ∧ max_retries job = 3 ∧
    priority job = p.
Proof.
  induction requests as [|r rest IH]; intros i k job; simpl; [done|].
  destruct k as [|k]; simpl.
  - intros [= <-]. simpl. by rewrite Nat.add_0_r.
  - intros H. apply IH in H. by rewrite <- Nat.add_succ_comm.
Qed.

Lemma created_jobs_length bid kind p clock requests :
  ∀ i, length (created_jobs bid kind p clock i requests) = length requests.
Proof. induction requests as [|r rest IH]; intros i; simpl; [done|]. by rewrite IH. Qed.

(** C10. Whichever of the three submission operations creates a batch, the
    batch is stored under the id returned, which is the text of the UUID
    drawn; every job of the batch is an object whose id, cut at its first
    underscore, is that batch id, so that the lookup of the aggregator finds
    the batch the job belongs to. *)
Theorem job_id_prefix_is_batch_id :
  ∀ create,
    create ∈ [create_video_batch; create_audio_batch; create_translation_batch] →
    ∀ uuid clock requests name p s,
      let r := create uuid clock requests name p s in
      ∃ b,
        batch_requests r.1 !! r.2 = Some b ∧
        batch_id b = r.2 ∧
        r.2 = uuid_str uuid ∧
        no_underscore r.2 = true ∧
        jobs b = seq (length (objects s)) (length requests) ∧
        ∀ a, a ∈ jobs b →
          ∃ job, objects r.1 !! a = Some job ∧
                 split_head (job_id job) = batch_id b ∧
                 batch_requests r.1 !! split_head (job_id job) = Some b.
Proof.
  intros create Hc uuid clock requests name p s.
  assert (∃ kind label, create = create_batch kind label) as (kind & label & ->).
  { apply elem_of_cons in Hc as [->|Hc];
      [by exists "video", "Video Batch "|].
    apply elem_of_cons in Hc as [->|Hc];
      [by exists "audio", "Audio Batch "|].
    apply elem_of_cons in Hc as [->|Hc];
      [by exists "translation", "Translation Batch "|].
    by apply not_elem_of_nil in Hc. }
  clear Hc. simpl.
  destruct (create_batch_spec kind label uuid clock requests name p s)
    as (name' & clock' & est & Hid & Hobj & Htab & _).
  simpl in *. rewrite Hid, Htab, Hobj.
  eexists. split; [apply lookup_insert_eq|]. simpl.
  split; [done|]. split; [done|]. split; [apply no_underscore_uuid|].
  split; [done|].
  intros a Ha. apply list_elem_of_In, in_seq in Ha.
  destruct (created_jobs (uuid_str uuid) kind p clock' 0 requests
              !! (a - length (objects s))%nat) as [job|] eqn:Hjob.
  - exists job. rewrite lookup_app_r by lia. split; [done|].
    apply created_jobs_lookup in Hjob as (Hjid & _).
    rewrite Hjid, split_head_job_id by apply no_underscore_uuid.
    split; [done|]. apply lookup_insert_eq.
  - apply lookup_ge_None in Hjob. rewrite created_jobs_length in Hjob. lia.
Qed.

(** ** Counting job states *)

Lemma count_status_nil (st : JobStatus) : count_status st [] = 0.
Proof. done. Qed.

Lemma count_status_cons (st : JobStatus) (j : BatchJob) (js : list BatchJob) :
  count_status st (j :: js)
  = (if decide (job_status j = st) then 1 else 0) + count_status st js.
Proof.
  unfold count_status. rewrite filter_cons.
  destruct (decide (job_status j = st)); simpl length; lia.
Qed.

Lemma count_status_nonneg (st : JobStatus) (js : list BatchJob) :
  0 ≤ count_status st js.
Proof. unfold count_status. lia. Qed.

Lemma job_counted_spec (j : BatchJob) :
  job_counted j = true ↔ job_status j = COMPLETED ∨ job_status j = FAILED.
Proof. unfold job_counted. apply bool_decide_eq_true. Qed.

Lemma counted_le_length (js : list BatchJob) :
  count_status COMPLETED js + count_status FAILED js ≤ Z.of_nat (length js).
Proof.
  induction js as [|j js IH]; [done|].
  rewrite !count_status_cons. simpl length.
  destruct (decide (job_status j = COMPLETED)) as [->|];
    destruct (decide _); try done; lia.
Qed.

(** The two counters add up to the number of jobs exactly when every job is
    Completed or Failed. *)
Lemma counted_eq_length (js : list BatchJob) :
  count_status COMPLETED js + count_status FAILED js = Z.of_nat (length js)
  ↔ Forall (fun j => job_counted j = true) js.
Proof.
  induction js as [|j js IH]; [by split|].
  rewrite !count_status_cons, Forall_cons, <- IH, job_counted_spec.
  simpl length. pose proof (counted_le_length js).
  destruct (decide (job_status j = COMPLETED)) as [Hc|Hc];
    destruct (decide (job_status j = FAILED)) as [Hf|Hf].
  - congruence.
  - split; [intros; split; [by left|lia] | intros [_ ?]; lia].
  - split; [intros; split; [by right|lia] | intros [_ ?]; lia].
  - split; [lia | intros [[?|?] _]; done].
Qed.

(** ** Batch aggregator *)

Lemma aggregate_counts (js : list BatchJob) (b : BatchRequest nat) :
  completed_jobs (aggregate js b) = count_status COMPLETED js ∧
  failed_jobs (aggregate js b) = count_status FAILED js ∧
  total_jobs (aggregate js b) = total_jobs b ∧
  jobs (aggregate js b) = jobs b ∧
  batch_created_at (aggregate js b) = batch_created_at b.
Proof.
  unfold aggregate. by repeat case_match.
Qed.

Lemma aggregate_status_counted (js : list BatchJob) (b : BatchRequest nat) :
  count_status COMPLETED js + count_status FAILED js = total_jobs b →
  batch_status (aggregate js b)
  = aggregate_status (count_status COMPLETED js) (count_status FAILED js).
Proof.
  intros H. unfold aggregate. cbn [total_jobs set_counts].
  rewrite H, Z.eqb_refl. by repeat case_match.
Qed.

Lemma aggregate_status_other (js : list BatchJob) (b : BatchRequest nat) :
  count_status COMPLETED js + count_status FAILED js ≠ total_jobs b →
  batch_status (aggregate js b) = batch_status b.
Proof.
  intros H. unfold aggregate. cbn [total_jobs set_counts].
  by destruct (Z.eqb_spec (count_status COMPLETED js + count_status FAILED js)
                 (total_jobs b)).
Qed.

(** C4 (as amended). For a batch whose [total_jobs] is the number of its
    jobs, the aggregator stores the numbers of Completed and of Failed jobs
    and sets the batch status only once every job is Completed or Failed:
    to Completed if no job failed, to Failed if none completed, and to
    Completed when both occur. Until the two counters add up to
    [total_jobs], that is while a job is Pending, Processing or Cancelled,
    it leaves the batch status as it was; in particular it does so when
    every job is terminal and one of them is Cancelled. *)
Theorem aggregate_spec (js : list BatchJob) (b : BatchRequest nat) :
  total_jobs b = Z.of_nat (length js) →
  let b' := aggregate js b in
  completed_jobs b' = count_status COMPLETED js ∧
  failed_jobs b' = count_status FAILED js ∧
  (Forall (fun j => job_counted j = true) js →
   batch_status b' =
     if failed_jobs b' =? 0 then COMPLETED
     else if completed_jobs b' =? 0 then FAILED
     else COMPLETED) ∧
  (completed_jobs b' + failed_jobs b' ≠ total_jobs b →
   batch_status b' = batch_status b) ∧
  (Exists (fun j => job_status j ∈ [PENDING; PROCESSING; CANCELLED]) js →
   batch_status b' = batch_status b) ∧
  (Forall (fun j => job_terminal j = true) js →
   Exists (fun j => job_status j = CANCELLED) js →
   batch_status b' = batch_status b).
Proof.
  intros Htot b'. subst b'.
  destruct (aggregate_counts js b) as (Hc & Hf & _).
  rewrite Hc, Hf.
  assert (Hother : ∀ j, j ∈ js →
            job_status j ≠ COMPLETED → job_status j ≠ FAILED →
            batch_status (aggregate js b) = batch_status b).
  { intros j Hj Hnc Hnf. apply aggregate_status_other. rewrite Htot.
    intros Heq. apply counted_eq_length in Heq.
    rewrite Forall_forall in Heq. specialize (Heq j Hj).
    apply job_counted_spec in Heq. by destruct Heq. }
  split; [done|]. split; [done|]. split; [|split; [|split]].
  - intros Hall. apply counted_eq_length in Hall.
    rewrite aggregate_status_counted by lia. done.
  - apply aggregate_status_other.
  - intros Hex. apply Exists_exists in Hex as (j & Hj & Hst).
    apply (Hother j Hj); intros Heq; rewrite Heq in Hst;
      repeat (apply elem_of_cons in Hst as [Hst|Hst]; [discriminate|]);
      by apply not_elem_of_nil in Hst.
  - intros _ Hex. apply Exists_exists in Hex as (j & Hj & Hst).
    apply (Hother j Hj); congruence.
Qed.

(** ** Cancellation *)

Lemma cancel_job_lookup (objs : list BatchJob) (x a : nat) :
  cancel_job objs x !! a =
    (fun job => if decide (a = x ∧ job_status job = PENDING)
                then set_status CANCELLED job else job) <$> objs !! a.
Proof.
  unfold cancel_job. destruct (decide (a = x)) as [->|Hne].
  - destruct (objs !! x) as [job|] eqn:Hx; simpl.
    + destruct (decide (job_status job = PENDING)) as [Hp|Hp].
      * rewrite list_lookup_insert_eq by (by eapply lookup_lt_Some).
        by rewrite decide_True.
      * rewrite Hx. simpl. rewrite decide_False; [done|]. by intros [_ ?].
    + by rewrite Hx.
  - assert (Hsame : ∀ o : option BatchJob,
      (fun job => if decide (a = x ∧ job_status job = PENDING)
                  then set_status CANCELLED job else job) <$> o = o).
    { intros [job|]; simpl; [|done]. rewrite decide_False; [done|]. by intros [? _]. }
    rewrite Hsame.
    destruct (objs !! x) as [job|]; [|done].
    destruct (decide _); [|done]. by rewrite list_lookup_insert_ne.
Qed.

Lemma cancel_jobs_lookup (js : list nat) :
  ∀ (objs : list BatchJob) (a : nat),
    fold_left cancel_job js objs !! a =
      (fun job => if decide (a ∈ js ∧ job_status job = PENDING)
                  then set_status CANCELLED job else job) <$> objs !! a.
Proof.
  induction js as [|x js IH]; intros objs a; simpl.
  - by destruct (objs !! a).
  - rewrite IH, cancel_job_lookup.
    destruct (objs !! a) as [job|]; simpl; [|done]. f_equal.
    destruct (decide (a = x ∧ job_status job = PENDING)) as [[-> Hp]|Hn].
    + rewrite decide_False by (simpl; intros [_ ?]; done).
      rewrite decide_True; [done|]. split; [apply elem_of_cons; by left|done].
    + destruct (decide (a ∈ js ∧ job_status job = PENDING)) as [[Hin Hp]|Hn'].
      * rewrite decide_True; [done|]. split; [apply elem_of_cons; by right|done].
      * rewrite decide_False; [done|]. intros [Hin Hp].
        apply elem_of_cons in Hin as [->|Hin]; [by apply Hn|by apply Hn'].
Qed.

Lemma cancel_jobs_length (js : list nat) :
  ∀ objs : list BatchJob, length (fold_left cancel_job js objs) = length objs.
Proof.
  induction js as [|x js IH]; intros objs; simpl; [done|].
  rewrite IH. unfold cancel_job.
  destruct (objs !! x); [|done]. destruct (decide _); [|done].
  apply length_insert.
Qed.

Lemma cancel_batch_missing (bid : string) (s : Service) :
  batch_requests s !! bid = None → cancel_batch bid s = (s, false).
Proof. intros H. unfold cancel_batch. by rewrite H. Qed.

Lemma cancel_batch_found (bid : string) (s : Service) (b : BatchRequest nat) :
  batch_requests s !! bid = Some b →
  cancel_batch bid s =
    (_save_persistent_data
       (set_batch_requests
          (<[bid := set_batch_status CANCELLED b]> (batch_requests s))
          (set_objects (fold_left cancel_job (jobs b) (objects s)) s)),
     true).
Proof. intros H. unfold cancel_batch. by rewrite H. Qed.

(** C5. [cancel_batch] returns false exactly when no batch has the id, and
    then changes nothing. For a batch that exists it returns true; each job
    object of the batch that is Pending gets the status Cancelled and keeps
    its other fields; every other job object, in the batch or not, is left
    as it is, and so are the queue and the job the worker is running. *)
Theorem cancel_batch_spec (bid : string) (s : Service) :
  ((cancel_batch bid s).2 = false ↔ batch_requests s !! bid = None) ∧
  (batch_requests s !! bid = None → (cancel_batch bid s).1 = s) ∧
  (∀ b, batch_requests s !! bid = Some b →
     (cancel_batch bid s).2 = true ∧
     (∀ a, objects (cancel_batch bid s).1 !! a =
           (fun job => if decide (a ∈ jobs b ∧ job_status job = PENDING)
                       then set_status CANCELLED job else job)
           <$> objects s !! a) ∧
     job_queue (cancel_batch bid s).1 = job_queue s ∧
     current (cancel_batch bid s).1 = current s).
Proof.
  destruct (batch_requests s !! bid) as [b|] eqn:Hb.
  - rewrite (cancel_batch_found bid s b Hb).
    split; [by split|]. split; [done|].
    intros ? [= <-]. split; [done|].
    split; [|done]. intros a. apply cancel_jobs_lookup.
  - rewrite (cancel_batch_missing bid s Hb).
    split; [by split|]. split; [done|]. by intros.
Qed.

(** C5 (witness). Two Pending jobs and one Processing job: the two become
    Cancelled, the running one is left alone. *)
Lemma cancel_batch_spec_witness :
  (cancel_batch demo_id one_running).2 = true ∧
  job_status <$> objects one_running = [PROCESSING; PENDING; PENDING] ∧
  job_status <$> objects (cancel_batch demo_id one_running).1
  = [PROCESSING; CANCELLED; CANCELLED] ∧
  objects (cancel_batch demo_id one_running).1 !! 0%nat
  = objects one_running !! 0%nat.
Proof.
  destruct (cancel_batch_spec demo_id one_running) as (_ & _ & H).
  eassert (Hb : batch_requests one_running !! demo_id = Some _)
    by (vm_compute; reflexivity).
  destruct (H _ Hb) as (Hret & Hobj & _).
  split; [exact Hret|]. split; [by vm_compute|]. split; [by vm_compute|].
  rewrite Hobj. by vm_compute.
Defined.

(** ** Reachable states *)

Lemma reachable_init (workers : Z) : reachable (empty_service workers None).
Proof. by exists workers. Qed.

Lemma reachable_step (s s' : Service) :
  reachable s → step s s' → reachable s'.
Proof. intros [w H] Hs. exists w. by eapply rtc_r. Qed.

Lemma reachable_one_pending : reachable one_pending.
Proof.
  apply reachable_step with (empty_service 4 None);
    [apply reachable_init|apply step_create_audio].
Qed.

Lemma reachable_all_cancelled : reachable all_cancelled.
Proof.
  apply reachable_step with one_pending;
    [apply reachable_one_pending|apply step_cancel].
Qed.

Lemma reachable_one_completed : reachable one_completed.
Proof.
  apply reachable_step with (take_job (morning 10) one_pending).1;
    [|apply step_finish; vm_compute; by eexists].
  apply reachable_step with one_pending;
    [apply reachable_one_pending|apply step_take; by vm_compute].
Qed.

Lemma reachable_one_running : reachable one_running.
Proof.
  apply reachable_step with three_pending; [|apply step_take; by vm_compute].
  apply reachable_step with (empty_service 4 None);
    [apply reachable_init|apply step_create_audio].
Qed.

Lemma reachable_completed_and_cancelled : reachable completed_and_cancelled.
Proof.
  apply reachable_step
    with (cancel_batch demo_id (take_job (morning 10) two_pending).1).1;
    [|apply step_finish; vm_compute; by eexists].
  apply reachable_step with (take_job (morning 10) two_pending).1;
    [|apply step_cancel].
  apply reachable_step with two_pending; [|apply step_take; by vm_compute].
  apply reachable_step with (empty_service 4 None);
    [apply reachable_init|apply step_create_audio].
Qed.

(** C4 (witness). A batch of two jobs, one Completed and one Failed, is
    given the status Completed. *)
Lemma aggregate_spec_witness :
  let done_job :=
    set_status COMPLETED
      (new_job "b_audio_0" "audio" [] MEDIUM PENDING (morning 0)) in
  let lost_job :=
    set_status FAILED
      (new_job "b_audio_1" "audio" [] MEDIUM PENDING (morning 1)) in
  let b := mkBatchRequest "b" "demo" [0; 1]%nat (morning 2) 2 0 0 PENDING None None in
  completed_jobs (aggregate [done_job; lost_job] b) = 1 ∧
  failed_jobs (aggregate [done_job; lost_job] b) = 1 ∧
  batch_status (aggregate [done_job; lost_job] b) = COMPLETED.
Proof.
  intros done_job lost_job b.
  destruct (aggregate_spec [done_job; lost_job] b eq_refl) as (Hc & Hf & Hs & _).
  split; [exact Hc|]. split; [exact Hf|].
  rewrite Hs; [by rewrite Hc, Hf | by repeat constructor].
Defined.

(** C4 (counterexample). A reachable state whose batch has one Completed
    and one Cancelled job: every job is terminal and none failed, yet the
    status the aggregator left, and would leave again, is not Completed. *)
Lemma cancelled_batch_never_completed :
  reachable completed_and_cancelled ∧
  ∃ b, batch_requests completed_and_cancelled !! demo_id = Some b ∧
       job_status <$> deref (objects completed_and_cancelled) (jobs b)
       = [COMPLETED; CANCELLED] ∧
       failed_jobs b = 0 ∧
       batch_status b = CANCELLED ∧
       batch_status (aggregate (deref (objects completed_and_cancelled) (jobs b)) b)
       = CANCELLED.
Proof.
  split.
  - apply reachable_completed_and_cancelled.
  - eexists. split; [vm_compute; reflexivity|]. by vm_compute.
Qed.

(** ** Cleanup *)

Lemma cleanup_old_batches_objects (clock : nat → datetime) (days_old : Z)
    (s : Service) :
  objects (cleanup_old_batches clock days_old s).1 = objects s ∧
  job_queue (cleanup_old_batches clock days_old s).1 = job_queue s ∧
  current (cleanup_old_batches clock days_old s).1 = current s.
Proof.
  unfold cleanup_old_batches.
  destruct (dt_sub_days (clock 0%nat) days_old); [|done].
  by destruct (dt_sub_days (clock 1%nat) days_old).
Qed.

(** C6 (as amended). [cleanup_old_batches] computes the cut-off date, the
    current time less [days_old] days. When that date cannot be represented
    the call changes nothing. Otherwise it removes exactly the batches whose
    status is Completed, Failed or Cancelled and that were created before
    the cut-off date, and leaves every other batch, and every job object,
    as it was. In both cases it returns [None]: the number of batches
    removed is not returned. *)
Theorem cleanup_old_batches_spec (clock : nat → datetime) (days_old : Z)
    (s : Service) :
  let r := cleanup_old_batches clock days_old s in
  r.2 = VNone ∧
  objects r.1 = objects s ∧
  match dt_sub_days (clock 0%nat) days_old with
  | None => r.1 = s
  | Some cutoff_date =>
    ∀ bid,
      batch_requests r.1 !! bid =
        match batch_requests s !! bid with
        | Some b =>
          if terminal_status (batch_status b)
             && dt_ltb (batch_created_at b) cutoff_date
          then None else Some b
        | None => None
        end
  end.
Proof.
  unfold cleanup_old_batches.
  destruct (dt_sub_days (clock 0%nat) days_old) as [cutoff|]; [|done].
  assert (Hfilter : ∀ bid,
    filter (fun kb : string * BatchRequest nat => removable cutoff kb.2 = false)
      (batch_requests s) !! bid =
    match batch_requests s !! bid with
    | Some b => if removable cutoff b then None else Some b
    | None => None
    end).
  { intros bid. destruct (batch_requests s !! bid) as [b|] eqn:Hb.
    - destruct (removable cutoff b) eqn:Hr.
      + apply map_lookup_filter_None_2. right. intros x Hx. simpl. congruence.
      + by apply map_lookup_filter_Some_2.
    - apply map_lookup_filter_None_2. by left. }
  destruct (dt_sub_days (clock 1%nat) days_old); simpl; by repeat split.
Qed.

(** C6 (counterexample). A Completed batch created ten days before a
    cleanup with a threshold of seven days: the batch is removed, and the
    value returned is [None], not the number 1 of batches removed. *)
Lemma cleanup_returns_nothing :
  let r := cleanup_old_batches ten_days_later 7 one_completed in
  reachable one_completed ∧
  (batch_status <$> batch_requests one_completed !! demo_id) = Some COMPLETED ∧
  size (batch_requests one_completed) = 1%nat ∧
  size (batch_requests r.1) = 0%nat ∧
  r.2 ≠ VInt 1.
Proof.
  split.
  - apply reachable_one_completed.
  - split; [by vm_compute|]. split; [by vm_compute|].
    split; [by vm_compute|]. by vm_compute.
Qed.

(** ** The priority queue keeps its items *)

Section HeapqItems.

Variable lt : nat → nat → bool.

Lemma delete_insert_same (l : list nat) (i : nat) (y : nat) :
  delete i (<[i := y]> l) = delete i l.
Proof.
  revert i. induction l as [|w l IH]; intros [|i]; simpl; try done.
  f_equal. apply IH.
Qed.

Lemma insert_Permutation_delete (l : list nat) (i : nat) (y : nat) :
  (i < length l)%nat → <[i := y]> l ≡ₚ y :: delete i l.
Proof.
  intros Hi. rewrite <- (delete_insert_same l i y).
  apply delete_Permutation. by apply list_lookup_insert_eq.
Qed.

Lemma insert_swap_Permutation (l : list nat) (i j : nat) (x : nat) :
  (i < length l)%nat → (j < length l)%nat → i ≠ j →
  <[j := x]> (<[i := l !!! j]> l) ≡ₚ <[i := x]> l.
Proof.
  intros Hi Hj Hne.
  assert (Hmj : <[i := l !!! j]> l !! j = Some (l !!! j)).
  { rewrite list_lookup_insert_ne by done. by apply list_lookup_lookup_total_lt. }
  rewrite (insert_Permutation_delete (<[i := l !!! j]> l) j x)
    by (by rewrite length_insert).
  rewrite (insert_Permutation_delete l i x) by done.
  apply Permutation_skip.
  apply delete_Permutation in Hmj.
  rewrite (insert_Permutation_delete l i (l !!! j)) in Hmj at 1 by done.
  by apply Permutation_cons_inv in Hmj.
Qed.

Lemma siftdown_loop_Permutation (fuel : nat) :
  ∀ (heap : list nat) (newitem startpos pos : nat),
    (pos < length heap)%nat →
    siftdown_loop lt fuel heap newitem startpos pos ≡ₚ <[pos := newitem]> heap.
Proof.
  induction fuel as [|fuel IH]; intros heap newitem startpos pos Hpos;
    cbn [siftdown_loop]; [done|].
  destruct (startpos <? pos)%nat eqn:Hlt; [|done].
  apply Nat.ltb_lt in Hlt.
  destruct (lt newitem (heap !!! ((pos - 1) / 2)%nat)); [|done].
  assert (Hpar : ((pos - 1) / 2 < pos)%nat).
  { apply Nat.Div0.div_lt_upper_bound. lia. }
  rewrite IH by (rewrite length_insert; lia).
  apply insert_swap_Permutation; lia.
Qed.

Lemma siftdown_Permutation (heap : list nat) (startpos pos : nat) :
  (pos < length heap)%nat → _siftdown lt heap startpos pos ≡ₚ heap.
Proof.
  intros Hpos. unfold _siftdown. rewrite siftdown_loop_Permutation by done.
  rewrite list_insert_id; [done|]. by apply list_lookup_lookup_total_lt.
Qed.

Lemma siftup_loop_Permutation (fuel : nat) :
  ∀ (heap : list nat) (pos : nat) (x : nat),
    (pos < length heap)%nat →
    let r := siftup_loop lt fuel heap (length heap) pos in
    length r.1 = length heap ∧ (r.2 < length heap)%nat ∧ (pos ≤ r.2)%nat ∧
    <[r.2 := x]> r.1 ≡ₚ <[pos := x]> heap.
Proof.
  induction fuel as [|fuel IH]; intros heap pos x Hpos; cbn [siftup_loop];
    [done|].
  destruct (2 * pos + 1 <? length heap)%nat eqn:Hc; [|done].
  apply Nat.ltb_lt in Hc.
  set (c := if ((2 * pos + 1 + 1 <? length heap)%nat &&
                negb (lt (heap !!! (2 * pos + 1)%nat)
                         (heap !!! (2 * pos + 1 + 1)%nat)))
            then (2 * pos + 1 + 1)%nat else (2 * pos + 1)%nat).
  assert (Hcl : (c < length heap)%nat ∧ (pos < c)%nat).
  { subst c. destruct (2 * pos + 1 + 1 <? length heap)%nat eqn:Hr; simpl.
    - apply Nat.ltb_lt in Hr. destruct (negb _); lia.
    - lia. }
  destruct Hcl as [Hcl Hpc].
  specialize (IH (<[pos := heap !!! c]> heap) c x).
  rewrite length_insert in IH. destruct (IH Hcl) as (Hlen & Hr & Hle & Hperm).
  split; [done|]. split; [done|]. split; [lia|].
  rewrite Hperm. apply insert_swap_Permutation; lia.
Qed.

Lemma siftup_Permutation (heap : list nat) (pos : nat) :
  (pos < length heap)%nat → _siftup lt heap pos ≡ₚ heap.
Proof.
  intros Hpos. unfold _siftup.
  destruct (siftup_loop_Permutation (length heap) heap pos (heap !!! pos) Hpos)
    as (Hlen & Hr & Hle & Hperm).
  destruct (siftup_loop lt (length heap) heap (length heap) pos) as [h p].
  simpl in *.
  rewrite siftdown_Permutation by (rewrite length_insert; lia).
  rewrite Hperm, list_insert_id; [done|]. by apply list_lookup_lookup_total_lt.
Qed.

(** Putting an item on the queue adds it and changes nothing else. *)
Lemma heappush_Permutation (heap : list nat) (item : nat) :
  heappush lt heap item ≡ₚ item :: heap.
Proof.
  unfold heappush. rewrite siftdown_Permutation.
  - by rewrite Permutation_app_comm.
  - rewrite length_app. simpl. lia.
Qed.

(** Taking an item from the queue removes that item and nothing else. *)
Lemma heappop_Permutation (heap heap' : list nat) (item : nat) :
  heappop lt heap = Some (item, heap') → heap ≡ₚ item :: heap'.
Proof.
  unfold heappop. destruct (last heap) as [lastelt|] eqn:Hlast; [|done].
  apply last_Some in Hlast as [init ->].
  rewrite length_app. simpl. replace (length init + 1 - 1)%nat with (length init) by lia.
  rewrite take_app_length. destruct init as [|r rest].
  - by intros [= <- <-].
  - intros [= <- <-]. rewrite siftup_Permutation by (simpl; lia).
    simpl. apply Permutation_skip. by rewrite Permutation_app_comm.
Qed.

Lemma heappop_None (heap : list nat) : heappop lt heap = None ↔ heap = [].
Proof.
  unfold heappop. split.
  - destruct (last heap) eqn:Hlast.
    + by destruct (take (length heap - 1) heap).
    + intros _. by apply last_None.
  - by intros ->.
Qed.

End HeapqItems.

(** *** The order of the items *)

(** Arithmetic on the indices of a heap: [(i - 1) // 2] is the parent of
    [i]. *)
Ltac div_lia := zify; Z.div_mod_to_equations; lia.

Section HeapqOrder.

Variable lt : nat → nat → bool.
Variable key : nat → Z.
Variable valid : nat → Prop.
Hypothesis lt_key : ∀ x y, valid x → valid y → lt x y = (key x <? key y).

(** The first item of a heap has the least key. *)
Lemma is_heap_min (heap : list nat) :
  is_heap key heap →
  ∀ i, (i < length heap)%nat → key (heap !!! 0%nat) ≤ key (heap !!! i).
Proof.
  intros Hh i. induction (lt_wf i) as [i _ IH]. intros Hi.
  destruct (decide (i = 0%nat)) as [-> | Hne]; [lia|].
  etrans; [apply (IH ((i - 1) / 2)%nat); div_lia|]. apply Hh. lia.
Qed.

(** Writing [newitem] at [pos] gives a heap when the other items are in
    order and [newitem] fits between the parent and the children of [pos]. *)
Lemma insert_is_heap (heap : list nat) (newitem pos : nat) :
  (pos < length heap)%nat →
  (∀ i, (0 < i < length heap)%nat → i ≠ pos → ((i - 1) / 2)%nat ≠ pos →
        key (heap !!! ((i - 1) / 2)%nat) ≤ key (heap !!! i)) →
  (∀ c, (0 < c < length heap)%nat → ((c - 1) / 2)%nat = pos →
        key newitem ≤ key (heap !!! c)) →
  ((0 < pos)%nat → key (heap !!! ((pos - 1) / 2)%nat) ≤ key newitem) →
  is_heap key (<[pos := newitem]> heap).
Proof.
  intros Hpos H1 H2 H3 i. rewrite length_insert. intros Hi.
  destruct (decide (i = pos)) as [-> | Hne].
  - rewrite list_lookup_total_insert_eq by done.
    rewrite list_lookup_total_insert_ne by div_lia. apply H3. lia.
  - rewrite (list_lookup_total_insert_ne _ pos i) by done.
    destruct (decide (((i - 1) / 2)%nat = pos)) as [He | Hp].
    + rewrite He, list_lookup_total_insert_eq by done. by apply H2.
    + rewrite list_lookup_total_insert_ne by done. by apply H1.
Qed.

(** The loop of [_siftdown] towards the root, from a position [pos] whose
    item is being moved: the items other than the one at [pos] are in
    order, [newitem] is not above the children of [pos], and these are not
    below the parent of [pos]. *)
Lemma siftdown_loop_is_heap (fuel : nat) :
  ∀ (heap : list nat) (newitem pos : nat),
    (pos < length heap)%nat → (pos ≤ fuel)%nat →
    valid newitem → Forall valid heap →
    (∀ i, (0 < i < length heap)%nat → i ≠ pos →
          key (heap !!! ((i - 1) / 2)%nat) ≤ key (heap !!! i)) →
    (∀ c, (0 < c < length heap)%nat → ((c - 1) / 2)%nat = pos →
          key newitem ≤ key (heap !!! c)) →
    (∀ c, (0 < c < length heap)%nat → ((c - 1) / 2)%nat = pos → (0 < pos)%nat →
          key (heap !!! ((pos - 1) / 2)%nat) ≤ key (heap !!! c)) →
    is_heap key (siftdown_loop lt fuel heap newitem 0 pos).
Proof.
  induction fuel as [|fuel IH]; intros heap newitem pos Hpos Hfuel Hv Hvs H1 H2 H3;
    cbn [siftdown_loop].
  - apply insert_is_heap; [done| |done|lia]. intros i Hi Hne _. by apply H1.
  - destruct (0 <? pos)%nat eqn:Hlt.
    + apply Nat.ltb_lt in Hlt.
      remember ((pos - 1) / 2)%nat as pp eqn:Epp.
      assert (Hpp : (pp < pos)%nat) by (subst pp; div_lia).
      assert (Hvp : valid (heap !!! pp)) by (apply Forall_lookup_total; [done|lia]).
      rewrite lt_key by done.
      destruct (Z.ltb_spec (key newitem) (key (heap !!! pp))) as [Hlt'|Hge].
      * apply IH.
        -- rewrite length_insert. lia.
        -- lia.
        -- done.
        -- by apply Forall_insert.
        -- rewrite length_insert. intros i Hi Hne.
           destruct (decide (i = pos)) as [-> | Hip].
           ++ rewrite list_lookup_total_insert_eq by done. rewrite <- Epp.
              rewrite list_lookup_total_insert_ne by lia. lia.
           ++ rewrite (list_lookup_total_insert_ne _ pos i) by done.
              destruct (decide (((i - 1) / 2)%nat = pos)) as [He | Hp].
              ** rewrite He, list_lookup_total_insert_eq by done.
                 by apply H3.
              ** rewrite list_lookup_total_insert_ne by done. by apply H1.
        -- rewrite length_insert. intros c Hc Hcp.
           destruct (decide (c = pos)) as [-> | Hne].
           ++ rewrite list_lookup_total_insert_eq by done. lia.
           ++ rewrite list_lookup_total_insert_ne by done.
              specialize (H1 c Hc Hne). rewrite Hcp in H1. lia.
        -- rewrite length_insert. intros c Hc Hcp Hpp0.
           rewrite (list_lookup_total_insert_ne _ pos ((pp - 1) / 2)%nat)
             by div_lia.
           assert (key (heap !!! ((pp - 1) / 2)%nat) ≤ key (heap !!! pp))
             by (apply H1; lia).
           destruct (decide (c = pos)) as [-> | Hne].
           ++ by rewrite list_lookup_total_insert_eq.
           ++ rewrite list_lookup_total_insert_ne by done.
              specialize (H1 c Hc Hne). rewrite Hcp in H1. lia.
      * apply insert_is_heap; [done| |done|].
        -- intros i Hi Hne _. by apply H1.
        -- intros _. rewrite <- Epp. lia.
    + apply Nat.ltb_ge in Hlt. apply insert_is_heap; [done| |done|lia].
      intros i Hi Hne _. by apply H1.
Qed.

(** The loop of [_siftup], which moves the smaller child up until it
    reaches a leaf: the list it leaves is a heap, and the position it
    returns is a leaf. *)
Lemma siftup_loop_is_heap (fuel : nat) :
  ∀ (heap : list nat) (pos : nat),
    (pos < length heap)%nat → (length heap ≤ fuel + pos)%nat →
    Forall valid heap →
    (∀ i, (0 < i < length heap)%nat → ((i - 1) / 2)%nat ≠ pos →
          key (heap !!! ((i - 1) / 2)%nat) ≤ key (heap !!! i)) →
    (∀ c, (0 < c < length heap)%nat → ((c - 1) / 2)%nat = pos → (0 < pos)%nat →
          key (heap !!! ((pos - 1) / 2)%nat) ≤ key (heap !!! c)) →
    let r := siftup_loop lt fuel heap (length heap) pos in
    length r.1 = length heap ∧ (r.2 < length heap)%nat ∧
    (length heap ≤ 2 * r.2 + 1)%nat ∧ Forall valid r.1 ∧ is_heap key r.1.
Proof.
  induction fuel as [|fuel IH]; intros heap pos Hpos Hfuel Hvs H1 H2;
    cbn [siftup_loop]; [lia|].
  destruct (2 * pos + 1 <? length heap)%nat eqn:Hc.
  - apply Nat.ltb_lt in Hc.
    set (c := if ((2 * pos + 1 + 1 <? length heap)%nat &&
                  negb (lt (heap !!! (2 * pos + 1)%nat)
                           (heap !!! (2 * pos + 1 + 1)%nat)))
              then (2 * pos + 1 + 1)%nat else (2 * pos + 1)%nat).
    assert (Hcl : (pos < c < length heap)%nat ∧ ((c - 1) / 2)%nat = pos ∧
                  ∀ i, (0 < i < length heap)%nat → ((i - 1) / 2)%nat = pos →
                       key (heap !!! c) ≤ key (heap !!! i)).
    { assert (Hvl : valid (heap !!! (2 * pos + 1)%nat))
        by (by apply Forall_lookup_total).
      subst c. destruct (2 * pos + 1 + 1 <? length heap)%nat eqn:Hr;
        cbn [andb].
      - apply Nat.ltb_lt in Hr.
        assert (Hvr : valid (heap !!! (2 * pos + 1 + 1)%nat))
          by (by apply Forall_lookup_total).
        rewrite lt_key by done.
        destruct (Z.ltb_spec (key (heap !!! (2 * pos + 1)%nat))
                    (key (heap !!! (2 * pos + 1 + 1)%nat))) as [Hlt|Hge];
          cbn [negb]; (split; [lia|]); (split; [div_lia|]); intros i Hi Hp;
          (assert (Hi' : i = (2 * pos + 1)%nat ∨ i = (2 * pos + 1 + 1)%nat)
             by div_lia); destruct Hi' as [-> | ->]; lia.
      - apply Nat.ltb_ge in Hr. split; [lia|]. split; [div_lia|].
        intros i Hi Hp. assert (i = (2 * pos + 1)%nat) as -> by div_lia. lia. }
    clearbody c. destruct Hcl as ([Hpc Hcl] & Hcp & Hmin).
    specialize (IH (<[pos := heap !!! c]> heap) c).
    rewrite length_insert in IH. apply IH; clear IH.
    + done.
    + lia.
    + apply Forall_insert; [done|]. by apply Forall_lookup_total.
    + intros i Hi Hne. destruct (decide (i = pos)) as [-> | Hip].
      * rewrite list_lookup_total_insert_eq by done.
        rewrite list_lookup_total_insert_ne by div_lia. apply H2; [lia|done|lia].
      * rewrite (list_lookup_total_insert_ne _ pos i) by done.
        destruct (decide (((i - 1) / 2)%nat = pos)) as [He | Hp].
        -- rewrite He, list_lookup_total_insert_eq by done. by apply Hmin.
        -- rewrite list_lookup_total_insert_ne by done. by apply H1.
    + intros g Hg Hgc _. rewrite Hcp.
      rewrite list_lookup_total_insert_eq by done.
      rewrite list_lookup_total_insert_ne by div_lia.
      rewrite <- Hgc. apply H1; [done|]. rewrite Hgc. lia.
  - apply Nat.ltb_ge in Hc. cbn [fst snd]. split; [done|]. split; [done|].
    split; [lia|]. split; [done|]. intros i Hi. apply H1; [done|div_lia].
Qed.

(** [_siftup] at the root makes a heap of a list that is in order below
    the root. *)
Lemma siftup_is_heap (heap : list nat) :
  (0 < length heap)%nat → Forall valid heap →
  (∀ i, (0 < i < length heap)%nat → ((i - 1) / 2)%nat ≠ 0%nat →
        key (heap !!! ((i - 1) / 2)%nat) ≤ key (heap !!! i)) →
  is_heap key (_siftup lt heap 0).
Proof.
  intros Hlen Hvs H1. unfold _siftup.
  destruct (siftup_loop_is_heap (length heap) heap 0 Hlen) as
    (Hl & Hp & Hleaf & Hvs' & Hh); [lia|done|done|lia|].
  destruct (siftup_loop lt (length heap) heap (length heap) 0) as [h p].
  cbn [fst snd] in *. unfold _siftdown.
  rewrite list_lookup_total_insert_eq by lia.
  apply siftdown_loop_is_heap.
  - rewrite length_insert. lia.
  - done.
  - by apply Forall_lookup_total.
  - apply Forall_insert; [done|]. by apply Forall_lookup_total.
  - rewrite length_insert. intros i Hi Hne.
    rewrite !list_lookup_total_insert_ne by div_lia. apply Hh. lia.
  - rewrite length_insert. intros c Hc Hcp. div_lia.
  - rewrite length_insert. intros c Hc Hcp. div_lia.
Qed.

(** [heappush] keeps the heap in order. *)
Lemma heappush_is_heap (heap : list nat) (item : nat) :
  is_heap key heap → Forall valid heap → valid item →
  is_heap key (heappush lt heap item).
Proof.
  intros Hh Hvs Hv. unfold heappush, _siftdown.
  rewrite list_lookup_total_middle by done.
  apply siftdown_loop_is_heap.
  - rewrite length_app. cbn [length]. lia.
  - done.
  - done.
  - apply Forall_app. split; [done|]. by apply Forall_singleton.
  - rewrite length_app. cbn [length]. intros i Hi Hne.
    rewrite !lookup_total_app_l by div_lia. apply Hh. lia.
  - rewrite length_app. cbn [length]. intros c Hc Hcp. div_lia.
  - rewrite length_app. cbn [length]. intros c Hc Hcp. div_lia.
Qed.

(** [heappop] returns an item of least key and leaves a heap. *)
Lemma heappop_is_heap (heap heap' : list nat) (item : nat) :
  is_heap key heap → Forall valid heap →
  heappop lt heap = Some (item, heap') →
  is_heap key heap' ∧ ∀ x, x ∈ heap' → key item ≤ key x.
Proof.
  intros Hh Hvs Hpop.
  assert (Hmin : ∀ x, x ∈ heap' → key item ≤ key x).
  { pose proof (heappop_Permutation lt heap heap' item Hpop) as Hperm.
    assert (H0 : heap !!! 0%nat = item).
    { revert Hpop. unfold heappop. destruct (last heap) as [lastelt|] eqn:Hlast; [|done].
      apply last_Some in Hlast as [init ->].
      rewrite length_app. cbn [length].
      replace (length init + 1 - 1)%nat with (length init) by lia.
      rewrite take_app_length. destruct init as [|r rest]; by intros [= <- <-]. }
    intros x Hx. assert (Hin : x ∈ heap) by (rewrite Hperm; set_solver).
    apply list_elem_of_lookup_total in Hin as (i & Hi & <-). rewrite <- H0.
    by apply is_heap_min. }
  split; [|done]. revert Hpop. unfold heappop.
  destruct (last heap) as [lastelt|] eqn:Hlast; [|done].
  apply last_Some in Hlast as [init ->].
  rewrite length_app. cbn [length].
  replace (length init + 1 - 1)%nat with (length init) by lia.
  rewrite take_app_length. destruct init as [|r rest].
  - intros [= <- <-]. intros i. cbn [length]. lia.
  - intros [= <- <-]. apply Forall_app in Hvs as [Hvs Hvl].
    apply Forall_cons in Hvs as [_ Hvs]. rewrite Forall_singleton in Hvl.
    apply siftup_is_heap.
    + cbn [length]. lia.
    + by constructor.
    + intros i Hi Hne. cbn [length] in Hi.
      assert (Hp : ∃ j, ((i - 1) / 2)%nat = S j)
        by (exists (((i - 1) / 2) - 1)%nat; lia).
      destruct Hp as [j Hj]. destruct i as [|i]; [lia|].
      specialize (Hh (S i)). rewrite length_app in Hh. cbn [length] in Hh.
      rewrite Hj in *.
      change (key (rest !!! j) ≤ key (rest !!! i)).
      change (((r :: rest) ++ [lastelt]) !!! S j)
        with ((rest ++ [lastelt]) !!! j) in Hh.
      change (((r :: rest) ++ [lastelt]) !!! S i)
        with ((rest ++ [lastelt]) !!! i) in Hh.
      rewrite !lookup_total_app_l in Hh by div_lia. apply Hh. lia.
Qed.

End HeapqOrder.

(** ** Well-formed states *)

Lemma deref_cons (objs : list BatchJob) (a : nat) (js : list nat) :
  deref objs (a :: js) =
    match objs !! a with
    | Some job => job :: deref objs js
    | None => deref objs js
    end.
Proof. done. Qed.

Lemma deref_valid (objs : list BatchJob) (js : list nat) :
  (∀ a, a ∈ js → is_Some (objs !! a)) →
  length (deref objs js) = length js.
Proof.
  induction js as [|a js IH]; intros H; [done|].
  rewrite deref_cons. destruct (H a) as [job ->]; [apply elem_of_cons; by left|].
  simpl. f_equal. apply IH. intros a' Ha'. apply H, elem_of_cons. by right.
Qed.

Lemma deref_Forall (P : BatchJob → Prop) (objs : list BatchJob) (js : list nat) :
  Forall P (deref objs js) ↔ ∀ a job, a ∈ js → objs !! a = Some job → P job.
Proof.
  induction js as [|a js IH].
  - split; [intros _ a job Ha; by apply not_elem_of_nil in Ha | constructor].
  - rewrite deref_cons. destruct (objs !! a) as [job|] eqn:Hj.
    + rewrite Forall_cons, IH. split.
      * intros [Hp Hrest] a' job' [->|Ha']%elem_of_cons Hl; [congruence|eauto].
      * intros H. split; [apply (H a); [apply elem_of_cons; by left|done]|].
        intros a' job' Ha'. apply H, elem_of_cons. by right.
    + rewrite IH. split.
      * intros H a' job' [->|Ha']%elem_of_cons Hl; [congruence|eauto].
      * intros H a' job' Ha'. apply H, elem_of_cons. by right.
Qed.

Lemma deref_app_seq (objs new : list BatchJob) :
  deref (objs ++ new) (seq (length objs) (length new)) = new.
Proof.
  revert objs. induction new as [|job new IH]; intros objs; [done|].
  change (seq (length objs) (length (job :: new)))
    with (length objs :: seq (S (length objs)) (length new)).
  rewrite deref_cons, lookup_app_r, Nat.sub_diag by done.
  change ((job :: new) !! 0%nat) with (Some job).
  f_equal. specialize (IH (objs ++ [job])).
  rewrite length_app, <- app_assoc in IH. cbn [length app] in IH.
  by rewrite Nat.add_1_r in IH.
Qed.

(** The count of a status over the jobs of a batch depends on the objects
    only through which of them have that status. *)
Lemma count_status_deref_ext (st : JobStatus) (objs objs' : list BatchJob)
    (js : list nat) :
  (∀ a, a ∈ js →
        ∃ job job', objs !! a = Some job ∧ objs' !! a = Some job' ∧
                    (job_status job' = st ↔ job_status job = st)) →
  count_status st (deref objs' js) = count_status st (deref objs js).
Proof.
  induction js as [|a js IH]; intros H; [done|].
  destruct (H a) as (job & job' & Hj & Hj' & Hst); [apply elem_of_cons; by left|].
  rewrite !deref_cons, Hj, Hj', !count_status_cons, IH.
  - destruct (decide (job_status job' = st)), (decide (job_status job = st));
      tauto.
  - intros a' Ha'. apply H, elem_of_cons. by right.
Qed.

Lemma same_counted_refl (job : BatchJob) : same_counted job job.
Proof. by repeat split. Qed.

Lemma batch_well_formed_ext (objs objs' : list BatchJob) (bid : string)
    (b b' : BatchRequest nat) :
  batch_well_formed objs bid b →
  jobs b' = jobs b → total_jobs b' = total_jobs b →
  completed_jobs b' = completed_jobs b → failed_jobs b' = failed_jobs b →
  (∀ a job, a ∈ jobs b → objs !! a = Some job →
            ∃ job', objs' !! a = Some job' ∧ same_counted job job') →
  batch_well_formed objs' bid b'.
Proof.
  intros (Htot & Hjobs & Hc & Hf) Ej Et Ec Ef Hext.
  unfold batch_well_formed. rewrite Ej, Et, Ec, Ef.
  split; [done|]. split; [|split].
  - intros a Ha. destruct (Hjobs a Ha) as (job & Hj & Hid).
    destruct (Hext a job Ha Hj) as (job' & Hj' & Hid' & _).
    exists job'. split; [done|]. by rewrite Hid'.
  - rewrite Hc. symmetry. apply count_status_deref_ext. intros a Ha.
    destruct (Hjobs a Ha) as (job & Hj & _).
    destruct (Hext a job Ha Hj) as (job' & Hj' & _ & Hcs & _). eauto.
  - rewrite Hf. symmetry. apply count_status_deref_ext. intros a Ha.
    destruct (Hjobs a Ha) as (job & Hj & _).
    destruct (Hext a job Ha Hj) as (job' & Hj' & _ & _ & Hfs). eauto.
Qed.

(** The aggregator restores the agreement of the counters with the
    objects, whatever the counters were. *)
Lemma batch_well_formed_aggregate (objs objs' : list BatchJob) (bid : string)
    (b : BatchRequest nat) :
  batch_well_formed objs bid b →
  (∀ a job, a ∈ jobs b → objs !! a = Some job →
            ∃ job', objs' !! a = Some job' ∧ job_id job' = job_id job) →
  batch_well_formed objs' bid (aggregate (deref objs' (jobs b)) b).
Proof.
  intros (Htot & Hjobs & _) Hext.
  destruct (aggregate_counts (deref objs' (jobs b)) b) as (Hc & Hf & Ht & Hj & _).
  unfold batch_well_formed. rewrite Hc, Hf, Ht, Hj.
  split; [done|]. split; [|done].
  intros a Ha. destruct (Hjobs a Ha) as (job & Hjob & Hid).
  destruct (Hext a job Ha Hjob) as (job' & Hj' & Hid').
  exists job'. split; [done|]. by rewrite Hid'.
Qed.

Lemma well_formed_init (workers : Z) : well_formed (empty_service workers None).
Proof.
  split; [|split].
  - intros bid b H. simpl in H. by rewrite lookup_empty in H.
  - split; [constructor|]. intros a Ha. by apply not_elem_of_nil in Ha.
  - by intros a H.
Qed.

(** *** Submission keeps states well formed *)

Lemma enqueue_jobs_queue bid kind p clock requests :
  ∀ i objs queue js,
    (enqueue_jobs bid kind p clock i requests objs queue js).1.2
    ≡ₚ queue ++ seq (length objs) (length requests).
Proof.
  induction requests as [|r rest IH]; intros i objs queue js;
    cbn [enqueue_jobs length seq].
  - by rewrite app_nil_r.
  - rewrite IH, heappush_Permutation, length_app. cbn [length].
    rewrite Nat.add_1_r. by rewrite <- Permutation_middle.
Qed.

Lemma create_batch_queue kind label uuid clock requests name p s :
  let s' := (create_batch kind label uuid clock requests name p s).1 in
  job_queue s' ≡ₚ job_queue s ++ seq (length (objects s)) (length requests) ∧
  current s' = current s.
Proof.
  unfold create_batch.
  set (nc := match name with
             | Some n =>
               if String.eqb n "" then (label +:+ strftime_compact (clock 0%nat),
                                        fun k => clock (S k))
               else (n, clock)
             | None => (label +:+ strftime_compact (clock 0%nat),
                        fun k => clock (S k))
             end).
  destruct nc as [name' clock'].
  pose proof (enqueue_jobs_queue (uuid_str uuid) kind p clock' requests 0%nat
                (objects s) (job_queue s) []) as Hq.
  destruct (enqueue_jobs (uuid_str uuid) kind p clock' 0 requests (objects s)
              (job_queue s) []) as [[objs queue] js].
  by split.
Qed.

Lemma created_jobs_count bid kind p clock requests (st : JobStatus) :
  st ≠ PENDING →
  ∀ i, count_status st (created_jobs bid kind p clock i requests) = 0.
Proof.
  intros Hst. induction requests as [|r rest IH]; intros i; [done|].
  cbn [created_jobs]. rewrite count_status_cons, IH.
  by rewrite decide_False.
Qed.

Lemma well_formed_create kind label uuid clock requests name p s :
  well_formed s →
  well_formed (create_batch kind label uuid clock requests name p s).1.
Proof.
  intros (Hb & (Hnd & Hq) & Hc).
  destruct (create_batch_spec kind label uuid clock requests name p s)
    as (name' & clock' & est & _ & Hobj & Htab & _).
  destruct (create_batch_queue kind label uuid clock requests name p s)
    as (Hqueue & Hcur).
  cbn zeta in *.
  set (s' := (create_batch kind label uuid clock requests name p s).1) in *.
  set (new := created_jobs (uuid_str uuid) kind p clock' 0 requests) in *.
  assert (Hold : ∀ a job, objects s !! a = Some job → objects s' !! a = Some job).
  { intros a job Ha. rewrite Hobj. rewrite lookup_app_l; [done|].
    by eapply lookup_lt_Some. }
  assert (Hlen : length new = length requests) by apply created_jobs_length.
  split; [|split].
  - intros bid b. rewrite Htab. intros Hl.
    apply lookup_insert_Some in Hl as [[<- <-]|[Hne Hl]].
    + unfold batch_well_formed. cbn [total_jobs jobs completed_jobs failed_jobs].
      rewrite length_seq. split; [done|].
      rewrite Hobj, <- Hlen, deref_app_seq.
      split; [|by unfold new; rewrite !created_jobs_count].
      intros a Ha. apply list_elem_of_In, in_seq in Ha.
      destruct (new !! (a - length (objects s))%nat) as [job|] eqn:Hjob.
      * exists job. rewrite lookup_app_r by lia. split; [done|].
        apply created_jobs_lookup in Hjob as (-> & _).
        apply split_head_job_id, no_underscore_uuid.
      * apply lookup_ge_None in Hjob. lia.
    + apply (batch_well_formed_ext (objects s) _ bid b b); try done;
        [by apply Hb|].
      intros a job _ Ha. exists job. split; [by apply Hold|apply same_counted_refl].
  - split.
    + rewrite Hqueue. apply NoDup_app. split; [done|]. split; [|apply NoDup_seq].
      intros a Ha Hnew. apply list_elem_of_In, in_seq in Hnew.
      destruct (Hq a Ha) as (_ & job & Hj & _). apply lookup_lt_Some in Hj. lia.
    + intros a. rewrite Hqueue, Hcur. intros [Ha|Ha]%elem_of_app.
      * destruct (Hq a Ha) as (Hne & job & Hj & Hst). split; [done|]. eauto.
      * apply list_elem_of_In, in_seq in Ha. split.
        -- intros Hcura. destruct (Hc a Hcura) as (job & Hj & _).
           apply lookup_lt_Some in Hj. lia.
        -- destruct (new !! (a - length (objects s))%nat) as [job|] eqn:Hjob.
           ++ exists job. rewrite Hobj, lookup_app_r by lia. split; [done|].
              apply created_jobs_lookup in Hjob as (_ & -> & _). by left.
           ++ apply lookup_ge_None in Hjob. lia.
  - intros a. rewrite Hcur. intros Ha.
    destruct (Hc a Ha) as (job & Hj & Hst). eauto.
Qed.

(** *** The worker keeps states well formed *)

(** Reading a field of a state built with the field assignments. *)
Ltac simpl_state :=
  unfold _save_persistent_data;
  cbn [max_workers objects job_queue current active_jobs finished_jobs
       batch_requests stats disk set_objects set_job_queue set_current
       set_active_jobs set_finished_jobs set_batch_requests set_stats set_disk
       fst snd] in *.

Lemma begin_job_spec (now : datetime) (a : nat) (s : Service) (job : BatchJob) :
  objects s !! a = Some job →
  begin_job now a s =
    set_current (Some a)
      (set_active_jobs (<[job_id job := a]> (active_jobs s))
        (set_objects
           (<[a := set_started_at (Some now) (set_status PROCESSING job)]>
              (objects s)) s)).
Proof. intros H. unfold begin_job. by rewrite H. Qed.

Lemma well_formed_take (now : datetime) (s : Service) :
  well_formed s → well_formed (take_job now s).1.
Proof.
  intros (Hb & (Hnd & Hq) & Hc). unfold take_job.
  destruct (heappop (lt_at (objects s)) (job_queue s)) as [[a queue]|] eqn:Hpop;
    [|done].
  apply heappop_Permutation in Hpop.
  assert (Hnd' : NoDup (a :: queue)) by by rewrite <- Hpop.
  apply NoDup_cons in Hnd' as [Hnotin Hnd'].
  assert (Hin : ∀ a', a' ∈ queue → a' ∈ job_queue s).
  { intros a' Ha'. rewrite Hpop. apply elem_of_cons. by right. }
  destruct (Hq a) as (Hcur & job & Hjob & Hst);
    [rewrite Hpop; apply elem_of_cons; by left|].
  cbn [objects set_job_queue]. rewrite Hjob.
  destruct (decide (job_status job = CANCELLED)) as [Hcan|Hcan]; cbn [fst].
  - split; [done|]. split; [|done]. split; [done|].
    intros a' Ha'. by apply Hq, Hin.
  - destruct Hst as [Hpend|?]; [|done].
    rewrite (begin_job_spec now a _ job) by done.
    unfold well_formed, queue_well_formed, current_well_formed. simpl_state.
    split; [|split].
    + intros bid b Hl. apply (batch_well_formed_ext (objects s) _ bid b b);
        try done; [by apply Hb|].
      intros a' job' _ Hj'. destruct (decide (a' = a)) as [->|Hne].
      * rewrite list_lookup_insert_eq by (by eapply lookup_lt_Some).
        eexists. split; [done|]. assert (job' = job) as -> by congruence.
        repeat split; cbn; rewrite ?Hpend; done.
      * rewrite list_lookup_insert_ne by done. exists job'.
        split; [done|apply same_counted_refl].
    + split; [done|]. intros a' Ha'.
      assert (a' ≠ a) by (intros ->; done).
      split; [congruence|].
      rewrite list_lookup_insert_ne by done. by apply Hq, Hin.
    + intros a' [= <-]. rewrite list_lookup_insert_eq by (by eapply lookup_lt_Some).
      by eexists.
Qed.

Lemma conclude_spec (o : outcome) (now : datetime) (a : nat) (job : BatchJob)
    (s : Service) :
  ∃ job',
    job_id job' = job_id job ∧
    objects (conclude o now a job s) = <[a := job']> (objects s) ∧
    batch_requests (conclude o now a job s) = batch_requests s ∧
    current (conclude o now a job s) = current s ∧
    ((job_status job' = PENDING ∧
      job_queue (conclude o now a job s)
      = heappush (lt_at (<[a := job']> (objects s))) (job_queue s) a) ∨
     ((job_status job' = COMPLETED ∨ job_status job' = FAILED) ∧
      job_queue (conclude o now a job s) = job_queue s)).
Proof.
  unfold conclude. destruct o as [r|msg].
  - exists (complete_job now r job). simpl_state. repeat split; try done.
    right. split; [by left|done].
  - destruct (retry_count (fail_job now msg job) <? max_retries (fail_job now msg job)).
    + exists (retry_job (fail_job now msg job)). simpl_state.
      repeat split; try done. by left.
    + exists (fail_job now msg job). simpl_state. repeat split; try done.
      right. split; [by right|done].
Qed.

(** What the end of [_process_job] does to the state: the job object is
    overwritten, the batch its id points to is recomputed, and the job goes
    back on the queue exactly when it is Pending again. *)
Lemma finish_job_spec (o : outcome) (now : datetime) (s : Service) (a : nat)
    (job : BatchJob) :
  current s = Some a → objects s !! a = Some job →
  ∃ job',
    job_id job' = job_id job ∧
    objects (finish_job o now s) = <[a := job']> (objects s) ∧
    current (finish_job o now s) = None ∧
    batch_requests (finish_job o now s) =
      match batch_requests s !! split_head (job_id job) with
      | Some b =>
        <[split_head (job_id job) :=
            aggregate (deref (<[a := job']> (objects s)) (jobs b)) b]>
          (batch_requests s)
      | None => batch_requests s
      end ∧
    ((job_status job' = PENDING ∧
      job_queue (finish_job o now s)
      = heappush (lt_at (<[a := job']> (objects s))) (job_queue s) a) ∨
     ((job_status job' = COMPLETED ∨ job_status job' = FAILED) ∧
      job_queue (finish_job o now s) = job_queue s)).
Proof.
  intros Hcur Hjob. unfold finish_job. rewrite Hcur, Hjob.
  destruct (conclude_spec o now a job s) as (job' & Hid & Hobj & Htab & _ & Hq).
  exists job'. split; [done|].
  assert (Hl : <[a := job']> (objects s) !! a = Some job')
    by (apply list_lookup_insert_eq; by eapply lookup_lt_Some).
  unfold _update_batch_status. simpl_state. rewrite Hobj, Hl, Hid, Htab.
  destruct (batch_requests s !! split_head (job_id job)) as [b|]; simpl_state;
    rewrite ?Hobj; repeat split; done.
Qed.

Lemma well_formed_finish (o : outcome) (now : datetime) (s : Service) :
  well_formed s → well_formed (finish_job o now s).
Proof.
  intros Hwf. destruct (current s) as [a|] eqn:Hcur;
    [|unfold finish_job; by rewrite Hcur].
  destruct Hwf as (Hb & (Hnd & Hq) & Hc).
  destruct (Hc a Hcur) as (job & Hjob & Hproc).
  destruct (finish_job_spec o now s a job Hcur Hjob)
    as (job' & Hid & Hobj & Hcur' & Htab & Hqueue).
  assert (Hnotq : a ∉ job_queue s).
  { intros Ha. by destruct (Hq a Ha) as (Hne & _). }
  assert (Hother : ∀ a' x, a' ≠ a → objects s !! a' = Some x →
                           objects (finish_job o now s) !! a' = Some x).
  { intros a' x Hne Hx. by rewrite Hobj, list_lookup_insert_ne. }
  assert (Hself : objects (finish_job o now s) !! a = Some job').
  { rewrite Hobj. apply list_lookup_insert_eq. by eapply lookup_lt_Some. }
  assert (Hkey : ∀ bid b, batch_requests s !! bid = Some b → a ∈ jobs b →
                          bid = split_head (job_id job)).
  { intros bid b Hl Ha. destruct (Hb bid b Hl) as (_ & Hjobs & _).
    destruct (Hjobs a Ha) as (x & Hx & <-). congruence. }
  split; [|split].
  - intros bid b'. rewrite Htab. intros Hl.
    destruct (batch_requests s !! split_head (job_id job)) as [b|] eqn:Hbid.
    + apply lookup_insert_Some in Hl as [[<- <-]|[Hne Hl]].
      * rewrite <- Hobj. apply (batch_well_formed_aggregate (objects s));
          [by apply Hb|].
        intros a' x _ Hx. destruct (decide (a' = a)) as [->|Hne].
        -- exists job'. split; [done|]. congruence.
        -- exists x. split; [by apply Hother|done].
      * apply (batch_well_formed_ext (objects s) _ bid b' b'); try done;
          [by apply Hb|].
        intros a' x Ha' Hx. exists x. split; [|apply same_counted_refl].
        apply Hother; [|done]. intros ->. by apply Hne, eq_sym, (Hkey bid b').
    + apply (batch_well_formed_ext (objects s) _ bid b' b'); try done;
        [by apply Hb|].
      intros a' x Ha' Hx. exists x. split; [|apply same_counted_refl].
      apply Hother; [|done]. intros ->.
      rewrite <- (Hkey bid b' Hl Ha') in Hbid. congruence.
  - unfold queue_well_formed. rewrite Hcur'.
    destruct Hqueue as [[Hpend ->]|[Hdone ->]].
    + split.
      * rewrite heappush_Permutation. by apply NoDup_cons.
      * intros a'. rewrite heappush_Permutation.
        intros [->|Ha']%elem_of_cons; (split; [done|]).
        -- exists job'. split; [done|by left].
        -- destruct (Hq a' Ha') as (_ & x & Hx & Hst). exists x.
           split; [|done]. apply Hother; [|done]. by intros ->.
    + split; [done|]. intros a' Ha'. split; [done|].
      destruct (Hq a' Ha') as (_ & x & Hx & Hst). exists x.
      split; [|done]. apply Hother; [|done]. by intros ->.
  - intros a'. by rewrite Hcur'.
Qed.

(** *** Cancellation and cleanup keep states well formed *)

Lemma well_formed_cancel (bid : string) (s : Service) :
  well_formed s → well_formed (cancel_batch bid s).1.
Proof.
  intros Hwf.
  destruct (batch_requests s !! bid) as [b|] eqn:Hbid;
    [|by rewrite cancel_batch_missing].
  assert (Hobj : ∀ a, objects (cancel_batch bid s).1 !! a =
           (fun job => if decide (a ∈ jobs b ∧ job_status job = PENDING)
                       then set_status CANCELLED job else job)
           <$> objects s !! a).
  { intros a. rewrite (cancel_batch_found bid s b Hbid). apply cancel_jobs_lookup. }
  assert (Hqueue : job_queue (cancel_batch bid s).1 = job_queue s)
    by by rewrite (cancel_batch_found bid s b Hbid).
  assert (Hcur : current (cancel_batch bid s).1 = current s)
    by by rewrite (cancel_batch_found bid s b Hbid).
  assert (Htab : batch_requests (cancel_batch bid s).1
                 = <[bid := set_batch_status CANCELLED b]> (batch_requests s))
    by by rewrite (cancel_batch_found bid s b Hbid).
  destruct Hwf as (Hb & (Hnd & Hq) & Hc).
  assert (Hext : ∀ a job, objects s !! a = Some job →
            ∃ job', objects (cancel_batch bid s).1 !! a = Some job' ∧
                    same_counted job job' ∧
                    (job_status job ≠ PENDING → job' = job) ∧
                    (job_status job' = job_status job ∨
                     job_status job' = CANCELLED)).
  { intros a job Hj. rewrite Hobj, Hj. cbn [fmap option_fmap option_map].
    destruct (decide (a ∈ jobs b ∧ job_status job = PENDING)) as [[_ Hp]|_].
    - eexists. split; [done|]. split; [|split; [done|by right]].
      repeat split; cbn; rewrite ?Hp; done.
    - exists job. split; [done|]. split; [apply same_counted_refl|].
      split; [done|by left]. }
  split; [|split].
  - intros k b'. rewrite Htab. intros Hl.
    apply lookup_insert_Some in Hl as [[<- <-]|[Hne Hl]].
    + apply (batch_well_formed_ext (objects s) _ bid b); try done;
        [by apply Hb|].
      intros a job _ Hj. destruct (Hext a job Hj) as (job' & ? & ? & _). eauto.
    + apply (batch_well_formed_ext (objects s) _ k b' b'); try done;
        [by apply Hb|].
      intros a job _ Hj. destruct (Hext a job Hj) as (job' & ? & ? & _). eauto.
  - unfold queue_well_formed. rewrite Hqueue, Hcur. split; [done|].
    intros a Ha. destruct (Hq a Ha) as (Hne & job & Hj & Hst).
    split; [done|]. destruct (Hext a job Hj) as (job' & Hj' & _ & _ & Hst').
    exists job'. split; [done|]. destruct Hst' as [-> | ->]; [done|by right].
  - intros a. rewrite Hcur. intros Ha. destruct (Hc a Ha) as (job & Hj & Hst).
    destruct (Hext a job Hj) as (job' & Hj' & _ & Hsame & _).
    exists job'. split; [done|]. rewrite Hsame; [done|]. by rewrite Hst.
Qed.

Lemma well_formed_cleanup (clock : nat → datetime) (days_old : Z) (s : Service) :
  well_formed s → well_formed (cleanup_old_batches clock days_old s).1.
Proof.
  intros (Hb & Hq & Hc). unfold cleanup_old_batches.
  destruct (dt_sub_days (clock 0%nat) days_old) as [cutoff|]; [|done].
  assert (Hsub : ∀ bid b,
    filter (fun kb : string * BatchRequest nat => removable cutoff kb.2 = false)
      (batch_requests s) !! bid = Some b →
    batch_well_formed (objects s) bid b).
  { intros bid b Hl. apply map_lookup_filter_Some_1_1 in Hl. by apply Hb. }
  destruct (dt_sub_days (clock 1%nat) days_old); by simpl_state.
Qed.

(** Every transition keeps the state well formed, so every reachable state
    is. *)
Lemma well_formed_step (s s' : Service) :
  well_formed s → step s s' → well_formed s'.
Proof.
  intros Hwf Hstep. destruct Hstep.
  - by apply well_formed_create.
  - by apply well_formed_create.
  - by apply well_formed_create.
  - by apply well_formed_take.
  - by apply well_formed_finish.
  - by apply well_formed_cancel.
  - by apply well_formed_cleanup.
Qed.

Lemma well_formed_rtc (s s' : Service) :
  well_formed s → rtc step s s' → well_formed s'.
Proof. intros Hwf H. induction H; eauto using well_formed_step. Qed.

Lemma reachable_well_formed (s : Service) : reachable s → well_formed s.
Proof.
  intros [w H]. eapply well_formed_rtc; [apply well_formed_init|done].
Qed.

(** ** The queue is a heap *)

(** On addresses that hold a job, the order of the queue is the order of
    the priority values. *)
Lemma lt_at_priority (objs : list BatchJob) (x y : nat) :
  is_Some (objs !! x) → is_Some (objs !! y) →
  lt_at objs x y = (priority_at objs x <? priority_at objs y).
Proof. intros [jx Hx] [jy Hy]. unfold lt_at, priority_at. by rewrite Hx, Hy. Qed.

(** Whether a list is a heap depends on the keys of its items only. *)
Lemma is_heap_ext (key key' : nat → Z) (heap : list nat) :
  (∀ a, a ∈ heap → key' a = key a) → is_heap key heap → is_heap key' heap.
Proof.
  intros Hext Hh i Hi.
  rewrite !Hext by (apply list_elem_of_lookup_total_2; div_lia). by apply Hh.
Qed.

Lemma priority_at_insert_ne (objs : list BatchJob) (a a' : nat) (job : BatchJob) :
  a' ≠ a → priority_at (<[a := job]> objs) a' = priority_at objs a'.
Proof. intros Hne. unfold priority_at. by rewrite list_lookup_insert_ne. Qed.

Lemma priority_at_app (objs more : list BatchJob) (a : nat) :
  is_Some (objs !! a) → priority_at (objs ++ more) a = priority_at objs a.
Proof.
  intros [job Hjob]. unfold priority_at.
  by rewrite lookup_app_l by (by eapply lookup_lt_Some).
Qed.

(** Each transition leaves the queue a heap: a submission pushes new
    jobs, the worker pops a job and may push it back with a new priority
    while it is off the queue, and a cancellation changes no priority. *)
Lemma enqueue_jobs_is_heap bid kind p clock requests :
  ∀ i objs queue js,
    is_heap (priority_at objs) queue →
    Forall (fun a => is_Some (objs !! a)) queue →
    let r := enqueue_jobs bid kind p clock i requests objs queue js in
    is_heap (priority_at r.1.1) r.1.2.
Proof.
  induction requests as [|request rest IH]; intros i objs queue js Hh Hv;
    cbn [enqueue_jobs]; [done|].
  set (job := new_job (make_job_id bid kind i) kind request p PENDING (clock i)).
  assert (Hv' : Forall (fun a => is_Some ((objs ++ [job]) !! a)) queue).
  { eapply Forall_impl; [exact Hv|]. intros a [x Hx]. exists x.
    rewrite lookup_app_l; [done|]. by eapply lookup_lt_Some. }
  assert (Hnew : is_Some ((objs ++ [job]) !! length objs)).
  { exists job. by rewrite list_lookup_middle. }
  apply IH.
  - apply (heappush_is_heap _ _ (fun a => is_Some ((objs ++ [job]) !! a)));
      [apply lt_at_priority| |done|done].
    apply (is_heap_ext (priority_at objs)); [|done].
    intros a Ha. apply priority_at_app. by rewrite Forall_forall in Hv; apply Hv.
  - rewrite (heappush_Permutation (lt_at (objs ++ [job])) queue (length objs)).
    by constructor.
Qed.

Lemma queue_is_heap_create kind label uuid clock requests name p s :
  well_formed s → queue_is_heap s →
  queue_is_heap (create_batch kind label uuid clock requests name p s).1.
Proof.
  intros (_ & (_ & Hq) & _) Hh. unfold create_batch.
  set (nc := match name with
             | Some n =>
               if String.eqb n "" then (label +:+ strftime_compact (clock 0%nat),
                                        fun k => clock (S k))
               else (n, clock)
             | None => (label +:+ strftime_compact (clock 0%nat),
                        fun k => clock (S k))
             end).
  destruct nc as [name' clock'].
  pose proof (enqueue_jobs_is_heap (uuid_str uuid) kind p clock' requests 0%nat
                (objects s) (job_queue s) [] Hh) as He.
  destruct (enqueue_jobs (uuid_str uuid) kind p clock' 0 requests (objects s)
              (job_queue s) []) as [[objs queue] js].
  unfold queue_is_heap. simpl_state. apply He.
  apply Forall_forall. intros a Ha. destruct (Hq a Ha) as (_ & job & -> & _).
  by eexists.
Qed.

Lemma queue_is_heap_take (now : datetime) (s : Service) :
  well_formed s → queue_is_heap s → queue_is_heap (take_job now s).1.
Proof.
  intros (_ & (Hnd & Hq) & _) Hh. unfold take_job.
  destruct (heappop (lt_at (objects s)) (job_queue s)) as [[a queue]|] eqn:Hpop;
    [|done].
  assert (Hv : Forall (fun a => is_Some (objects s !! a)) (job_queue s)).
  { apply Forall_forall. intros a' Ha'. destruct (Hq a' Ha') as (_ & job & -> & _).
    by eexists. }
  destruct (heappop_is_heap _ _ _ (lt_at_priority (objects s)) _ _ _ Hh Hv Hpop)
    as [Hh' _].
  apply heappop_Permutation in Hpop.
  assert (Hnd' : NoDup (a :: queue)) by by rewrite <- Hpop.
  apply NoDup_cons in Hnd' as [Hnotin _].
  simpl_state. destruct (objects s !! a) as [job|] eqn:Hjob; [|done].
  destruct (decide (job_status job = CANCELLED)); [done|].
  rewrite (begin_job_spec now a _ job) by done.
  unfold queue_is_heap. simpl_state.
  apply (is_heap_ext (priority_at (objects s))); [|done].
  intros a' Ha'. apply priority_at_insert_ne. by intros ->.
Qed.

Lemma queue_is_heap_finish (o : outcome) (now : datetime) (s : Service) :
  well_formed s → queue_is_heap s → queue_is_heap (finish_job o now s).
Proof.
  intros Hwf Hh. destruct (current s) as [a|] eqn:Hcur;
    [|unfold finish_job; by rewrite Hcur].
  destruct Hwf as (_ & (Hnd & Hq) & Hc).
  destruct (Hc a Hcur) as (job & Hjob & Hproc).
  destruct (finish_job_spec o now s a job Hcur Hjob)
    as (job' & _ & Hobj & _ & _ & Hqueue).
  assert (Hnotq : a ∉ job_queue s).
  { intros Ha. by destruct (Hq a Ha) as (Hne & _). }
  assert (Hh' : is_heap (priority_at (<[a := job']> (objects s))) (job_queue s)).
  { apply (is_heap_ext (priority_at (objects s))); [|done].
    intros a' Ha'. apply priority_at_insert_ne. by intros ->. }
  unfold queue_is_heap. rewrite Hobj.
  destruct Hqueue as [[_ ->]|[_ ->]]; [|done].
  apply (heappush_is_heap _ _
           (fun x => is_Some (<[a := job']> (objects s) !! x)));
    [apply lt_at_priority|done| |].
  - apply Forall_forall. intros a' Ha'.
    destruct (Hq a' Ha') as (_ & x & Hx & _). exists x.
    rewrite list_lookup_insert_ne; [done|]. by intros ->.
  - exists job'. apply list_lookup_insert_eq. by eapply lookup_lt_Some.
Qed.

Lemma queue_is_heap_cancel (bid : string) (s : Service) :
  queue_is_heap s → queue_is_heap (cancel_batch bid s).1.
Proof.
  intros Hh. destruct (batch_requests s !! bid) as [b|] eqn:Hb.
  - rewrite (cancel_batch_found bid s b Hb). unfold queue_is_heap. simpl_state.
    apply (is_heap_ext (priority_at (objects s))); [|done].
    intros a _. unfold priority_at. rewrite cancel_jobs_lookup.
    destruct (objects s !! a) as [job|]; [|done].
    cbn [fmap option_fmap option_map]. by case_decide.
  - by rewrite cancel_batch_missing.
Qed.

Lemma queue_is_heap_step (s s' : Service) :
  well_formed s → queue_is_heap s → step s s' → queue_is_heap s'.
Proof.
  intros Hwf Hh Hstep. destruct Hstep.
  - by apply queue_is_heap_create.
  - by apply queue_is_heap_create.
  - by apply queue_is_heap_create.
  - by apply queue_is_heap_take.
  - by apply queue_is_heap_finish.
  - by apply queue_is_heap_cancel.
  - unfold queue_is_heap.
    by destruct (cleanup_old_batches_objects clock days_old s) as (-> & -> & _).
Qed.

Lemma queue_is_heap_rtc (s s' : Service) :
  well_formed s → queue_is_heap s → rtc step s s' → queue_is_heap s'.
Proof.
  intros Hwf Hh H. induction H as [|s1 s2 s3 Hstep _ IH]; [done|].
  apply IH; [by eapply well_formed_step|by eapply queue_is_heap_step].
Qed.

Lemma reachable_queue_is_heap (s : Service) : reachable s → queue_is_heap s.
Proof.
  intros [w H]. eapply queue_is_heap_rtc; [apply well_formed_init| |done].
  intros i. cbn. lia.
Qed.

(** The job the worker loop takes from the queue of a reachable state has
    the least priority value of the jobs on the queue. *)
Lemma heappop_least_priority (s : Service) (a : nat) (queue : list nat) :
  reachable s →
  heappop (lt_at (objects s)) (job_queue s) = Some (a, queue) →
  ∃ job,
    objects s !! a = Some job ∧
    ∀ a', a' ∈ queue →
      ∃ job', objects s !! a' = Some job' ∧ job_lt job' job = false.
Proof.
  intros Hreach Hpop.
  pose proof (reachable_queue_is_heap s Hreach) as Hh.
  destruct (reachable_well_formed s Hreach) as (_ & (_ & Hq) & _).
  assert (Hv : Forall (fun a => is_Some (objects s !! a)) (job_queue s)).
  { apply Forall_forall. intros a' Ha'. destruct (Hq a' Ha') as (_ & job & -> & _).
    by eexists. }
  destruct (heappop_is_heap _ _ _ (lt_at_priority (objects s)) _ _ _ Hh Hv Hpop)
    as [_ Hmin].
  apply heappop_Permutation in Hpop.
  destruct (Hq a) as (_ & job & Hjob & _);
    [rewrite Hpop; apply elem_of_cons; by left|].
  exists job. split; [done|]. intros a' Ha'.
  destruct (Hq a') as (_ & job' & Hjob' & _);
    [rewrite Hpop; apply elem_of_cons; by right|].
  exists job'. split; [done|]. specialize (Hmin a' Ha').
  unfold priority_at in Hmin. rewrite Hjob, Hjob' in Hmin.
  unfold job_lt. by apply Z.ltb_ge.
Qed.

Lemma reachable_mixed_priorities : reachable mixed_priorities.
Proof.
  unfold mixed_priorities. cbn zeta.
  repeat (eapply reachable_step; [|apply step_create_audio]).
  apply reachable_init.
Qed.

(** Jobs put on the queue at the priorities Low, Urgent and Medium are run
    in the order Urgent, Medium, Low. *)
Example dispatch_by_priority :
  job_queue mixed_priorities = [1; 0; 2]%nat ∧
  priority <$> objects mixed_priorities = [LOW; URGENT; MEDIUM] ∧
  (run_worker 3 succeeding morning mixed_priorities).2
  = [Ran 1; Ran 2; Ran 0]%nat.
Proof. by vm_compute. Qed.

(** C2 (as amended). The relation the priority queue applies to two jobs,
    [BatchJob.__lt__], looks at the priority value only: it orders [x]
    before [y] exactly when the priority value of [x] is smaller, it is a
    strict weak order, and it never orders two jobs of the same priority,
    whichever was put on the queue first. Dispatch follows this relation:
    in every reachable state, no job left on the queue is ordered before
    the job the worker loop takes from it. *)
Theorem priority_queue_order :
  (∀ x y, job_lt x y = true ↔
          priority_value (priority x) < priority_value (priority y)) ∧
  (∀ x, job_lt x x = false) ∧
  (∀ x y z, job_lt x y = true → job_lt y z = true → job_lt x z = true) ∧
  (∀ x y z, job_lt x y = false → job_lt y z = false → job_lt x z = false) ∧
  (∀ x y, priority x = priority y → job_lt x y = false ∧ job_lt y x = false) ∧
  (∀ x y, priority x ≠ priority y → job_lt x y = true ∨ job_lt y x = true) ∧
  (∀ s a queue,
     reachable s →
     heappop (lt_at (objects s)) (job_queue s) = Some (a, queue) →
     ∃ job,
       objects s !! a = Some job ∧
       ∀ a', a' ∈ queue →
         ∃ job', objects s !! a' = Some job' ∧ job_lt job' job = false).
Proof.
  destruct job_lt_strict_weak_order as (H1 & H2 & H3 & H4 & H5 & H6).
  refine (conj H1 (conj H2 (conj H3 (conj H4 (conj H5 (conj H6 _)))))).
  intros s a queue. apply heappop_least_priority.
Qed.

(** C2 (witness). Of the three jobs submitted at the priorities Low, Urgent
    and Medium, the worker loop takes the Urgent one first. *)
Lemma priority_queue_order_witness :
  ∃ job,
    objects mixed_priorities !! 1%nat = Some job ∧ priority job = URGENT ∧
    ∀ a', a' ∈ [2; 0]%nat →
      ∃ job', objects mixed_priorities !! a' = Some job' ∧
              job_lt job' job = false.
Proof.
  destruct priority_queue_order as (_ & _ & _ & _ & _ & _ & H).
  destruct (H mixed_priorities 1%nat [2; 0]%nat reachable_mixed_priorities)
    as (job & Hjob & Hmin); [by vm_compute|].
  exists job. split; [done|]. split; [|done].
  vm_compute in Hjob. by injection Hjob as <-.
Defined.

(** ** Batch counters *)




(** ** Cancelled jobs *)

Lemma take_job_objects (now : datetime) (s : Service) (a : nat)
    (job : BatchJob) :
  objects s !! a = Some job → job_status job = CANCELLED →
  objects (take_job now s).1 !! a = Some job ∧ (take_job now s).2 ≠ Ran a.
Proof.
  intros Hjob Hcan. unfold take_job.
  destruct (heappop (lt_at (objects s)) (job_queue s)) as [[a' queue]|];
    [|done].
  simpl_state. destruct (objects s !! a') as [job'|] eqn:Hjob'; [|done].
  destruct (decide (job_status job' = CANCELLED)) as [Hc|Hc]; [done|].
  assert (a' ≠ a) by (intros ->; congruence).
  rewrite (begin_job_spec now a' _ job') by done. simpl_state.
  rewrite list_lookup_insert_ne by done. split; [done|congruence].
Qed.

(** No transition changes a job object that is Cancelled. *)
Lemma cancelled_job_step (s s' : Service) (a : nat) (job : BatchJob) :
  well_formed s → step s s' →
  objects s !! a = Some job → job_status job = CANCELLED →
  objects s' !! a = Some job.
Proof.
  intros Hwf Hstep Hjob Hcan.
  assert (Hcreate : ∀ kind label uuid clock requests name p,
    objects (create_batch kind label uuid clock requests name p s).1 !! a
    = Some job).
  { intros. destruct (create_batch_spec kind label uuid clock requests name p s)
      as (? & ? & ? & _ & Hobj & _).
    cbn zeta in Hobj. rewrite Hobj, lookup_app_l; [done|].
    by eapply lookup_lt_Some. }
  destruct Hstep as [| | |now s Hcur|task now s Hcur|bid s|clock days_old s].
  - apply Hcreate.
  - apply Hcreate.
  - apply Hcreate.
  - by apply take_job_objects.
  - destruct Hcur as [c Hcur]. destruct Hwf as (_ & _ & Hc).
    destruct (Hc c Hcur) as (x & Hx & Hproc).
    assert (c ≠ a) by (intros ->; congruence).
    unfold resume.
    destruct (finish_job_spec (current_outcome task s) now s c x Hcur Hx)
      as (x' & _ & -> & _).
    by rewrite list_lookup_insert_ne.
  - destruct (batch_requests s !! bid) as [b|] eqn:Hb.
    + rewrite (cancel_batch_found bid s b Hb). simpl_state.
      rewrite cancel_jobs_lookup, Hjob. cbn [fmap option_fmap option_map].
      rewrite decide_False; [done|]. intros [_ ?]. congruence.
    + by rewrite cancel_batch_missing.
  - by destruct (cleanup_old_batches_objects clock days_old s) as (-> & _).
Qed.

(** An iteration the worker is alone in is the three statements in a row. *)
Lemma take_job_fine (now : datetime) (s : Service) :
  current s = None → rtc fine_step (Free, s) (Free, (take_job now s).1).
Proof.
  intros Hcur.
  eapply rtc_l; [by apply fine_get|].
  unfold get_job, take_job.
  destruct (heappop (lt_at (objects s)) (job_queue s)) as [[a queue]|];
    [|apply rtc_refl].
  eapply rtc_l; [apply fine_test|]. unfold test_job.
  destruct (objects (set_job_queue queue s) !! a) as [job|]; [|apply rtc_refl].
  destruct (decide (job_status job = CANCELLED)); [apply rtc_refl|].
  apply rtc_once, fine_begin.
Qed.

Lemma step_fine (s s' : Service) :
  step s s' → rtc fine_step (Free, s) (Free, s').
Proof.
  intros [| | |now s0 Hcur|task now s0 Hcur|bid s0|clock days_old s0].
  - apply rtc_once, fine_call, call_create_video.
  - apply rtc_once, fine_call, call_create_audio.
  - apply rtc_once, fine_call, call_create_translation.
  - by apply take_job_fine.
  - by apply rtc_once, fine_finish.
  - apply rtc_once, fine_call, call_cancel.
  - apply rtc_once, fine_call, call_cleanup.
Qed.

(** Every state of the engine is a state of the finer system. *)
Lemma reachable_fine (s : Service) : reachable s → fine_reachable (Free, s).
Proof.
  intros [workers Hsteps]. exists workers.
  induction Hsteps as [|s1 s2 s3 Hstep _ IH]; [apply rtc_refl|].
  etrans; [by apply step_fine|done].
Qed.

Lemma method_call_objects (s s' : Service) (a : nat) (job : BatchJob) :
  method_call s s' → objects s !! a = Some job → job_status job ≠ PENDING →
  objects s' !! a = Some job.
Proof.
  intros Hcall Hjob Hst.
  assert (Hcreate : ∀ kind label uuid clock requests name p,
    objects (create_batch kind label uuid clock requests name p s).1 !! a
    = Some job).
  { intros. destruct (create_batch_spec kind label uuid clock requests name p s)
      as (? & ? & ? & _ & Hobj & _).
    cbn zeta in Hobj. rewrite Hobj, lookup_app_l; [done|].
    by eapply lookup_lt_Some. }
  destruct Hcall as [| | |bid s|clock days_old s].
  - apply Hcreate.
  - apply Hcreate.
  - apply Hcreate.
  - destruct (batch_requests s !! bid) as [b|] eqn:Hb.
    + rewrite (cancel_batch_found bid s b Hb). simpl_state.
      rewrite cancel_jobs_lookup, Hjob. cbn [fmap option_fmap option_map].
      rewrite decide_False; [done|]. by intros [_ ?].
    + by rewrite cancel_batch_missing.
  - by destruct (cleanup_old_batches_objects clock days_old s) as (-> & _).
Qed.

Lemma method_call_current (s s' : Service) :
  method_call s s' → current s' = current s.
Proof.
  intros [| | |bid s0|clock days_old s0].
  - apply create_batch_queue.
  - apply create_batch_queue.
  - apply create_batch_queue.
  - destruct (batch_requests s0 !! bid) as [b|] eqn:Hb.
    + by rewrite (cancel_batch_found bid s0 b Hb).
    + by rewrite cancel_batch_missing.
  - by destruct (cleanup_old_batches_objects clock days_old s0) as (_ & _ & ->).
Qed.

Lemma fine_well_formed_step (st st' : position * Service) :
  fine_well_formed st → fine_step st st' → fine_well_formed st'.
Proof.
  intros [Hc Hw] Hstep. unfold fine_well_formed, current_well_formed in *.
  destruct Hstep as [w s s' Hcall|s Hcur|a s|now a s|task now s Hcur];
    cbn [fst snd] in *.
  - pose proof (method_call_current s s' Hcall) as Hcur.
    split; [|by rewrite Hcur].
    intros c. rewrite Hcur. intros Hc'.
    destruct (Hc c Hc') as (job & Hjob & Hst).
    exists job. split; [|done].
    apply (method_call_objects s s' c job Hcall Hjob). congruence.
  - unfold get_job.
    destruct (heappop (lt_at (objects s)) (job_queue s)) as [[a queue]|];
      by split.
  - split; [done|]. intros _. apply Hw.
    unfold test_job. discriminate.
  - specialize (Hw ltac:(discriminate)). split; [|done].
    unfold begin_job. destruct (objects s !! a) as [job|] eqn:Hjob.
    + intros c. simpl_state. intros [= <-].
      rewrite list_lookup_insert_eq by (by eapply lookup_lt_Some).
      by eexists.
    + intros c. by rewrite Hw.
  - split; [|done]. destruct Hcur as [c Hcur].
    destruct (Hc c Hcur) as (x & Hx & _). unfold resume.
    destruct (finish_job_spec (current_outcome task s) now s c x Hcur Hx)
      as (_ & _ & _ & Hnone & _).
    intros c'. by rewrite Hnone.
Qed.

Lemma fine_well_formed_rtc (st st' : position * Service) :
  fine_well_formed st → rtc fine_step st st' → fine_well_formed st'.
Proof.
  intros Hwf Hsteps. induction Hsteps as [|st1 st2 st3 Hstep _ IH]; [done|].
  apply IH. by eapply fine_well_formed_step.
Qed.

Lemma fine_reachable_well_formed (st : position * Service) :
  fine_reachable st → fine_well_formed st.
Proof.
  intros [workers Hsteps].
  eapply fine_well_formed_rtc; [|exact Hsteps].
  split; [|done]. intros a Ha. by cbn in Ha.
Qed.

(** A Cancelled job the worker has not let pass is changed by no
    transition, and no transition lets it pass. *)
Lemma cancelled_job_fine_step (st st' : position * Service) (a : nat)
    (job : BatchJob) :
  fine_well_formed st → fine_step st st' →
  objects st.2 !! a = Some job → job_status job = CANCELLED →
  st.1 ≠ Tested a →
  objects st'.2 !! a = Some job ∧ st'.1 ≠ Tested a.
Proof.
  intros [Hc Hw] Hstep Hjob Hcan Hpos. unfold current_well_formed in Hc.
  destruct Hstep as [w s s' Hcall|s Hcur|a' s|now a' s|task now s Hcur];
    cbn [fst snd] in *.
  - split; [|done]. apply (method_call_objects s s' a job Hcall Hjob).
    congruence.
  - unfold get_job.
    destruct (heappop (lt_at (objects s)) (job_queue s)) as [[a' queue]|];
      by split.
  - split; [done|]. unfold test_job.
    destruct (objects s !! a') as [job'|] eqn:Hjob'; [|done].
    destruct (decide (job_status job' = CANCELLED)); [done|].
    intros [= ->]. congruence.
  - split; [|done]. assert (a' ≠ a) by congruence.
    unfold begin_job. destruct (objects s !! a') as [job'|]; [|done].
    simpl_state. by rewrite list_lookup_insert_ne.
  - split; [|done]. destruct Hcur as [c Hcur].
    destruct (Hc c Hcur) as (x & Hx & Hproc).
    assert (c ≠ a) by (intros ->; congruence).
    unfold resume.
    destruct (finish_job_spec (current_outcome task s) now s c x Hcur Hx)
      as (x' & _ & -> & _).
    by rewrite list_lookup_insert_ne.
Qed.

(** C9 (as amended). A job object that is Cancelled while the worker has
    not let it pass the test of its status stays as it is in every later
    state, whatever the worker and the callers of the methods do and in
    whatever order: no transition changes any of its fields, the test
    drops it whenever the worker takes it from the queue, and the worker
    never begins it nor holds it in [_process_job], so that no executor is
    ever called on it. In particular this is so for a job that is
    Cancelled at the moment it is taken from the queue. An iteration of
    the worker loop never hands it to [_process_job], and the iteration
    that takes it from the queue leaves everything but the queue
    unchanged. *)
Theorem cancelled_job_is_run_only_if_tested_before (w : position)
    (s : Service) (a : nat) (job : BatchJob) :
  fine_reachable (w, s) → objects s !! a = Some job →
  job_status job = CANCELLED → w ≠ Tested a →
  ∀ w' s', rtc fine_step (w, s) (w', s') →
    objects s' !! a = Some job ∧
    w' ≠ Tested a ∧
    test_job a s' = Free ∧
    current s' ≠ Some a ∧
    (∀ now, (take_job now s').2 ≠ Ran a) ∧
    (∀ task clock, (_process_queue_iteration task clock s').2 ≠ Ran a) ∧
    (∀ task clock queue,
       heappop (lt_at (objects s')) (job_queue s') = Some (a, queue) →
       _process_queue_iteration task clock s' = (set_job_queue queue s', Skipped a)).
Proof.
  intros Hreach Hjob Hcan Hpos w' s' Hsteps.
  apply fine_reachable_well_formed in Hreach.
  assert (Hinv : fine_well_formed (w', s') ∧ objects s' !! a = Some job ∧
                 w' ≠ Tested a).
  { remember (w, s) as st eqn:Hst. remember (w', s') as st' eqn:Hst'.
    assert (H : fine_well_formed st' ∧ objects st'.2 !! a = Some job ∧
                st'.1 ≠ Tested a); [|by subst st'].
    assert (Hjob0 : objects st.2 !! a = Some job) by (by subst st).
    assert (Hpos0 : st.1 ≠ Tested a) by (by subst st).
    clear Hst Hst' Hjob Hpos.
    induction Hsteps as [|st1 st2 st3 Hstep _ IH]; [done|].
    destruct (cancelled_job_fine_step st1 st2 a job Hreach Hstep Hjob0 Hcan Hpos0).
    apply IH; [by eapply fine_well_formed_step|done|done]. }
  destruct Hinv as ((Hc & _) & Hjob' & Hpos'). cbn [fst snd] in Hc.
  split; [done|]. split; [done|]. split; [|split; [|split; [|split]]].
  - unfold test_job. rewrite Hjob'. by rewrite decide_True.
  - intros Hcur. destruct (Hc a Hcur) as (x & Hx & Hproc). congruence.
  - intros now. by apply (take_job_objects now s' a job).
  - intros task clock. unfold _process_queue_iteration.
    pose proof (take_job_objects (clock 0%nat) s' a job Hjob' Hcan) as [_ Hne].
    destruct (take_job (clock 0%nat) s') as [s1 d]. by destruct d.
  - intros task clock queue Hpop. unfold _process_queue_iteration, take_job.
    rewrite Hpop. simpl_state. rewrite Hjob'. by rewrite decide_True.
Qed.

(** C9 (witness). The cancelled job of the scenario is taken from the queue
    and the test drops it. *)
Lemma cancelled_job_is_run_only_if_tested_before_witness :
  let s1 := (get_job all_cancelled).2 in
  (get_job all_cancelled).1 = Popped 0 ∧
  (job_status <$> objects s1 !! 0%nat) = Some CANCELLED ∧
  job_queue s1 = [] ∧
  test_job 0 s1 = Free ∧
  current s1 ≠ Some 0%nat.
Proof.
  intros s1.
  assert (Hget : get_job all_cancelled = (Popped 0, s1)) by (by vm_compute).
  destruct (objects s1 !! 0%nat) as [job|] eqn:Hjob;
    [|by vm_compute in Hjob].
  assert (Hcan : job_status job = CANCELLED).
  { vm_compute in Hjob. injection Hjob as <-. reflexivity. }
  assert (Hreach : fine_reachable (Popped 0, s1)).
  { destruct (reachable_fine all_cancelled reachable_all_cancelled)
      as [workers Hsteps].
    exists workers. eapply rtc_r; [exact Hsteps|].
    rewrite <- Hget. apply fine_get. by vm_compute. }
  destruct (cancelled_job_is_run_only_if_tested_before (Popped 0) s1 0 job
              Hreach Hjob Hcan ltac:(discriminate) (Popped 0) s1
              (rtc_refl _ _)) as (_ & _ & Htest & Hcur & _).
  split; [by rewrite Hget|]. split; [simpl; by f_equal|].
  split; [by vm_compute|]. split; [exact Htest|exact Hcur].
Defined.

(** C9 (counterexample). The worker takes the first job of a batch from
    the queue and finds it Pending; the batch is cancelled, which marks
    the job as Cancelled; the worker goes on into [_process_job], which
    marks the job as Processing and calls the executor: the job that was
    Cancelled ends as Completed. *)
Lemma cancelled_after_the_test_is_run :
  let s1 := (get_job three_pending).2 in
  let clock := fun k : nat => morning (10 + 10 * k) in
  let s3 := begin_job (clock 0%nat) 0 tested_then_cancelled in
  let s4 := resume succeeding (clock 1%nat) s3 in
  get_job three_pending = (Popped 0, s1) ∧
  test_job 0 s1 = Tested 0 ∧
  tested_then_cancelled = (cancel_batch demo_id s1).1 ∧
  fine_reachable (Tested 0, tested_then_cancelled) ∧
  (job_status <$> objects tested_then_cancelled !! 0%nat) = Some CANCELLED ∧
  fine_step (Tested 0, tested_then_cancelled) (Free, s3) ∧
  (job_status <$> objects s3 !! 0%nat) = Some PROCESSING ∧
  current s3 = Some 0%nat ∧
  fine_step (Free, s3) (Free, s4) ∧
  _process_job succeeding clock 0 tested_then_cancelled = s4 ∧
  (job_status <$> objects s4 !! 0%nat) = Some COMPLETED.
Proof.
  intros s1 clock s3 s4.
  assert (Hget : get_job three_pending = (Popped 0, s1)) by (by vm_compute).
  assert (Htest : test_job 0 s1 = Tested 0) by (by vm_compute).
  split; [done|]. split; [done|]. split; [done|]. split.
  { exists 4. apply rtc_r with (Tested 0, s1);
      [|apply fine_call, call_cancel].
    apply rtc_r with (Popped 0, s1); [|rewrite <- Htest; apply fine_test].
    apply rtc_r with (Free, three_pending);
      [|rewrite <- Hget; apply fine_get; by vm_compute].
    apply rtc_once, fine_call, call_create_audio. }
  split; [by vm_compute|]. split; [apply fine_begin|].
  split; [by vm_compute|]. split; [by vm_compute|].
  split; [apply fine_finish; vm_compute; by eexists|].
  split; [done|]. by vm_compute.
Qed.

(** C10 (witness). A video batch of two jobs submitted to a new service. *)
Lemma job_id_prefix_is_batch_id_witness :
  let r := create_video_batch 255 morning
             [[("duration", VFloat 10%float)]; [("quality", VStr "high")]]
             (Some "demo") HIGH (empty_service 4 None) in
  ∃ b,
    batch_requests r.1 !! r.2 = Some b ∧
    batch_id b = r.2 ∧
    r.2 = uuid_str 255 ∧
    no_underscore r.2 = true ∧
    jobs b = seq 0 2 ∧
    ∀ a, a ∈ jobs b →
      ∃ job, objects r.1 !! a = Some job ∧
             split_head (job_id job) = batch_id b ∧
             batch_requests r.1 !! split_head (job_id job) = Some b.
Proof.
  apply (job_id_prefix_is_batch_id create_video_batch).
  apply elem_of_cons. by left.
Defined.

(** ** Retries *)

Lemma demote_value (p : JobPriority) :
  priority_value (demote p) = Z.min (priority_value p + 1) 3.
Proof. by destruct p. Qed.

Lemma iter_demote_value (k : nat) (p : JobPriority) :
  priority_value (Nat.iter k demote p) = Z.min (priority_value p + Z.of_nat k) 3.
Proof.
  induction k as [|k IH].
  - cbn [Nat.iter nat_rect]. pose proof (priority_value_range p). lia.
  - rewrite Nat.iter_succ, demote_value, IH. lia.
Qed.

(** What the end of [_process_job] does, in any state, with a job whose
    executor raised: a job that has retries left goes back on the queue,
    reset and demoted; a job that has none is left Failed and is not put
    on the queue. *)
Lemma failing_attempt (msg : string) (now : datetime) (s : Service) (a : nat)
    (job : BatchJob) :
  current s = Some a → objects s !! a = Some job →
  let s' := finish_job (Raised msg) now s in
  current s' = None ∧
  if retry_count job <? max_retries job then
    objects s' !! a = Some (retry_job (fail_job now msg job)) ∧
    job_queue s' ≡ₚ a :: job_queue s
  else
    objects s' !! a = Some (fail_job now msg job) ∧
    job_queue s' = job_queue s.
Proof.
  intros Hcur Hjob. cbn zeta. unfold finish_job. rewrite Hcur, Hjob.
  unfold conclude.
  change (retry_count (fail_job now msg job)) with (retry_count job).
  change (max_retries (fail_job now msg job)) with (max_retries job).
  assert (Ha : (a < length (objects s))%nat) by (by eapply lookup_lt_Some).
  destruct (retry_count job <? max_retries job); unfold _update_batch_status;
    simpl_state; rewrite list_lookup_insert_eq by done;
    destruct (batch_requests s !! _); simpl_state;
    (split; [done|]); (split; [by apply list_lookup_insert_eq|]);
    done || apply heappush_Permutation.
Qed.

(** [_process_job] leaves the worker without a job. *)
Lemma finish_job_current (o : outcome) (now : datetime) (s : Service) :
  well_formed s → current (finish_job o now s) = None.
Proof.
  intros (_ & _ & Hc). destruct (current s) as [a|] eqn:Hcur.
  - destruct (Hc a Hcur) as (job & Hjob & _).
    by destruct (finish_job_spec o now s a job Hcur Hjob) as (? & _ & _ & -> & _).
  - unfold finish_job. by rewrite Hcur.
Qed.

(** What an iteration of the worker loop does in a well-formed state whose
    worker is idle. *)
Lemma iteration_cases (task : BatchJob → outcome) (clock : nat → datetime)
    (s : Service) :
  well_formed s → current s = None →
  let r := _process_queue_iteration task clock s in
  well_formed r.1 ∧ current r.1 = None ∧
  match r.2 with
  | Idle => r.1 = s ∧ job_queue s = []
  | Skipped a' =>
    (∃ job0, objects s !! a' = Some job0 ∧ job_status job0 = CANCELLED) ∧
    objects r.1 = objects s ∧ job_queue s ≡ₚ a' :: job_queue r.1
  | Ran a' =>
    ∃ job0 queue,
      objects s !! a' = Some job0 ∧ job_status job0 = PENDING ∧
      job_queue s ≡ₚ a' :: queue ∧ (a' ∉ queue) ∧
      r.1 = resume task (clock 1%nat)
              (begin_job (clock 0%nat) a' (set_job_queue queue s))
  end.
Proof.
  intros Hwf Hcur. cbn zeta.
  pose proof (well_formed_take (clock 0%nat) s Hwf) as Hwf1.
  unfold _process_queue_iteration. revert Hwf1. unfold take_job.
  pose proof Hwf as (_ & (Hnd & Hq) & _).
  destruct (heappop (lt_at (objects s)) (job_queue s)) as [[a queue]|] eqn:Hpop.
  - apply heappop_Permutation in Hpop.
    destruct (Hq a) as (_ & job0 & Hjob0 & Hst);
      [rewrite Hpop; apply elem_of_cons; by left|].
    assert (Hnd' : NoDup (a :: queue)) by by rewrite <- Hpop.
    apply NoDup_cons in Hnd' as [Hnotin _].
    simpl_state. rewrite Hjob0.
    destruct (decide (job_status job0 = CANCELLED)) as [Hcan|Hcan]; cbn [fst snd].
    + intros Hwf1. split; [done|]. split; [done|]. split; [by eexists|]. done.
    + intros Hwf1. destruct Hst as [Hpend|?]; [|done].
      split; [by apply well_formed_finish|]. split.
      * by apply finish_job_current.
      * by exists job0, queue.
  - intros _. apply heappop_None in Hpop. by cbn [fst snd].
Qed.

Lemma runs_of_cons (a : nat) (d : dispatch) (ds : list dispatch) :
  runs_of a (d :: ds) =
    if decide (d = Ran a) then S (runs_of a ds) else runs_of a ds.
Proof. unfold runs_of. rewrite filter_cons. by case_decide. Qed.

(** Running another job leaves the job at [a] and its place on the queue
    as they are. *)
Lemma other_job_run (task : BatchJob → outcome) (now0 now1 : datetime)
    (s : Service) (a a' : nat) (job0 : BatchJob) (queue : list nat) :
  a' ≠ a → objects s !! a' = Some job0 → job_queue s ≡ₚ a' :: queue →
  let s' := resume task now1 (begin_job now0 a' (set_job_queue queue s)) in
  objects s' !! a = objects s !! a ∧ (a ∈ job_queue s' ↔ a ∈ job_queue s).
Proof.
  intros Hne Hjob0 Hperm. cbn zeta.
  rewrite (begin_job_spec now0 a' _ job0) by done.
  assert (Ha' : (a' < length (objects s))%nat) by (by eapply lookup_lt_Some).
  unfold resume.
  match goal with
  | |- context [finish_job ?o now1 ?s1] =>
    destruct (finish_job_spec o now1 s1 a'
                (set_started_at (Some now0) (set_status PROCESSING job0))
                eq_refl (list_lookup_insert_eq _ _ _ Ha'))
      as (job' & _ & Hobj & _ & _ & Hqueue)
  end.
  rewrite Hobj. revert Hqueue. simpl_state. intros Hqueue.
  rewrite !list_lookup_insert_ne by done. split; [done|].
  rewrite Hperm, elem_of_cons.
  destruct Hqueue as [[_ ->]|[_ ->]].
  - rewrite heappush_Permutation, elem_of_cons.
    split; [intros [?|?]; [done|by right]|intros [?|?]; [done|by right]].
  - split; [by right|by intros [?|?]].
Qed.

(** A job that is not on the queue while the worker is idle is never run
    and never changes, whatever the worker loop does. *)
Lemma job_off_queue_stays (task : BatchJob → outcome) (clock : nat → datetime)
    (a : nat) (n : nat) :
  ∀ (s : Service),
    well_formed s → current s = None → a ∉ job_queue s →
    let r := run_worker n task clock s in
    runs_of a r.2 = 0%nat ∧ objects r.1 !! a = objects s !! a ∧
    a ∉ job_queue r.1.
Proof.
  induction n as [|n IH]; intros s Hwf Hcur Hq; cbn [run_worker]; [done|].
  pose proof (iteration_cases task clock s Hwf Hcur) as Hit. cbn zeta in Hit.
  destruct (_process_queue_iteration task clock s) as [s1 d].
  cbn [fst snd] in Hit. destruct Hit as (Hwf1 & Hcur1 & Hd).
  specialize (IH s1 Hwf1 Hcur1). cbn zeta in IH.
  destruct (run_worker n task clock s1) as [s2 ds]. cbn [fst snd] in *.
  rewrite runs_of_cons.
  destruct d as [|a'|a'].
  - destruct Hd as [-> _]. rewrite decide_False by done. by apply IH.
  - destruct Hd as (_ & Hobj & Hperm). rewrite decide_False by done.
    rewrite <- Hobj. apply IH. intros Ha. apply Hq. rewrite Hperm.
    apply elem_of_cons. by right.
  - destruct Hd as (job0 & queue & Hjob0 & _ & Hperm & _ & ->).
    assert (Hne : a' ≠ a).
    { intros ->. apply Hq. rewrite Hperm. apply elem_of_cons. by left. }
    destruct (other_job_run task (clock 0%nat) (clock 1%nat) s a a' job0 queue
                Hne Hjob0 Hperm) as [Hobj Hin].
    rewrite decide_False by congruence. rewrite <- Hobj. apply IH.
    by rewrite Hin.
Qed.

(** The worker loop on a state that holds a Pending job whose executor
    always raises. *)
Lemma failing_worker (task : BatchJob → outcome) (clock : nat → datetime)
    (a : nat) (n : nat) :
  ∀ (s : Service) (job : BatchJob),
    well_formed s → current s = None → objects s !! a = Some job →
    (∀ j, job_id j = job_id job → ∃ msg, task j = Raised msg) →
    a ∈ job_queue s → job_status job = PENDING →
    started_at job = None → completed_at job = None → error job = None →
    0 ≤ retry_count job ≤ max_retries job →
    let left := Z.to_nat (max_retries job - retry_count job) in
    let r := run_worker n task clock s in
    let k := runs_of a r.2 in
    (k ≤ left + 1)%nat ∧
    (job_queue s = [a] → k = (n `min` (left + 1))%nat) ∧
    ∃ job',
      objects r.1 !! a = Some job' ∧
      retry_count job' = retry_count job + Z.of_nat (k `min` left) ∧
      priority job' = Nat.iter (k `min` left) demote (priority job) ∧
      if (k <=? left)%nat then
        a ∈ job_queue r.1 ∧ job_status job' = PENDING ∧
        started_at job' = None ∧ completed_at job' = None ∧ error job' = None
      else
        (a ∉ job_queue r.1) ∧ job_status job' = FAILED ∧ is_Some (error job').
Proof.
  induction n as [|n IH]; intros s job Hwf Hcur Hjob Htask Hq Hst Hs Hc He Hr;
    cbn [run_worker].
  { cbn [fst snd]. change (runs_of a []) with 0%nat. cbn [Nat.min Nat.leb].
    split; [lia|]. split; [done|]. exists job. rewrite Z.add_0_r. by repeat split. }
  pose proof (iteration_cases task clock s Hwf Hcur) as Hit. cbn zeta in Hit.
  destruct (_process_queue_iteration task clock s) as [s1 d].
  cbn [fst snd] in Hit. destruct Hit as (Hwf1 & Hcur1 & Hd).
  assert (Hsame : objects s1 !! a = Some job → a ∈ job_queue s1 →
                  d ≠ Ran a → job_queue s ≠ [a] →
    let r := (let '(s2, ds) := run_worker n task clock s1 in (s2, d :: ds)) in
    let left := Z.to_nat (max_retries job - retry_count job) in
    let k := runs_of a r.2 in
    (k ≤ left + 1)%nat ∧
    (job_queue s = [a] → k = (S n `min` (left + 1))%nat) ∧
    ∃ job',
      objects r.1 !! a = Some job' ∧
      retry_count job' = retry_count job + Z.of_nat (k `min` left) ∧
      priority job' = Nat.iter (k `min` left) demote (priority job) ∧
      if (k <=? left)%nat then
        a ∈ job_queue r.1 ∧ job_status job' = PENDING ∧
        started_at job' = None ∧ completed_at job' = None ∧ error job' = None
      else
        (a ∉ job_queue r.1) ∧ job_status job' = FAILED ∧ is_Some (error job')).
  { intros Hjob1 Hq1 Hd' Hnot.
    pose proof (IH s1 job Hwf1 Hcur1 Hjob1 Htask Hq1 Hst Hs Hc He Hr) as IH0.
    cbn zeta in *. destruct (run_worker n task clock s1) as [s2 ds].
    cbn [fst snd] in *. rewrite runs_of_cons, decide_False by done.
    destruct IH0 as (Hk & _ & IH0). split; [done|]. split; [done|]. exact IH0. }
  destruct d as [|a'|a'].
  - destruct Hd as [_ Hnil]. rewrite Hnil in Hq. by apply elem_of_nil in Hq.
  - destruct Hd as ((job0 & Hjob0 & Hcan) & Hobj & Hperm).
    assert (Hne : a' ≠ a) by (intros ->; congruence).
    apply Hsame.
    + by rewrite Hobj.
    + rewrite Hperm in Hq. apply elem_of_cons in Hq as [->|Hq]; done.
    + done.
    + intros Hone. rewrite Hone in Hperm.
      apply Permutation_singleton_l in Hperm. congruence.
  - destruct Hd as (job0 & queue & Hjob0 & _ & Hperm & Hnotin & ->).
    destruct (decide (a' = a)) as [->|Hne].
    + assert (job0 = job) as -> by congruence. clear Hsame.
      rewrite (begin_job_spec (clock 0%nat) a _ job) in * by done.
      set (started := set_started_at (Some (clock 0%nat))
                        (set_status PROCESSING job)) in *.
      assert (Ha : (a < length (objects s))%nat) by (by eapply lookup_lt_Some).
      match type of Hwf1 with
      | well_formed (resume _ _ ?s0) => set (s1 := s0) in *
      end.
      assert (Hl : objects s1 !! a = Some started)
        by (by apply list_lookup_insert_eq).
      assert (Hout : ∃ msg, current_outcome task s1 = Raised msg).
      { unfold current_outcome. subst s1. simpl_state. rewrite Hl.
        unfold run_task. destruct (known_type (job_type started)).
        - by apply Htask.
        - by eexists. }
      destruct Hout as [msg Hout]. unfold resume in *. rewrite Hout in *.
      destruct (failing_attempt msg (clock 1%nat) s1 a started eq_refl Hl)
        as [_ Hatt].
      change (retry_count started) with (retry_count job) in Hatt.
      change (max_retries started) with (max_retries job) in Hatt.
      change (job_queue s1) with queue in Hatt.
      set (s' := finish_job (Raised msg) (clock 1%nat) s1) in *.
      destruct (Z.ltb_spec (retry_count job) (max_retries job)) as [Hlt|Hge].
      * destruct Hatt as [Hjob1 Hq1].
        set (job1 := retry_job (fail_job (clock 1%nat) msg started)) in *.
        specialize (IH s' job1 Hwf1 Hcur1 Hjob1 Htask).
        cbn zeta in IH.
        destruct (run_worker n task clock s') as [s2 ds]. cbn [fst snd] in *.
        rewrite runs_of_cons, decide_True by done.
        change (retry_count job1) with (retry_count job + 1) in IH.
        change (max_retries job1) with (max_retries job) in IH.
        change (priority job1) with (demote (priority job)) in IH.
        remember (Z.to_nat (max_retries job - (retry_count job + 1))) as left1
          eqn:El1.
        assert (El : Z.to_nat (max_retries job - retry_count job) = S left1)
          by lia.
        rewrite El.
        destruct IH as (Hk & Hone & job' & Hjob' & Hrc & Hp & Hcase);
          [rewrite Hq1; apply elem_of_cons; by left|done..|lia|].
        split; [lia|]. split.
        { intros Hs1. rewrite Hs1 in Hperm.
          apply Permutation_cons_inv in Hperm. apply Permutation_nil_l in Hperm.
          subst queue. apply Permutation_singleton_r in Hq1.
          rewrite (Hone Hq1). lia. }
        exists job'. split; [done|].
        replace (S (runs_of a ds) `min` S left1)%nat
          with (S (runs_of a ds `min` left1)) by lia.
        split; [lia|]. split; [by rewrite Hp, Nat.iter_succ_r|].
        change (S (runs_of a ds) <=? S left1)%nat
          with (runs_of a ds <=? left1)%nat. exact Hcase.
      * destruct Hatt as [Hjob1 Hq1].
        assert (Hoff : a ∉ job_queue s') by (by rewrite Hq1).
        pose proof (job_off_queue_stays task clock a n s' Hwf1 Hcur1 Hoff)
          as Hstay. cbn zeta in Hstay.
        destruct (run_worker n task clock s') as [s2 ds]. cbn [fst snd] in *.
        destruct Hstay as (Hruns & Hobj & Hoff2).
        rewrite runs_of_cons, decide_True by done. rewrite Hruns.
        replace (Z.to_nat (max_retries job - retry_count job)) with 0%nat by lia.
        split; [lia|]. split; [lia|].
        eexists. split; [by rewrite Hobj|].
        cbn [Nat.min Nat.leb Nat.iter nat_rect]. split; [cbn; lia|].
        split; [done|]. split; [done|]. split; [done|]. by eexists.
    + destruct (other_job_run task (clock 0%nat) (clock 1%nat) s a a' job0 queue
                  Hne Hjob0 Hperm) as [Hobj Hin].
      apply Hsame.
      * by rewrite Hobj.
      * by apply Hin.
      * congruence.
      * intros Hone. rewrite Hone in Hperm.
        apply Permutation_singleton_l in Hperm. congruence.
Qed.

(** C3. A job of a reachable state is Pending on the queue and has not been
    retried yet, and every call of its executor raises; other jobs may be
    on the queue, and their executors may do anything. Whatever the number
    [n] of iterations the worker loop makes, it has then run the job [k]
    times with [k ≤ max_retries + 1], and
    - as long as [k ≤ max_retries], the job has been put back on the queue
      after each of its runs: it is on the queue, Pending, with
      [started_at], [completed_at] and [error] cleared, [retry_count = k]
      and a priority [k] steps nearer to Low (Low stays Low);
    - once [k = max_retries + 1], the job is not on the queue: it is Failed
      with [retry_count = max_retries] and [error] set, after
      [max_retries] requeues.
    When the job is alone on the queue, every iteration runs it until it
    has failed: [k = min n (max_retries + 1)]. *)
Theorem failing_job_is_retried (task : BatchJob → outcome)
    (clock : nat → datetime) (s : Service) (a : nat) (job : BatchJob) :
  reachable s → current s = None →
  objects s !! a = Some job → a ∈ job_queue s →
  job_status job = PENDING → retry_count job = 0 → 0 ≤ max_retries job →
  started_at job = None → completed_at job = None → error job = None →
  (∀ j, job_id j = job_id job → ∃ msg, task j = Raised msg) →
  let m := Z.to_nat (max_retries job) in
  ∀ n,
    let r := run_worker n task clock s in
    let k := runs_of a r.2 in
    (k ≤ m + 1)%nat ∧
    (job_queue s = [a] → k = (n `min` (m + 1))%nat) ∧
    ∃ job',
      objects r.1 !! a = Some job' ∧
      retry_count job' = Z.of_nat (k `min` m) ∧
      priority_value (priority job')
      = Z.min (priority_value (priority job) + Z.of_nat (k `min` m)) 3 ∧
      if (k <=? m)%nat then
        a ∈ job_queue r.1 ∧ job_status job' = PENDING ∧
        started_at job' = None ∧ completed_at job' = None ∧ error job' = None
      else
        (a ∉ job_queue r.1) ∧ job_status job' = FAILED ∧ is_Some (error job').
Proof.
  intros Hreach Hcur Hjob Hq Hst Hrc Hmax Hs Hc He Htask m n.
  apply reachable_well_formed in Hreach.
  destruct (failing_worker task clock a n s job Hreach Hcur Hjob Htask Hq Hst
              Hs Hc He) as (Hk & Hone & job' & Hjob' & Hrc' & Hp & Hcase);
    [lia|].
  rewrite Hrc, Z.sub_0_r in *. fold m in Hk, Hone, Hrc', Hp, Hcase.
  split; [done|]. split; [done|]. exists job'. split; [done|].
  split; [lia|]. split; [by rewrite Hp, iter_demote_value|done].
Qed.

(** C3 (witness). The audio batch of one job with an executor that always
    raises: the job is run four times, requeued three times, and is then
    Failed with priority Low. *)
Lemma failing_job_is_retried_witness :
  let r := run_worker 4 raising morning one_pending in
  runs_of 0 r.2 = 4%nat ∧
  ∃ job',
    objects r.1 !! 0%nat = Some job' ∧ retry_count job' = 3 ∧
    priority_value (priority job') = 3 ∧
    (0%nat ∉ job_queue r.1) ∧ job_status job' = FAILED ∧ is_Some (error job').
Proof.
  eassert (Hjob : objects one_pending !! 0%nat = Some _)
    by (vm_compute; reflexivity).
  assert (Hq : job_queue one_pending = [0%nat]) by (vm_compute; reflexivity).
  assert (Hin : 0%nat ∈ job_queue one_pending)
    by (rewrite Hq; apply elem_of_cons; by left).
  pose proof (failing_job_is_retried raising morning one_pending 0 _
                reachable_one_pending eq_refl Hjob Hin eq_refl eq_refl
                ltac:(discriminate) eq_refl eq_refl eq_refl
                (fun j _ => ex_intro _ "boom" eq_refl) 4%nat) as H.
  cbv zeta in H. destruct H as (_ & Hk & H). specialize (Hk Hq).
  split; [exact Hk|]. rewrite Hk in H.
  destruct H as (job' & Hjob' & Hrc & Hp & Hcase). exists job'.
  split; [exact Hjob'|]. split; [exact Hrc|]. split; [exact Hp|exact Hcase].
Defined.

(** ** Persistence *)

(** *** Timestamps *)

Lemma digit_val_char (d : Z) : 0 ≤ d < 10 → digit_val (digit_char d) = Some d.
Proof.
  intros H.
  assert (Hd : d = 0 ∨ d = 1 ∨ d = 2 ∨ d = 3 ∨ d = 4 ∨ d = 5 ∨ d = 6 ∨ d = 7 ∨
               d = 8 ∨ d = 9) by lia.
  repeat (destruct Hd as [-> | Hd]; [reflexivity|]). by subst.
Qed.

Lemma num2_pad (n : Z) :
  0 ≤ n < 100 →
  num2 (digit_char (n / 10 mod 10)) (digit_char (n mod 10)) = Some n.
Proof.
  intros H. unfold num2.
  rewrite !digit_val_char by (apply Z.mod_pos_bound; lia).
  cbn [mbind option_bind]. f_equal. Z.div_mod_to_equations. lia.
Qed.

Lemma num4_pad (n : Z) :
  0 ≤ n < 10000 →
  num4 (digit_char (n / 1000 mod 10)) (digit_char (n / 100 mod 10))
       (digit_char (n / 10 mod 10)) (digit_char (n mod 10)) = Some n.
Proof.
  intros H. unfold num4, num2.
  rewrite !digit_val_char by (apply Z.mod_pos_bound; lia).
  cbn [mbind option_bind]. f_equal. Z.div_mod_to_equations. lia.
Qed.

Lemma num6_pad (n : Z) :
  0 ≤ n < 1000000 →
  num6 (digit_char (n / 100000 mod 10)) (digit_char (n / 10000 mod 10))
       (digit_char (n / 1000 mod 10)) (digit_char (n / 100 mod 10))
       (digit_char (n / 10 mod 10)) (digit_char (n mod 10)) = Some n.
Proof.
  intros H. unfold num6, num4, num2.
  rewrite !digit_val_char by (apply Z.mod_pos_bound; lia).
  cbn [mbind option_bind]. f_equal. Z.div_mod_to_equations. lia.
Qed.

Lemma sep_refl (c : ascii) : sep c c = Some tt.
Proof. unfold sep. by rewrite Ascii.eqb_refl. Qed.

Lemma days_in_month_le (y m : Z) : days_in_month y m ≤ 31.
Proof.
  unfold days_in_month.
  repeat (case_match; try lia).
Qed.

(** [fromisoformat] reads back what [isoformat] writes. *)
Lemma fromisoformat_isoformat (d : datetime) :
  valid_datetime d = true → fromisoformat (isoformat d) = Some d.
Proof.
  intros Hv. pose proof Hv as Hv'. unfold valid_datetime in Hv'.
  repeat (apply andb_true_iff in Hv' as [Hv' ?]).
  destruct d as [y mo da h mi se us]. cbn [year month day hour minute second
    microsecond] in *.
  pose proof (days_in_month_le y mo).
  unfold isoformat, fromisoformat.
  cbn [year month day hour minute second microsecond].
  destruct (us =? 0) eqn:Hus.
  - apply Z.eqb_eq in Hus. subst us.
    lazy beta iota zeta delta [String.append list_ascii_of_string pad2 pad4 pad6].
    rewrite num4_pad, !num2_pad, !sep_refl by lia.
    cbn [mbind option_bind]. unfold checked. by rewrite Hv.
  - lazy beta iota zeta delta [String.append list_ascii_of_string pad2 pad4 pad6].
    rewrite num4_pad, !num2_pad, num6_pad, !sep_refl by lia.
    cbn [mbind option_bind]. unfold checked. by rewrite Hv.
Qed.

(** *** Records *)

Lemma priority_of_value_value (p : JobPriority) :
  priority_of_value (priority_value p) = Some p.
Proof. by destruct p. Qed.

Lemma status_of_value_value (st : JobStatus) :
  status_of_value (status_value st) = Some st.
Proof. by destruct st. Qed.

Lemma get_opt_datetime_json (key : string) (t : option datetime) (d : pydict) :
  opt_valid t = true →
  dict_lookup key d = Some (opt_datetime_json t) →
  get_opt_datetime key d = Some t.
Proof.
  intros Hv Hl. unfold get_opt_datetime. rewrite Hl.
  destruct t as [x|]; [|done]. cbn [opt_datetime_json].
  by rewrite fromisoformat_isoformat.
Qed.

(** A job written by [job_to_json] is read back by [job_of_json]. *)
Lemma job_of_json_to_json (job : BatchJob) :
  job_valid job = true → job_of_json (job_to_json job) = Some job.
Proof.
  unfold job_valid. intros [[Hc Hs]%andb_true_iff He]%andb_true_iff.
  destruct job as [id kind input p st created started completed prog res err
                   retries maxr].
  cbn [job_created_at started_at completed_at] in *.
  unfold job_of_json, job_to_json.
  cbn [job_id job_type input_data priority job_status job_created_at
       started_at completed_at progress result error retry_count max_retries].
  change (keys_allowed job_fields _) with true. cbv iota.
  unfold get_str, get_int, get_int_default, get_opt_str.
  rewrite (get_opt_datetime_json "started_at" started) by done.
  rewrite (get_opt_datetime_json "completed_at" completed) by done.
  cbn [dict_lookup String.eqb Ascii.eqb Bool.eqb mbind option_bind].
  rewrite fromisoformat_isoformat by done.
  rewrite priority_of_value_value, status_of_value_value.
  cbn [mbind option_bind].
  by destruct err.
Qed.

Lemma jobs_of_json_to_json (js : list BatchJob) :
  forallb job_valid js = true →
  mapM job_of_json (map job_to_json js) = Some js.
Proof.
  induction js as [|job js IH]; [done|].
  cbn [forallb map]. intros [Hj Hjs]%andb_true_iff.
  cbn [mapM]. rewrite job_of_json_to_json by done. cbn [mbind option_bind].
  by rewrite IH.
Qed.

(** A batch written by [batch_to_json] is read back by [batch_of_json]. *)
Lemma batch_of_json_to_json (b : BatchRequest BatchJob) :
  batch_valid b = true → batch_of_json (batch_to_json b) = Some b.
Proof.
  unfold batch_valid. intros [Hc Hjs]%andb_true_iff.
  destruct b as [id name js created total completed failed st est act].
  cbn [batch_created_at jobs] in *.
  unfold batch_of_json, batch_to_json.
  cbn [batch_id batch_name jobs batch_created_at total_jobs completed_jobs
       failed_jobs batch_status estimated_duration actual_duration].
  change (keys_allowed batch_fields _) with true. cbv iota.
  unfold get_str, get_int, get_int_default, get_opt_float.
  cbn [dict_lookup String.eqb Ascii.eqb Bool.eqb mbind option_bind].
  rewrite fromisoformat_isoformat, jobs_of_json_to_json by done.
  rewrite status_of_value_value.
  cbn [mbind option_bind].
  by destruct est, act.
Qed.

(** *** Loading *)

Lemma deref_app_l (objs new : list BatchJob) (js : list nat) :
  (∀ a, a ∈ js → (a < length objs)%nat) →
  deref (objs ++ new) js = deref objs js.
Proof.
  induction js as [|a js IH]; intros H; [done|].
  rewrite !deref_cons, lookup_app_l by (apply H, elem_of_cons; by left).
  rewrite IH; [done|]. intros a' Ha'. apply H, elem_of_cons. by right.
Qed.

Lemma closed_empty (workers : Z) (file : option pyval) :
  closed (empty_service workers file).
Proof. intros bid b a H. simpl in H. by rewrite lookup_empty in H. Qed.

Lemma closed_install (key : string) (b : BatchRequest BatchJob) (s : Service) :
  closed s → closed (install_batch key b s).
Proof.
  intros Hc bid b' a. unfold install_batch. simpl_state.
  rewrite length_app. intros [[<- <-]|[_ Hl]]%lookup_insert_Some Ha.
  - cbn [jobs set_jobs] in Ha. apply list_elem_of_In, in_seq in Ha. lia.
  - specialize (Hc bid b' a Hl Ha). lia.
Qed.

(** Installing a batch read from disk binds its key to it in the snapshot
    and leaves the other batches as they were. *)
Lemma snapshot_install (key : string) (b : BatchRequest BatchJob) (s : Service) :
  closed s → snapshot (install_batch key b s) = <[key := b]> (snapshot s).
Proof.
  intros Hc. unfold snapshot, install_batch. simpl_state.
  rewrite fmap_insert. f_equal.
  - unfold snapshot_batch, set_jobs. cbn [jobs]. rewrite deref_app_seq.
    by destruct b.
  - apply map_fmap_ext. intros bid b' Hl. unfold snapshot_batch. f_equal.
    apply deref_app_l. intros a Ha. by apply (Hc bid b').
Qed.

Lemma load_batches_lookup (l : list (string * BatchRequest BatchJob)) :
  ∀ s : Service,
    closed s → NoDup l.*1 → forallb (fun kb => batch_valid kb.2) l = true →
    let s' := load_batches (map (fun kb => (kb.1, batch_to_json kb.2)) l) s in
    (∀ k v, (k, v) ∈ l → snapshot s' !! k = Some v) ∧
    (∀ k, k ∉ l.*1 → snapshot s' !! k = snapshot s !! k).
Proof.
  induction l as [|[k0 b0] l IH]; intros s Hc Hnd Hv; cbn zeta.
  - split; [intros k v H; by apply not_elem_of_nil in H|done].
  - cbn [map load_batches fst snd].
    cbn [forallb snd] in Hv. apply andb_true_iff in Hv as [Hv0 Hv].
    rewrite batch_of_json_to_json by done.
    cbn [fmap list_fmap fst] in Hnd. apply NoDup_cons in Hnd as [Hk0 Hnd].
    destruct (IH (install_batch k0 b0 s) (closed_install k0 b0 s Hc) Hnd Hv)
      as [IHa IHb].
    split.
    + intros k v [[= -> ->]|Hin]%elem_of_cons; [|by apply IHa].
      rewrite IHb, snapshot_install by done. apply lookup_insert_eq.
    + intros k Hk. cbn [fmap list_fmap fst] in Hk.
      apply not_elem_of_cons in Hk as [Hne Hk].
      rewrite IHb, snapshot_install by done. by apply lookup_insert_ne.
Qed.

(** C8. A service whose timestamps are datetimes writes its table of
    batches with [_save_persistent_data]; a new service started on the file
    written holds, after [_load_persistent_data], a table of batches equal
    to the original one: the same batch ids bound to batches with the same
    fields and the same jobs, field by field (ids, names, counters, statuses,
    priorities, progress, results, errors, retry counts and timestamps). *)
Theorem persistence_roundtrip (workers : Z) (s : Service) :
  timestamps_valid s = true →
  snapshot (start_service workers (disk (_save_persistent_data s))) = snapshot s.
Proof.
  intros Hv. unfold start_service, _load_persistent_data, _save_persistent_data.
  change (disk (empty_service workers (disk (set_disk (Some (persistent_data s)) s))))
    with (Some (persistent_data s)).
  unfold persistent_data.
  change (dict_get "batch_requests" (VDict []) ?d)
    with (VDict (map (fun kb => (kb.1, batch_to_json kb.2))
                     (map_to_list (snapshot s)))).
  cbv iota.
  destruct (load_batches_lookup (map_to_list (snapshot s))
              (empty_service workers (Some (persistent_data s)))
              (closed_empty _ _) (NoDup_fst_map_to_list _) Hv) as [Ha Hb].
  fold (persistent_data s). apply map_eq. intros k.
  destruct (snapshot s !! k) as [v|] eqn:Hk.
  - apply Ha. by apply elem_of_map_to_list.
  - rewrite Hb.
    + unfold snapshot, empty_service. simpl_state.
      by rewrite lookup_fmap, lookup_empty.
    + intros Hin. apply list_elem_of_fmap in Hin as ([k' v] & -> & Hin).
      apply elem_of_map_to_list in Hin. cbn [fst] in Hk. congruence.
Qed.

(** C8 (witness). The batch of three jobs of which two have completed and
    one is pending, written and read back by a new service. *)
Lemma persistence_roundtrip_witness :
  job_status <$> objects two_completed_one_pending
  = [COMPLETED; COMPLETED; PENDING] ∧
  snapshot (start_service 2
              (disk (_save_persistent_data two_completed_one_pending)))
  = snapshot two_completed_one_pending.
Proof.
  split; [by vm_compute|].
  apply persistence_roundtrip. by vm_compute.
Defined.

(* ===================================================================== *)
(** * The engine at work, and its routes *)
(* ===================================================================== *)

(** ** Bookkeeping *)

(** The job object [_process_job] leaves behind. *)
Lemma finish_job_exact (o : outcome) (now : datetime) (s : Service) (a : nat)
    (job : BatchJob) :
  current s = Some a → objects s !! a = Some job →
  let job' :=
    match o with
    | Returned r => complete_job now r job
    | Raised msg =>
      if retry_count job <? max_retries job
      then retry_job (fail_job now msg job) else fail_job now msg job
    end in
  let s' := finish_job o now s in
  objects s' = <[a := job']> (objects s) ∧
  active_jobs s' = delete (job_id job) (active_jobs s) ∧
  finished_jobs s' = <[job_id job := a]> (finished_jobs s) ∧
  active_workers (stats s')
  = Z.of_nat (size (delete (job_id job) (active_jobs s))) ∧
  total_jobs_processed (stats s')
  = total_jobs_processed (stats s)
    + match o with Returned _ => 1 | Raised _ => 0 end ∧
  total_jobs_failed (stats s')
  = total_jobs_failed (stats s)
    + match o with
      | Returned _ => 0
      | Raised _ => if retry_count job <? max_retries job then 0 else 1
      end.
Proof.
  intros Hcur Hjob. cbn zeta. unfold finish_job. rewrite Hcur, Hjob.
  assert (Ha : (a < length (objects s))%nat) by (by eapply lookup_lt_Some).
  unfold conclude. destruct o as [r|msg].
  - unfold _update_batch_status. simpl_state.
    rewrite list_lookup_insert_eq by done.
    destruct (batch_requests s !! _); simpl_state;
      (repeat split; try done);
      unfold _update_average_processing_time, incr_processed;
      cbn [total_jobs_processed total_jobs_failed];
      repeat case_match; cbn; lia.
  - change (retry_count (fail_job now msg job)) with (retry_count job).
    change (max_retries (fail_job now msg job)) with (max_retries job).
    destruct (retry_count job <? max_retries job);
      unfold _update_batch_status; simpl_state;
      rewrite list_lookup_insert_eq by done;
      destruct (batch_requests s !! _); simpl_state;
      repeat split; try done; cbn; lia.
Qed.

Lemma count_status_app (st : JobStatus) (xs ys : list BatchJob) :
  count_status st (xs ++ ys) = count_status st xs + count_status st ys.
Proof. unfold count_status. rewrite filter_app, length_app. lia. Qed.

(** Replacing one object moves one unit from the count of its old status
    to the count of its new status. *)
Lemma count_status_insert (st : JobStatus) (objs : list BatchJob) (a : nat)
    (job job' : BatchJob) :
  objs !! a = Some job →
  count_status st (<[a := job']> objs)
  = count_status st objs
    - (if decide (job_status job = st) then 1 else 0)
    + (if decide (job_status job' = st) then 1 else 0).
Proof.
  intros Hjob.
  assert (Ha : (a < length objs)%nat) by (by eapply lookup_lt_Some).
  rewrite insert_take_drop by done.
  rewrite <- (take_drop_middle objs a job Hjob) at 3.
  rewrite !count_status_app, !count_status_cons. lia.
Qed.

Lemma count_status_cancel (st : JobStatus) (js : list nat) :
  st ≠ PENDING → st ≠ CANCELLED →
  ∀ objs, count_status st (fold_left cancel_job js objs) = count_status st objs.
Proof.
  intros Hp Hc. induction js as [|a js IH]; intros objs; [done|].
  cbn [fold_left]. rewrite IH. unfold cancel_job.
  destruct (objs !! a) as [job|] eqn:Hjob; [|done].
  destruct (decide (job_status job = PENDING)) as [Hst|]; [|done].
  rewrite (count_status_insert st objs a job) by done.
  rewrite !decide_False; [lia|done|congruence].
Qed.

Lemma created_jobs_sound bid kind p clock requests :
  known_type kind = true →
  ∀ i k job,
    created_jobs bid kind p clock i requests !! k = Some job →
    job_sound job ∧ job_status job = PENDING.
Proof.
  intros Hk. induction requests as [|r rest IH]; intros i k job; [done|].
  cbn [created_jobs]. destruct k as [|k].
  - intros [= <-]. split; [|done]. unfold job_sound. cbn. by repeat split.
  - apply IH.
Qed.

Lemma create_batch_rest kind label uuid clock requests name p s :
  let s' := (create_batch kind label uuid clock requests name p s).1 in
  active_jobs s' = active_jobs s ∧
  active_workers (stats s') = active_workers (stats s) ∧
  total_jobs_processed (stats s') = total_jobs_processed (stats s) ∧
  total_jobs_failed (stats s') = total_jobs_failed (stats s) ∧
  queue_size (stats s') = Z.of_nat (length (job_queue s')).
Proof.
  unfold create_batch.
  set (nc := match name with
             | Some n =>
               if String.eqb n "" then (label +:+ strftime_compact (clock 0%nat),
                                        fun k => clock (S k))
               else (n, clock)
             | None => (label +:+ strftime_compact (clock 0%nat),
                        fun k => clock (S k))
             end).
  destruct nc as [name' clock'].
  destruct (enqueue_jobs (uuid_str uuid) kind p clock' 0 requests (objects s)
              (job_queue s) []) as [[objs queue] js].
  by simpl_state.
Qed.

Lemma active_entry_ext (s s' : Service) :
  current s' = current s →
  (∀ a job, current s = Some a → objects s !! a = Some job →
            ∃ job', objects s' !! a = Some job' ∧ job_id job' = job_id job) →
  (∀ a, current s = Some a → is_Some (objects s !! a)) →
  active_entry s' = active_entry s.
Proof.
  intros Hcur Hobj Hval. unfold active_entry. rewrite Hcur.
  destruct (current s) as [a|]; [|done].
  destruct (Hval a eq_refl) as [job Hjob].
  destruct (Hobj a job eq_refl Hjob) as (job' & -> & Hid).
  by rewrite Hjob, Hid.
Qed.

Lemma batch_sound_ext (objs objs' : list BatchJob) (bid : string)
    (b b' : BatchRequest nat) :
  batch_sound objs bid b →
  batch_id b' = batch_id b → jobs b' = jobs b →
  batch_status b' ≠ PROCESSING →
  (∀ a job, objs !! a = Some job →
            ∃ job', objs' !! a = Some job' ∧ job_id job' = job_id job) →
  batch_sound objs' bid b'.
Proof.
  intros (Hid & _ & kind & Hjobs) Hid' Hj' Hst Hext.
  split; [congruence|]. split; [done|]. exists kind. intros i a.
  rewrite Hj'. intros Hi. destruct (Hjobs i a Hi) as (job & Hjob & Hjid).
  destruct (Hext a job Hjob) as (job' & Hjob' & Hid2). exists job'.
  split; [done|congruence].
Qed.

Lemma sound_init (workers : Z) : sound (empty_service workers None).
Proof. by repeat split. Qed.

Lemma sound_create kind label uuid clock requests name p s :
  known_type kind = true → well_formed s → sound s →
  sound (create_batch kind label uuid clock requests name p s).1.
Proof.
  intros Hkind (_ & (_ & Hq) & Hc) (Hjs & Hpend & Hbs & Hact & Hw & Hp & Hf).
  destruct (create_batch_spec kind label uuid clock requests name p s)
    as (name' & clock' & est & _ & Hobj & Htab & _).
  destruct (create_batch_queue kind label uuid clock requests name p s)
    as (Hqueue & Hcur).
  destruct (create_batch_rest kind label uuid clock requests name p s)
    as (Hact' & Hw' & Hp' & Hf' & _).
  cbn zeta in *.
  set (s' := (create_batch kind label uuid clock requests name p s).1) in *.
  set (new := created_jobs (uuid_str uuid) kind p clock' 0 requests) in *.
  assert (Hold : ∀ a job, objects s !! a = Some job → objects s' !! a = Some job).
  { intros a job Ha. rewrite Hobj. rewrite lookup_app_l; [done|].
    by eapply lookup_lt_Some. }
  assert (Hlen : length new = length requests) by apply created_jobs_length.
  assert (Hcases : ∀ a job, objects s' !! a = Some job →
            objects s !! a = Some job ∨
            ((length (objects s) ≤ a < length (objects s) + length requests)%nat ∧
             new !! (a - length (objects s))%nat = Some job)).
  { intros a job. rewrite Hobj. intros Hl.
    apply lookup_app_Some in Hl as [Hl|[Hge Hl]]; [by left|right].
    split; [|done]. apply lookup_lt_Some in Hl. lia. }
  split; [|split; [|split; [|split; [|split; [|split]]]]].
  - intros a job Hl. destruct (Hcases a job Hl) as [Ho|[_ Hn]]; [by eapply Hjs|].
    by apply (created_jobs_sound _ _ _ _ _ Hkind) in Hn as [? _].
  - intros a job Hl Hst. rewrite Hqueue. apply elem_of_app.
    destruct (Hcases a job Hl) as [Ho|[Hr _]]; [left; by eapply Hpend|right].
    apply list_elem_of_In, in_seq. lia.
  - intros bid b. rewrite Htab. intros Hl.
    apply lookup_insert_Some in Hl as [[<- <-]|[Hne Hl]].
    + split; [done|]. split; [done|]. exists kind. intros i a.
      cbn [jobs]. intros Hi. apply lookup_seq in Hi as [-> Hi].
      destruct (new !! i) as [job|] eqn:Hjob.
      * exists job. rewrite Hobj, lookup_app_r by lia.
        replace (length (objects s) + i - length (objects s))%nat with i by lia.
        split; [done|]. by apply created_jobs_lookup in Hjob as (-> & _).
      * apply lookup_ge_None in Hjob. lia.
    + apply (batch_sound_ext (objects s) _ bid b b); try done.
      * by apply Hbs.
      * by destruct (Hbs bid b Hl) as (_ & ? & _).
      * intros a job Ha. exists job. split; [by apply Hold|done].
  - rewrite Hact', Hact. symmetry. apply active_entry_ext; [done| |].
    + intros a job _ Ha. exists job. split; [by apply Hold|done].
    + intros a Ha. destruct (Hc a Ha) as (job & -> & _). by eexists.
  - by rewrite Hw'.
  - rewrite Hp', Hp, Hobj, count_status_app.
    unfold new. rewrite created_jobs_count by done. lia.
  - rewrite Hf', Hf, Hobj, count_status_app.
    unfold new. rewrite created_jobs_count by done. lia.
Qed.

(** Reduces the field projections of an updated job object. *)
Ltac simpl_job :=
  cbn [job_id job_type input_data priority job_status job_created_at
       started_at completed_at progress result error retry_count max_retries
       set_status set_priority set_started_at set_completed_at set_progress
       set_result set_error set_retry_count complete_job fail_job retry_job
       new_job] in *.

Lemma sound_take (now : datetime) (s : Service) :
  current s = None → well_formed s → sound s → sound (take_job now s).1.
Proof.
  intros Hcur (_ & (Hnd & Hq) & _) Hs. pose proof Hs as
    (Hjs & Hpend & Hbs & Hact & Hw & Hp & Hf).
  unfold take_job.
  destruct (heappop (lt_at (objects s)) (job_queue s)) as [[a queue]|] eqn:Hpop;
    [|done].
  apply heappop_Permutation in Hpop.
  assert (Hnd' : NoDup (a :: queue)) by by rewrite <- Hpop.
  apply NoDup_cons in Hnd' as [Hnotin _].
  destruct (Hq a) as (_ & job & Hjob & Hst);
    [rewrite Hpop; apply elem_of_cons; by left|].
  assert (Hin : ∀ a' x, a' ≠ a → objects s !! a' = Some x →
                        job_status x = PENDING → a' ∈ queue).
  { intros a' x Hne Hx Hpx. specialize (Hpend a' x Hx Hpx).
    rewrite Hpop in Hpend. by apply elem_of_cons in Hpend as [?|?]. }
  simpl_state. rewrite Hjob.
  destruct (decide (job_status job = CANCELLED)) as [Hcan|Hcan]; cbn [fst].
  - split; [done|]. split; [|done]. simpl_state. intros a' x Hx Hpx.
    apply (Hin a' x); [|done..]. intros ->. congruence.
  - destruct Hst as [Hst|?]; [|done].
    rewrite (begin_job_spec now a _ job) by done.
    assert (Ha : (a < length (objects s))%nat) by (by eapply lookup_lt_Some).
    pose proof (Hjs a job Hjob) as (Hmax & Hrc & Hk & Hfields).
    rewrite Hst in Hfields. destruct Hfields as (_ & Hc & He & Hpr & Hres).
    unfold sound, active_entry. simpl_state.
    rewrite (list_lookup_insert_eq _ _ _ Ha).
    split; [|split; [|split; [|split; [|split; [|split]]]]].
    + intros a' x. destruct (decide (a' = a)) as [->|Hne].
      * rewrite list_lookup_insert_eq by done. intros [= <-].
        unfold job_sound. simpl_job. repeat split; try done; try (by eexists); lia.
      * rewrite list_lookup_insert_ne by done. apply Hjs.
    + intros a' x. destruct (decide (a' = a)) as [->|Hne].
      * rewrite list_lookup_insert_eq by done. by intros [= <-].
      * rewrite list_lookup_insert_ne by done. by apply Hin.
    + intros bid b Hl.
      apply (batch_sound_ext (objects s) _ bid b b); try done.
      * by apply Hbs.
      * by destruct (Hbs bid b Hl) as (_ & ? & _).
      * intros a' x Hx. destruct (decide (a' = a)) as [->|Hne].
        -- rewrite list_lookup_insert_eq by done. eexists. split; [done|].
           cbn. congruence.
        -- rewrite list_lookup_insert_ne by done. by exists x.
    + rewrite Hact. unfold active_entry. rewrite Hcur.
      by rewrite insert_empty.
    + done.
    + rewrite (count_status_insert _ _ _ job) by done.
      rewrite Hst. cbn [job_status set_started_at set_status].
      rewrite !decide_False by done. lia.
    + rewrite (count_status_insert _ _ _ job) by done.
      rewrite Hst. cbn [job_status set_started_at set_status].
      rewrite !decide_False by done. lia.
Qed.

Lemma aggregate_fields (js : list BatchJob) (b : BatchRequest nat) :
  batch_id (aggregate js b) = batch_id b ∧
  batch_name (aggregate js b) = batch_name b ∧
  (batch_status (aggregate js b) = batch_status b ∨
   batch_status (aggregate js b) = COMPLETED ∨
   batch_status (aggregate js b) = FAILED).
Proof.
  assert (Hst : aggregate_status (count_status COMPLETED js)
                  (count_status FAILED js) = COMPLETED ∨
                aggregate_status (count_status COMPLETED js)
                  (count_status FAILED js) = FAILED).
  { unfold aggregate_status. repeat case_match; auto. }
  unfold aggregate. repeat case_match;
    cbn [batch_id batch_name batch_status set_counts set_batch_status
         set_actual_duration]; (split; [done|]); (split; [done|]);
    by (left + right).
Qed.

Lemma sound_finish (o : outcome) (now : datetime) (s : Service) :
  well_formed s → sound s → sound (finish_job o now s).
Proof.
  intros Hwf Hs. destruct (current s) as [a|] eqn:Hcur;
    [|unfold finish_job; by rewrite Hcur].
  destruct Hwf as (_ & (Hnd & Hq) & Hc).
  destruct Hs as (Hjs & Hpend & Hbs & Hact & Hw & Hp & Hf).
  destruct (Hc a Hcur) as (job & Hjob & Hproc).
  destruct (finish_job_exact o now s a job Hcur Hjob)
    as (Hobj & Hact' & _ & Hw' & Hp' & Hf').
  destruct (finish_job_spec o now s a job Hcur Hjob)
    as (job1 & _ & Hobj1 & Hcur' & Htab & Hqueue).
  cbn zeta in *.
  set (job' := match o with
               | Returned r => complete_job now r job
               | Raised msg =>
                 if retry_count job <? max_retries job
                 then retry_job (fail_job now msg job) else fail_job now msg job
               end) in *.
  assert (Ha : (a < length (objects s))%nat) by (by eapply lookup_lt_Some).
  assert (job1 = job') as ->.
  { assert (H1 : objects (finish_job o now s) !! a = Some job1)
      by (rewrite Hobj1; by apply list_lookup_insert_eq).
    rewrite Hobj, list_lookup_insert_eq in H1 by done. congruence. }
  clear Hobj1.
  assert (Hid : job_id job' = job_id job).
  { subst job'. destruct o; [done|]. by destruct (_ <? _). }
  pose proof (Hjs a job Hjob) as (Hmax & Hrc & Hk & Hfields).
  rewrite Hproc in Hfields. destruct Hfields as (Hst & Hco & He & Hpr & Hres).
  assert (Hsound' : job_sound job').
  { subst job'. destruct o as [r|msg].
    - unfold job_sound. simpl_job. repeat split; try done; try (by eexists); lia.
    - destruct (Z.ltb_spec (retry_count job) (max_retries job)).
      + unfold job_sound. simpl_job. repeat split; try done; lia.
      + unfold job_sound. simpl_job.
        repeat split; try done; try (by eexists); lia. }
  assert (Hnotq : a ∉ job_queue s).
  { intros Hin. by destruct (Hq a Hin) as (Hne & _). }
  assert (Hact0 : active_jobs s = {[job_id job := a]}).
  { rewrite Hact. unfold active_entry. by rewrite Hcur, Hjob. }
  split; [|split; [|split; [|split; [|split; [|split]]]]].
  - intros a' x. rewrite Hobj. destruct (decide (a' = a)) as [->|Hne].
    + rewrite list_lookup_insert_eq by done. by intros [= <-].
    + rewrite list_lookup_insert_ne by done. apply Hjs.
  - intros a' x. rewrite Hobj. destruct (decide (a' = a)) as [->|Hne].
    + rewrite list_lookup_insert_eq by done. intros [= <-] Hpx.
      destruct Hqueue as [[_ ->]|[[Hx|Hx] _]]; [|congruence..].
      rewrite heappush_Permutation. apply elem_of_cons. by left.
    + rewrite list_lookup_insert_ne by done. intros Hx Hpx.
      specialize (Hpend a' x Hx Hpx).
      destruct Hqueue as [[_ ->]|[_ ->]]; [|done].
      rewrite heappush_Permutation. apply elem_of_cons. by right.
  - intros bid b'. rewrite Htab, Hobj. intros Hl.
    assert (Hext : ∀ a' x, objects s !! a' = Some x →
              ∃ x', <[a := job']> (objects s) !! a' = Some x' ∧
                    job_id x' = job_id x).
    { intros a' x Hx. destruct (decide (a' = a)) as [->|Hne].
      - rewrite list_lookup_insert_eq by done. exists job'.
        split; [done|]. congruence.
      - rewrite list_lookup_insert_ne by done. by exists x. }
    destruct (batch_requests s !! split_head (job_id job)) as [b|] eqn:Hbid.
    + apply lookup_insert_Some in Hl as [[<- <-]|[Hne Hl]].
      * destruct (aggregate_counts
                    (deref (<[a := job']> (objects s)) (jobs b)) b)
          as (_ & _ & _ & Hjobs & _).
        destruct (aggregate_fields
                    (deref (<[a := job']> (objects s)) (jobs b)) b)
          as (Hbid' & _ & Hst').
        apply (batch_sound_ext (objects s) _ _ b); try done; [by apply Hbs|].
        destruct (Hbs _ b Hbid) as (_ & Hnp & _).
        destruct Hst' as [-> |[-> | ->]]; done.
      * apply (batch_sound_ext (objects s) _ bid b' b'); try done;
          [by apply Hbs|]. by destruct (Hbs bid b' Hl) as (_ & ? & _).
    + apply (batch_sound_ext (objects s) _ bid b' b'); try done;
        [by apply Hbs|]. by destruct (Hbs bid b' Hl) as (_ & ? & _).
  - rewrite Hact', Hact0. unfold active_entry. rewrite Hcur'.
    by rewrite delete_singleton_eq.
  - rewrite Hw', Hact0. by rewrite delete_singleton_eq.
  - rewrite Hp', Hp, Hobj, (count_status_insert _ _ _ job) by done.
    rewrite Hproc, decide_False by done. subst job'. destruct o as [r|msg].
    + simpl_job. case_decide; first [lia|done].
    + destruct (_ <? _); simpl_job; case_decide; first [lia|done].
  - rewrite Hf', Hf, Hobj, (count_status_insert _ _ _ job) by done.
    rewrite Hproc, decide_False by done. subst job'. destruct o as [r|msg].
    + simpl_job. case_decide; first [lia|done].
    + destruct (_ <? _); simpl_job; case_decide; first [lia|done].
Qed.

Lemma sound_cancel (bid : string) (s : Service) :
  well_formed s → sound s → sound (cancel_batch bid s).1.
Proof.
  intros (_ & _ & Hc) (Hjs & Hpend & Hbs & Hact & Hw & Hp & Hf).
  destruct (batch_requests s !! bid) as [b|] eqn:Hbid;
    [|by rewrite cancel_batch_missing].
  rewrite (cancel_batch_found bid s b Hbid). unfold sound. simpl_state.
  assert (Hext : ∀ a job, objects s !! a = Some job →
            ∃ job', fold_left cancel_job (jobs b) (objects s) !! a = Some job' ∧
                    job_id job' = job_id job ∧
                    (job' = job ∨
                     (job_status job = PENDING ∧
                      job' = set_status CANCELLED job))).
  { intros a job Hj. rewrite cancel_jobs_lookup, Hj.
    cbn [fmap option_fmap option_map].
    destruct (decide (a ∈ jobs b ∧ job_status job = PENDING)) as [[_ Hst]|_].
    - eexists. split; [done|]. split; [done|]. by right.
    - exists job. split; [done|]. split; [done|]. by left. }
  assert (Hback : ∀ a job', fold_left cancel_job (jobs b) (objects s) !! a
                            = Some job' →
            ∃ job, objects s !! a = Some job ∧
                   (job' = job ∨
                    (job_status job = PENDING ∧
                     job' = set_status CANCELLED job))).
  { intros a job'. rewrite cancel_jobs_lookup.
    destruct (objects s !! a) as [job|] eqn:Hj; [|done].
    cbn [fmap option_fmap option_map]. intros [= <-]. exists job.
    split; [done|]. case_decide as Hd; [right|by left].
    by destruct Hd. }
  split; [|split; [|split; [|split; [|split; [|split]]]]].
  - intros a job' Hl. destruct (Hback a job' Hl) as (job & Hj & [->|[Hst ->]]).
    + by eapply Hjs.
    + pose proof (Hjs a job Hj) as (? & ? & ? & Hfields).
      rewrite Hst in Hfields. destruct Hfields as (? & ? & ? & ? & ?).
      unfold job_sound. simpl_job. repeat split; try done; lia.
  - intros a job' Hl Hst'.
    destruct (Hback a job' Hl) as (job & Hj & [->|[_ ->]]); [|done].
    by eapply Hpend.
  - intros k b' Hl. apply lookup_insert_Some in Hl as [[<- <-]|[Hne Hl]].
    + apply (batch_sound_ext (objects s) _ bid b); try done; [by apply Hbs|].
      intros a job Hj. destruct (Hext a job Hj) as (job' & ? & ? & _). eauto.
    + apply (batch_sound_ext (objects s) _ k b' b'); try done.
      * by apply Hbs.
      * by destruct (Hbs k b' Hl) as (_ & ? & _).
      * intros a job Hj. destruct (Hext a job Hj) as (job' & ? & ? & _). eauto.
  - rewrite Hact. symmetry. apply active_entry_ext; [done| |].
    + intros a job _ Hj. destruct (Hext a job Hj) as (job' & ? & ? & _). eauto.
    + intros a Ha. destruct (Hc a Ha) as (job & -> & _). by eexists.
  - done.
  - by rewrite count_status_cancel.
  - by rewrite count_status_cancel.
Qed.

Lemma cleanup_old_batches_rest (clock : nat → datetime) (days_old : Z)
    (s : Service) :
  let s' := (cleanup_old_batches clock days_old s).1 in
  active_jobs s' = active_jobs s ∧ stats s' = stats s ∧
  max_workers s' = max_workers s ∧
  batch_requests s' ⊆ batch_requests s ∧
  finished_jobs s' ⊆ finished_jobs s.
Proof.
  unfold cleanup_old_batches.
  destruct (dt_sub_days (clock 0%nat) days_old); [|done].
  destruct (dt_sub_days (clock 1%nat) days_old); simpl_state;
    repeat split; try done; apply map_filter_subseteq.
Qed.

Lemma sound_cleanup (clock : nat → datetime) (days_old : Z) (s : Service) :
  sound s → sound (cleanup_old_batches clock days_old s).1.
Proof.
  intros (Hjs & Hpend & Hbs & Hact & Hw & Hp & Hf).
  destruct (cleanup_old_batches_objects clock days_old s) as (Hobj & Hq & Hcur).
  destruct (cleanup_old_batches_rest clock days_old s)
    as (Hact' & Hst & _ & Htab & _).
  cbn zeta in *. unfold sound, active_entry. rewrite Hobj, Hq, Hcur, Hact', Hst.
  split; [done|]. split; [done|]. split; [|done].
  intros bid b Hl. apply Hbs. by eapply lookup_weaken.
Qed.

Lemma sound_step (s s' : Service) :
  well_formed s → sound s → step s s' → sound s'.
Proof.
  intros Hwf Hs Hstep. destruct Hstep.
  - by apply sound_create.
  - by apply sound_create.
  - by apply sound_create.
  - by apply sound_take.
  - by apply sound_finish.
  - by apply sound_cancel.
  - by apply sound_cleanup.
Qed.

Lemma sound_rtc (s s' : Service) :
  well_formed s → sound s → rtc step s s' → sound s'.
Proof.
  intros Hwf Hs H. induction H as [|s1 s2 s3 Hstep _ IH]; [done|].
  apply IH; [by eapply well_formed_step|by eapply sound_step].
Qed.

Lemma reachable_sound (s : Service) : reachable s → sound s.
Proof.
  intros [w H]. eapply sound_rtc; [apply well_formed_init|apply sound_init|done].
Qed.

(** ** Invariants of the running service *)

(** A job that is neither Pending nor Processing is left as it is by every
    transition. *)
Lemma settled_job_step (s s' : Service) (a : nat) (job : BatchJob) :
  well_formed s → step s s' →
  objects s !! a = Some job →
  job_status job ≠ PENDING → job_status job ≠ PROCESSING →
  objects s' !! a = Some job.
Proof.
  intros Hwf Hstep Hjob Hnp Hnr.
  destruct (decide (job_status job = CANCELLED)) as [Hcan|Hcan];
    [by eapply cancelled_job_step|].
  pose proof Hwf as (_ & (_ & Hq) & Hc).
  assert (Hcreate : ∀ kind label uuid clock requests name p,
    objects (create_batch kind label uuid clock requests name p s).1 !! a
    = Some job).
  { intros. destruct (create_batch_spec kind label uuid clock requests name p s)
      as (? & ? & ? & _ & Hobj & _).
    cbn zeta in Hobj. rewrite Hobj, lookup_app_l; [done|].
    by eapply lookup_lt_Some. }
  destruct Hstep as [| | |now s Hcur|task now s Hcur|bid s|clock days_old s].
  - apply Hcreate.
  - apply Hcreate.
  - apply Hcreate.
  - unfold take_job.
    destruct (heappop (lt_at (objects s)) (job_queue s)) as [[a' queue]|] eqn:Hpop;
      [|done].
    apply heappop_Permutation in Hpop.
    destruct (Hq a') as (_ & job' & Hjob' & Hst');
      [rewrite Hpop; apply elem_of_cons; by left|].
    simpl_state. rewrite Hjob'.
    destruct (decide (job_status job' = CANCELLED)); [done|].
    rewrite (begin_job_spec now a' _ job') by done. simpl_state.
    rewrite list_lookup_insert_ne; [done|]. intros ->.
    destruct Hst'; congruence.
  - destruct Hcur as [c Hcur].
    destruct (Hc c Hcur) as (x & Hx & Hproc).
    assert (c ≠ a) by (intros ->; congruence).
    unfold resume.
    destruct (finish_job_spec (current_outcome task s) now s c x Hcur Hx)
      as (x' & _ & -> & _).
    by rewrite list_lookup_insert_ne.
  - destruct (batch_requests s !! bid) as [b|] eqn:Hb.
    + rewrite (cancel_batch_found bid s b Hb). simpl_state.
      rewrite cancel_jobs_lookup, Hjob. cbn [fmap option_fmap option_map].
      rewrite decide_False; [done|]. by intros [_ ?].
    + by rewrite cancel_batch_missing.
  - by destruct (cleanup_old_batches_objects clock days_old s) as (-> & _).
Qed.

(** X2. A job that is Completed or Failed in a reachable state is final:
    whatever the service does afterwards, the job object keeps every one
    of its fields, it is not on the queue and the worker never holds it
    again. *)
Theorem finished_job_is_final (s : Service) (a : nat) (job : BatchJob) :
  reachable s → objects s !! a = Some job →
  job_status job = COMPLETED ∨ job_status job = FAILED →
  ∀ s', rtc step s s' →
    objects s' !! a = Some job ∧ (a ∉ job_queue s') ∧ current s' ≠ Some a.
Proof.
  intros Hreach Hjob Hst s' Hsteps.
  apply reachable_well_formed in Hreach.
  assert (Hinv : well_formed s' ∧ objects s' !! a = Some job).
  { induction Hsteps as [|s1 s2 s3 Hstep _ IH]; [done|].
    apply IH; [by eapply well_formed_step|].
    eapply settled_job_step; try done; destruct Hst; congruence. }
  destruct Hinv as ((_ & (_ & Hq) & Hc) & Hjob').
  split; [done|]. split.
  - intros Hin. destruct (Hq a Hin) as (_ & x & Hx & Hsx).
    destruct Hst, Hsx; congruence.
  - intros Hcur. destruct (Hc a Hcur) as (x & Hx & Hproc).
    destruct Hst; congruence.
Qed.

Lemma finished_job_is_final_witness :
  ∃ job,
    objects one_completed !! 0%nat = Some job ∧
    job_status job = COMPLETED ∧
    objects (cancel_batch demo_id one_completed).1 !! 0%nat = Some job.
Proof.
  eassert (Hjob : objects one_completed !! 0%nat = Some _)
    by (vm_compute; reflexivity).
  eexists. split; [exact Hjob|]. split; [reflexivity|].
  apply (finished_job_is_final one_completed 0 _ reachable_one_completed Hjob
           (or_introl eq_refl)).
  apply rtc_once, step_cancel.
Defined.

(** X3. The fields of a job follow its status in every reachable state:
    [max_retries] is 3 and [retry_count] lies between 0 and 3; the type is
    video, audio or translation; a Pending or Cancelled job has no
    timestamp, no error and no result; a Processing job has [started_at]
    only; a Completed job has both timestamps and no error; a Failed job
    has both timestamps, an error and [retry_count = 3]; [progress] is 100
    for a Completed job and 0 for every other. *)
Theorem job_fields_follow_status (s : Service) (a : nat) (job : BatchJob) :
  reachable s → objects s !! a = Some job → job_sound job.
Proof.
  intros Hreach Hjob. by destruct (reachable_sound s Hreach) as (Hjs & _);
    eapply Hjs.
Qed.

Lemma job_fields_follow_status_witness :
  ∃ job,
    objects one_completed !! 0%nat = Some job ∧ job_status job = COMPLETED ∧
    job_sound job.
Proof.
  eassert (Hjob : objects one_completed !! 0%nat = Some _)
    by (vm_compute; reflexivity).
  eexists. split; [exact Hjob|]. split; [reflexivity|].
  exact (job_fields_follow_status one_completed 0 _ reachable_one_completed
           Hjob).
Defined.

(** X5. [self.active_jobs] holds the job the worker is running, under its
    id, and nothing else; the statistic [active_workers], which is written
    only after that job has been taken out again, is 0 in every reachable
    state, also while a job is running. *)
Theorem active_workers_is_always_zero (s : Service) :
  reachable s →
  active_jobs s = active_entry s ∧
  (size (active_jobs s) ≤ 1)%nat ∧
  active_workers (stats s) = 0 ∧
  ∀ is_running,
    dict_lookup "active_workers" (get_service_stats is_running s)
    = Some (VInt 0).
Proof.
  intros Hreach.
  destruct (reachable_sound s Hreach) as (_ & _ & _ & Hact & Hw & _).
  split; [done|]. split.
  - rewrite Hact. unfold active_entry.
    destruct (current s) as [a|]; [|by rewrite map_size_empty; lia].
    destruct (objects s !! a); [by rewrite map_size_singleton|].
    rewrite map_size_empty. lia.
  - split; [done|]. intros r. unfold get_service_stats. by rewrite Hw.
Qed.

Lemma active_workers_is_always_zero_witness :
  current one_running = Some 0%nat ∧
  size (active_jobs one_running) = 1%nat ∧
  active_workers (stats one_running) = 0.
Proof.
  destruct (active_workers_is_always_zero one_running reachable_one_running)
    as (_ & _ & Hw & _).
  split; [by vm_compute|]. split; [by vm_compute|exact Hw].
Defined.

(** X6. No batch of a reachable state has the status Processing: a batch
    stays Pending until the aggregator or [cancel_batch] gives it a
    terminal status. [get_service_stats] therefore reports 0 active
    batches, whatever the worker is doing. Every batch is stored under its
    own id. *)
Theorem no_batch_is_processing (s : Service) :
  reachable s →
  (∀ bid b, batch_requests s !! bid = Some b →
            batch_id b = bid ∧ batch_status b ≠ PROCESSING) ∧
  active_batches s = 0 ∧
  ∀ is_running,
    dict_lookup "active_batches" (get_service_stats is_running s)
    = Some (VInt 0).
Proof.
  intros Hreach. destruct (reachable_sound s Hreach) as (_ & _ & Hbs & _).
  assert (Hall : ∀ bid b, batch_requests s !! bid = Some b →
                          batch_id b = bid ∧ batch_status b ≠ PROCESSING).
  { intros bid b Hl. by destruct (Hbs bid b Hl) as (? & ? & _). }
  assert (Hzero : active_batches s = 0).
  { unfold active_batches.
    rewrite map_empty_filter_2; [done|].
    intros bid b Hl. cbn [snd]. by destruct (Hall bid b Hl). }
  split; [done|]. split; [done|]. intros r. unfold get_service_stats.
  by rewrite Hzero.
Qed.

Lemma no_batch_is_processing_witness :
  current one_running = Some 0%nat ∧
  (∃ b, batch_requests one_running !! demo_id = Some b ∧
        batch_status b = PENDING) ∧
  active_batches one_running = 0.
Proof.
  destruct (no_batch_is_processing one_running reachable_one_running)
    as (_ & Hz & _).
  split; [by vm_compute|]. split; [|exact Hz].
  eexists. split; [vm_compute; reflexivity|reflexivity].
Defined.

(** X7. Job ids are unique in the table of a reachable state: two jobs of
    the table that carry the same id belong to the same batch and are the
    same object, so that the dictionaries keyed by job id never confuse
    two jobs. *)
Theorem job_ids_are_unique (s : Service) (bid bid' : string)
    (b b' : BatchRequest nat) (a a' : nat) (job job' : BatchJob) :
  reachable s →
  batch_requests s !! bid = Some b → batch_requests s !! bid' = Some b' →
  a ∈ jobs b → a' ∈ jobs b' →
  objects s !! a = Some job → objects s !! a' = Some job' →
  job_id job = job_id job' →
  bid = bid' ∧ a = a'.
Proof.
  intros Hreach Hb Hb' Ha Ha' Hjob Hjob' Hid.
  destruct (reachable_well_formed s Hreach) as (Hwf & _).
  destruct (reachable_sound s Hreach) as (_ & _ & Hbs & _).
  destruct (Hwf bid b Hb) as (_ & Hpre & _).
  destruct (Hwf bid' b' Hb') as (_ & Hpre' & _).
  destruct (Hpre a Ha) as (x & Hx & Hhead).
  destruct (Hpre' a' Ha') as (x' & Hx' & Hhead').
  assert (x = job) as -> by congruence.
  assert (x' = job') as -> by congruence.
  assert (bid' = bid) as -> by congruence.
  assert (b' = b) as -> by congruence.
  split; [done|].
  destruct (Hbs bid b Hb) as (_ & _ & kind & Hids).
  apply list_elem_of_lookup in Ha as [i Hi].
  apply list_elem_of_lookup in Ha' as [i' Hi'].
  destruct (Hids i a Hi) as (y & Hy & Hyid).
  destruct (Hids i' a' Hi') as (y' & Hy' & Hyid').
  assert (y = job) as -> by congruence.
  assert (y' = job') as -> by congruence.
  rewrite Hyid, Hyid' in Hid. unfold make_job_id in Hid.
  do 4 apply String.app_inj in Hid. apply pretty_nat_inj in Hid.
  congruence.
Qed.

Lemma job_ids_are_unique_witness :
  ∃ b job,
    batch_requests one_running !! demo_id = Some b ∧
    jobs b = [0; 1; 2]%nat ∧
    objects one_running !! 1%nat = Some job ∧
    demo_id = demo_id ∧ 1%nat = 1%nat.
Proof.
  eassert (Hb : batch_requests one_running !! demo_id = Some _)
    by (vm_compute; reflexivity).
  eassert (Hjob : objects one_running !! 1%nat = Some _)
    by (vm_compute; reflexivity).
  eexists _, _. split; [exact Hb|]. split; [reflexivity|].
  split; [exact Hjob|].
  refine (job_ids_are_unique one_running demo_id demo_id _ _ 1 1 _ _
            reachable_one_running Hb Hb _ _ Hjob Hjob eq_refl);
    apply elem_of_cons; right; apply elem_of_cons; by left.
Defined.

(** ** Restart *)

Lemma load_batches_rest (items : pydict) :
  ∀ s : Service,
    let s' := load_batches items s in
    job_queue s' = job_queue s ∧ current s' = current s ∧
    active_jobs s' = active_jobs s ∧ finished_jobs s' = finished_jobs s ∧
    stats s' = stats s ∧ max_workers s' = max_workers s ∧ disk s' = disk s.
Proof.
  induction items as [|[key v] items IH]; intros s; cbn [load_batches]; [done|].
  destruct (batch_of_json v) as [b|]; [|done].
  destruct (IH (install_batch key b s)) as (-> & -> & -> & -> & -> & -> & ->).
  done.
Qed.

Lemma start_service_rest (workers : Z) (file : option pyval) :
  let s := start_service workers file in
  job_queue s = [] ∧ current s = None ∧ active_jobs s = ∅ ∧
  finished_jobs s = ∅ ∧ stats s = mkStats 0 0 0%float 0 0 ∧
  max_workers s = workers ∧ disk s = file.
Proof.
  unfold start_service, _load_persistent_data.
  change (disk (empty_service workers file)) with file.
  destruct file as [[| | | | | |data]|]; try done.
  destruct (dict_get "batch_requests" (VDict []) data); try done.
  apply load_batches_rest.
Qed.

(** X8. A service that starts on a file, whatever the file holds, has an
    empty queue, an idle worker, empty [active_jobs] and [completed_jobs]
    and statistics at zero: the loader restores the table of batches only.
    The worker loop then finds nothing to do, so that the jobs the file
    holds as Pending are never run, and the statistics the file holds are
    never read. *)
Theorem restart_forgets_the_queue (workers : Z) (file : option pyval) :
  let s := start_service workers file in
  job_queue s = [] ∧ current s = None ∧
  active_jobs s = ∅ ∧ finished_jobs s = ∅ ∧
  stats s = mkStats 0 0 0%float 0 0 ∧
  ∀ n task clock, run_worker n task clock s = (s, replicate n Idle).
Proof.
  destruct (start_service_rest workers file) as (Hq & Hc & Ha & Hf & Hs & _).
  cbn zeta. repeat split; try done.
  intros n task clock. induction n as [|n IH]; [done|].
  cbn [run_worker]. unfold _process_queue_iteration, take_job.
  rewrite Hq. cbn. by rewrite IH.
Qed.

(** What [get_batch_status] answers depends on the table of batches as a
    reader sees it only. *)
Lemma get_batch_status_snapshot (bid : string) (s : Service) :
  get_batch_status bid s
  = (fun b => batch_status_dict b (jobs b)) <$> snapshot s !! bid.
Proof.
  unfold get_batch_status, snapshot. rewrite lookup_fmap.
  by destruct (batch_requests s !! bid).
Qed.

Lemma snapshot_restart (workers : Z) (s : Service) :
  timestamps_valid s = true →
  snapshot (restart workers (_save_persistent_data s)) = snapshot s.
Proof.
  intros Hv. unfold restart, start_service, _load_persistent_data,
    _save_persistent_data.
  change (disk (empty_service workers (disk (set_disk (Some (persistent_data s)) s))))
    with (Some (persistent_data s)).
  unfold persistent_data.
  change (dict_get "batch_requests" (VDict []) ?d)
    with (VDict (map (fun kb => (kb.1, batch_to_json kb.2))
                     (map_to_list (snapshot s)))).
  cbv iota.
  destruct (load_batches_lookup (map_to_list (snapshot s))
              (empty_service workers (Some (persistent_data s)))
              (closed_empty _ _) (NoDup_fst_map_to_list _) Hv) as [Ha Hb].
  fold (persistent_data s). apply map_eq. intros k.
  destruct (snapshot s !! k) as [v|] eqn:Hk.
  - apply Ha. by apply elem_of_map_to_list.
  - rewrite Hb.
    + unfold snapshot, empty_service. simpl_state.
      by rewrite fmap_empty, lookup_empty.
    + intros Hin. apply list_elem_of_fmap in Hin as [[k' v'] [-> Hin]].
      apply elem_of_map_to_list in Hin. cbn [fst] in Hk. congruence.
Qed.

(** X9. A restart does not change what the service answers about a batch:
    after the table has been saved, a new service started on the file
    gives, for every batch id, the same result of [get_batch_status] as the
    old one: the same fields, counters, statuses per job and timestamps. *)
Theorem restart_answers_the_same (workers : Z) (s : Service) (bid : string) :
  timestamps_valid s = true →
  get_batch_status bid (restart workers (_save_persistent_data s))
  = get_batch_status bid s.
Proof.
  intros Hv. by rewrite !get_batch_status_snapshot, snapshot_restart.
Qed.

Lemma restart_answers_the_same_witness :
  get_batch_status demo_id
    (restart 2 (_save_persistent_data two_completed_one_pending))
  = get_batch_status demo_id two_completed_one_pending.
Proof. apply restart_answers_the_same. by vm_compute. Defined.

(** ** Queries *)




(** ** Submission *)

Lemma created_jobs_inputs bid kind p clock requests :
  ∀ i, input_data <$> created_jobs bid kind p clock i requests = requests.
Proof.
  induction requests as [|r rest IH]; intros i; [done|].
  cbn [created_jobs fmap list_fmap]. f_equal. apply IH.
Qed.

Lemma created_jobs_fresh bid kind p clock requests :
  ∀ i, Forall (fun job => job_status job = PENDING ∧ priority job = p ∧
                          retry_count job = 0 ∧ job_type job = kind)
         (created_jobs bid kind p clock i requests).
Proof.
  induction requests as [|r rest IH]; intros i; [by constructor|].
  cbn [created_jobs]. constructor; [done|apply IH].
Qed.

(** The batch a submission stores, with the estimate it computes. *)
Lemma create_batch_exact kind label uuid clock requests name p s :
  ∃ name' clock',
    let new := created_jobs (uuid_str uuid) kind p clock' 0 requests in
    let s' := (create_batch kind label uuid clock requests name p s).1 in
    objects s' = objects s ++ new ∧
    batch_requests s' =
      <[uuid_str uuid :=
          mkBatchRequest (uuid_str uuid) name'
            (seq (length (objects s)) (length requests))
            (clock' (length requests)) (Z.of_nat (length requests)) 0 0
            PENDING (Some (_estimate_batch_duration (max_workers s) new))
            None]> (batch_requests s).
Proof.
  unfold create_batch.
  set (nc := match name with
             | Some n =>
               if String.eqb n "" then (label +:+ strftime_compact (clock 0%nat),
                                        fun k => clock (S k))
               else (n, clock)
             | None => (label +:+ strftime_compact (clock 0%nat),
                        fun k => clock (S k))
             end).
  destruct nc as [name' clock'].
  destruct (enqueue_jobs_spec (uuid_str uuid) kind p clock' requests 0%nat
              (objects s) (job_queue s) []) as [q' ->].
  exists name', clock'. cbn zeta. simpl_state. split; [done|].
  cbn [app]. rewrite length_seq.
  set (new := created_jobs (uuid_str uuid) kind p clock' 0 requests).
  assert (Hd : deref (objects s ++ new)
                 (seq (length (objects s)) (length requests)) = new).
  { rewrite <- (created_jobs_length (uuid_str uuid) kind p clock' requests 0%nat).
    apply deref_app_seq. }
  by rewrite Hd.
Qed.

Lemma create_cases
    (create : Z → (nat → datetime) → list pydict → option string →
              JobPriority → Service → Service * string) :
  create ∈ [create_video_batch; create_audio_batch; create_translation_batch] →
  ∃ kind label, create = create_batch kind label ∧ known_type kind = true.
Proof.
  intros Hc.
  apply elem_of_cons in Hc as [->|Hc];
    [by exists "video", "Video Batch "|].
  apply elem_of_cons in Hc as [->|Hc];
    [by exists "audio", "Audio Batch "|].
  apply elem_of_cons in Hc as [->|Hc];
    [by exists "translation", "Translation Batch "|].
  by apply not_elem_of_nil in Hc.
Qed.

(** X13. A submission, in any state of the service, adds one job object per
    request, in the order of the requests, each Pending, not yet retried,
    with the payload of its request and the priority of the batch; it puts
    exactly these jobs on the queue, stores the batch under the id it
    returns and leaves every other batch, every existing job and the
    worker as they are. The statistic [queue_size] is the length of the
    queue afterwards. *)
Theorem submission_adds_only_its_jobs :
  ∀ create,
    create ∈ [create_video_batch; create_audio_batch; create_translation_batch] →
    ∀ uuid clock requests name p s,
      let r := create uuid clock requests name p s in
      r.2 = uuid_str uuid ∧
      (∃ new,
         objects r.1 = objects s ++ new ∧
         input_data <$> new = requests ∧
         Forall (fun job => job_status job = PENDING ∧ priority job = p ∧
                            retry_count job = 0) new) ∧
      job_queue r.1 ≡ₚ job_queue s ++ seq (length (objects s)) (length requests) ∧
      (∀ bid, bid ≠ r.2 → batch_requests r.1 !! bid = batch_requests s !! bid) ∧
      current r.1 = current s ∧
      queue_size (stats r.1) = Z.of_nat (length (job_queue r.1)).
Proof.
  intros create Hc uuid clock requests name p s.
  destruct (create_cases create Hc) as (kind & label & -> & _). cbn zeta.
  destruct (create_batch_spec kind label uuid clock requests name p s)
    as (name' & clock' & est & Hid & Hobj & Htab & _).
  destruct (create_batch_queue kind label uuid clock requests name p s)
    as (Hqueue & Hcur).
  destruct (create_batch_rest kind label uuid clock requests name p s)
    as (_ & _ & _ & _ & Hsize).
  cbn zeta in *. split; [done|]. split.
  { eexists. split; [exact Hobj|]. split; [apply created_jobs_inputs|].
    eapply Forall_impl; [apply created_jobs_fresh|]. by intros job (? & ? & ? & _). }
  split; [done|]. split; [|done].
  intros bid Hne. rewrite Htab, lookup_insert_ne; [done|]. congruence.
Qed.

Lemma submission_adds_only_its_jobs_witness :
  let r := create_audio_batch 255 morning [request "a"; request "b"]
             (Some "demo") HIGH one_running in
  r.2 = uuid_str 255 ∧
  length (objects r.1) = 5%nat ∧
  job_queue r.1 ≡ₚ [1; 2; 3; 4]%nat ∧
  current r.1 = Some 0%nat.
Proof.
  destruct (submission_adds_only_its_jobs create_audio_batch
              ltac:(apply elem_of_cons; right; apply elem_of_cons; by left)
              255 morning [request "a"; request "b"] (Some "demo") HIGH
              one_running) as (Hid & (new & Hobj & Hin & _) & Hq & _ & Hcur & _).
  split; [exact Hid|]. split; [by vm_compute|]. split; [|by vm_compute].
  rewrite Hq. by vm_compute.
Defined.

(** ** Routes *)

(** X14. A submission route answers with the id of the new batch, the
    number of jobs and the estimate of the service; the batch is then
    known to [get_batch_status], which shows it Pending with counters at
    zero and one entry per request; every job has the priority
    [parse_priority] reads from the priority string of the request. *)
Theorem route_submission_reports_the_batch :
  ∀ create,
    create ∈ [create_video_batch; create_audio_batch; create_translation_batch] →
    ∀ noun uuid clock requests name priority_str s,
      let r := create_batch_route create noun uuid clock requests name
                 priority_str s in
      ∃ new d estimate,
        objects r.1 = objects s ++ new ∧
        Forall (fun job => priority job = parse_priority priority_str ∧
                           job_status job = PENDING) new ∧
        r.2 = Ok (mkBatchResponse (uuid_str uuid)
                    (noun +:+ " batch created successfully with " +:+
                     pretty (length requests) +:+ " jobs")
                    (Z.of_nat (length requests)) (Some estimate)) ∧
        estimate = _estimate_batch_duration (max_workers s) new ∧
        get_batch_status (uuid_str uuid) r.1 = Some d ∧
        dict_lookup "id" d = Some (VStr (uuid_str uuid)) ∧
        dict_lookup "status" d = Some (VStr "pending") ∧
        dict_lookup "total_jobs" d = Some (VInt (Z.of_nat (length requests))) ∧
        dict_lookup "completed_jobs" d = Some (VInt 0) ∧
        dict_lookup "failed_jobs" d = Some (VInt 0) ∧
        dict_lookup "estimated_duration" d = Some (VFloat estimate) ∧
        dict_lookup "jobs" d = Some (VList (map job_info new)) ∧
        length new = length requests.
Proof.
  intros create Hc noun uuid clock requests name priority_str s.
  destruct (create_cases create Hc) as (kind & label & -> & _).
  unfold create_batch_route.
  destruct (create_batch_spec kind label uuid clock requests name
              (parse_priority priority_str) s) as (_ & _ & _ & Hid & _).
  destruct (create_batch_exact kind label uuid clock requests name
              (parse_priority priority_str) s) as (name' & clock' & Hobj & Htab).
  cbn zeta in *.
  destruct (create_batch kind label uuid clock requests name
              (parse_priority priority_str) s) as [s' bid].
  cbn [fst snd] in *. subst bid.
  set (new := created_jobs (uuid_str uuid) kind (parse_priority priority_str)
                clock' 0 requests) in *.
  assert (Hlen : length new = length requests) by apply created_jobs_length.
  assert (Hst : get_batch_status (uuid_str uuid) s' = Some
            (batch_status_dict
               (mkBatchRequest (uuid_str uuid) name'
                  (seq (length (objects s)) (length requests))
                  (clock' (length requests)) (Z.of_nat (length requests)) 0 0
                  PENDING
                  (Some (_estimate_batch_duration (max_workers s) new)) None)
               new)).
  { unfold get_batch_status. rewrite Htab, lookup_insert_eq. cbn [jobs].
    by rewrite Hobj, <- Hlen, deref_app_seq. }
  rewrite Hst.
  eexists new, _, (_estimate_batch_duration (max_workers s) new).
  split; [done|]. split.
  { eapply Forall_impl; [apply created_jobs_fresh|]. by intros job (? & ? & _). }
  split; [reflexivity|]. split; [reflexivity|]. split; [reflexivity|].
  by repeat split.
Qed.

Lemma route_submission_reports_the_batch_witness :
  let r := create_audio_batch_route 255 morning
             [mkAudioJobRequest "hello" "out.mp3" "female" "medium" "en"]
             (Some "demo") "URGENT" (empty_service 4 None) in
  ∃ resp, r.2 = Ok resp ∧ response_total_jobs resp = 1 ∧
          priority <$> objects r.1 = [URGENT].
Proof.
  destruct (route_submission_reports_the_batch create_audio_batch
              ltac:(apply elem_of_cons; right; apply elem_of_cons; by left)
              "Audio" 255 morning
              [audio_job_dict
                 (mkAudioJobRequest "hello" "out.mp3" "female" "medium" "en")]
              (Some "demo") "URGENT" (empty_service 4 None))
    as (new & d & est & _ & _ & Hresp & _).
  eexists. split; [exact Hresp|]. split; [reflexivity|]. by vm_compute.
Defined.

(** ** The statistic [queue_size] *)






(** ** Health *)

Lemma count_status_absent (st : JobStatus) (js : list BatchJob) :
  Forall (fun job => job_status job ≠ st) js → count_status st js = 0.
Proof.
  induction 1 as [|job js Hjob _ IH]; [done|].
  rewrite count_status_cons, IH. by case_decide.
Qed.

(** X16. Until a job has ended as Completed or as Failed, the health check
    answers [unhealthy], whether the worker runs or not and whatever the
    queue holds: the success rate is then the integer 0, which is not
    above 0.8. In particular a service that has just been started, or that
    is working on its first job, is reported unhealthy. *)
Theorem health_needs_a_finished_job (is_running : bool) (now : datetime)
    (s : Service) :
  reachable s →
  Forall (fun job => job_status job ≠ COMPLETED ∧ job_status job ≠ FAILED)
         (objects s) →
  dict_lookup "success_rate" (get_service_stats is_running s) = Some (VInt 0) ∧
  dict_lookup "status" (health_check is_running now s)
  = Some (VStr "unhealthy").
Proof.
  intros Hreach Hall.
  destruct (reachable_sound s Hreach) as (_ & _ & _ & _ & _ & Hp & Hf).
  assert (Hrate : success_rate (stats s) = VInt 0).
  { unfold success_rate.
    rewrite Hp, Hf, !(count_status_absent _ (objects s)); [done| |].
    - eapply Forall_impl; [exact Hall|]. by intros job [_ ?].
    - eapply Forall_impl; [exact Hall|]. by intros job [? _]. }
  split.
  - cbn. by rewrite Hrate.
  - unfold health_check. rewrite Hrate. cbn [rate_above_threshold].
    change (1 <=? 0) with false. rewrite andb_false_r. done.
Qed.

Lemma health_needs_a_finished_job_witness :
  dict_lookup "status" (health_check true (morning 5) one_running)
  = Some (VStr "unhealthy").
Proof.
  refine (proj2 (health_needs_a_finished_job true (morning 5) one_running
                   reachable_one_running _)).
  vm_compute. repeat constructor; discriminate.
Defined.

(** ** The list of batches *)

(** *** The order of strings *)

Lemma ascii_compare_N (a b : ascii) :
  Ascii.compare a b = (N_of_ascii a ?= N_of_ascii b)%N.
Proof. done. Qed.

Lemma str_lt_irrefl (a : string) : str_lt a a = false.
Proof.
  unfold str_lt. induction a as [|c a IH]; [done|].
  cbn [String.compare]. by rewrite ascii_compare_N, N.compare_refl.
Qed.

Lemma str_compare_trans (a b c : string) :
  String.compare a b ≠ Lt → String.compare b c ≠ Lt → String.compare a c ≠ Lt.
Proof.
  revert b c. induction a as [|x a IH]; intros [|y b] [|z c]; cbn [String.compare];
    try done.
  rewrite !ascii_compare_N.
  destruct (N.compare_spec (N_of_ascii x) (N_of_ascii y)) as [Hxy|Hxy|Hxy];
    destruct (N.compare_spec (N_of_ascii y) (N_of_ascii z)) as [Hyz|Hyz|Hyz];
    try done; intros H1 H2.
  - rewrite Hxy, Hyz, N.compare_refl. by eapply IH.
  - assert ((N_of_ascii x ?= N_of_ascii z)%N = Gt) as ->; [|done].
    apply N.compare_gt_iff. lia.
  - assert ((N_of_ascii x ?= N_of_ascii z)%N = Gt) as ->; [|done].
    apply N.compare_gt_iff. lia.
  - assert ((N_of_ascii x ?= N_of_ascii z)%N = Gt) as ->; [|done].
    apply N.compare_gt_iff. lia.
Qed.

Lemma str_lt_trans (a b c : string) :
  str_lt a b = false → str_lt b c = false → str_lt a c = false.
Proof.
  unfold str_lt. intros H1 H2.
  pose proof (str_compare_trans a b c) as H.
  destruct (String.compare a b), (String.compare b c), (String.compare a c);
    try done; exfalso; by apply H.
Qed.

Lemma str_lt_asym (a b : string) : str_lt a b = true → str_lt b a = false.
Proof.
  unfold str_lt. rewrite (String.compare_antisym a b).
  by destruct (String.compare b a).
Qed.

(** *** The sort *)

Section sort_desc.
Context {A : Type} (key : A → string).

Lemma insert_desc_Permutation (x : A) (l : list A) :
  insert_desc key x l ≡ₚ x :: l.
Proof.
  induction l as [|y l IH]; [done|]. cbn [insert_desc].
  destruct (str_lt (key x) (key y)); [|done].
  by rewrite IH, Permutation_swap.
Qed.

Lemma sort_desc_Permutation (l : list A) : sort_desc key l ≡ₚ l.
Proof.
  induction l as [|x l IH]; [done|].
  unfold sort_desc in *. cbn [fold_right].
  by rewrite insert_desc_Permutation, IH.
Qed.

Lemma insert_desc_sorted (x : A) (l : list A) :
  StronglySorted (desc key) l → StronglySorted (desc key) (insert_desc key x l).
Proof.
  induction 1 as [|y l Hl IH Hy]; cbn [insert_desc].
  - repeat constructor.
  - destruct (str_lt (key x) (key y)) eqn:Hxy.
    + constructor; [done|]. rewrite insert_desc_Permutation.
      constructor; [by apply str_lt_asym|done].
    + constructor; [by constructor|]. constructor; [done|].
      eapply Forall_impl; [exact Hy|]. intros z Hz.
      by eapply str_lt_trans.
Qed.

Lemma sort_desc_sorted (l : list A) : StronglySorted (desc key) (sort_desc key l).
Proof.
  induction l as [|x l IH]; [constructor|].
  by apply insert_desc_sorted.
Qed.

Lemma insert_desc_filter (t : string) (x : A) (l : list A) :
  filter (fun y => key y = t) (insert_desc key x l)
  = filter (fun y => key y = t) (x :: l).
Proof.
  induction l as [|y l IH]; [done|]. cbn [insert_desc].
  destruct (str_lt (key x) (key y)) eqn:Hxy; [|done].
  rewrite filter_cons, IH, !filter_cons.
  destruct (decide (key x = t)) as [Hx|Hx]; [|done].
  destruct (decide (key y = t)) as [Hy|Hy]; [|done].
  rewrite Hx, Hy, str_lt_irrefl in Hxy. done.
Qed.

(** The sort is stable: items with the same key keep their order. *)
Lemma sort_desc_stable (t : string) (l : list A) :
  filter (fun y => key y = t) (sort_desc key l)
  = filter (fun y => key y = t) l.
Proof.
  induction l as [|x l IH]; [done|].
  unfold sort_desc in *. cbn [fold_right].
  by rewrite insert_desc_filter, !filter_cons, IH.
Qed.
End sort_desc.

(** *** Slices *)

Lemma py_slice_window {A : Type} (offset limit : Z) (l : list A) :
  0 ≤ offset → 0 ≤ limit →
  py_slice offset (offset + limit) l
  = take (Z.to_nat limit) (drop (Z.to_nat offset) l).
Proof.
  intros Ho Hl. unfold py_slice, slice_bound.
  destruct (Z.ltb_spec offset 0) as [|_]; [lia|].
  destruct (Z.ltb_spec (offset + limit) 0) as [|_]; [lia|].
  destruct (decide (Z.of_nat (length l) ≤ offset)) as [Hge|Hlt].
  - rewrite !drop_ge by lia. by rewrite !take_nil.
  - replace (Z.to_nat (Z.of_nat (length l) `min` offset)) with (Z.to_nat offset)
      by lia.
    destruct (decide (offset + limit ≤ Z.of_nat (length l))) as [Hin|Hout].
    + f_equal. lia.
    + rewrite !take_ge; [done| |]; rewrite length_drop; lia.
Qed.

Lemma list_batches_window (items : list (string * BatchRequest nat))
    (status : option string) (limit offset : Z) :
  0 ≤ offset → 0 ≤ limit →
  let sorted := sort_desc info_created_at (listed items status) in
  let r := list_batches items status limit offset in
  batches r = take (Z.to_nat limit) (drop (Z.to_nat offset) sorted) ∧
  total_count r = Z.of_nat (length sorted) ∧
  has_more r = (offset + limit <? Z.of_nat (length sorted)).
Proof.
  intros Ho Hl. cbn zeta. unfold list_batches, listed.
  cbn [batches total_count has_more].
  assert (Hall : ∀ l : list BatchInfo, List.filter (fun _ => true) l = l).
  { induction l as [|x l IH]; [done|]. cbn. by rewrite IH. }
  destruct status as [st|]; [destruct (String.eqb st "")|];
    rewrite ?Hall; by rewrite py_slice_window.
Qed.

(** *** The order of the text of a datetime *)

Lemma compare_same_head (c : ascii) (r r' : string) :
  String.compare (String c r) (String c r') = String.compare r r'.
Proof. cbn [String.compare]. by rewrite ascii_compare_N, N.compare_refl. Qed.

Lemma append_cons (c : ascii) (a b : string) :
  String c a +:+ b = String c (a +:+ b).
Proof. done. Qed.

Lemma append_nil_l (a : string) : "" +:+ a = a.
Proof. done. Qed.

Lemma compare_digit (d e : Z) (r r' : string) :
  0 ≤ d ≤ 9 → 0 ≤ e ≤ 9 →
  String.compare (String (digit_char d) r) (String (digit_char e) r')
  = match d ?= e with Eq => String.compare r r' | c => c end.
Proof.
  intros Hd He. cbn [String.compare]. rewrite ascii_compare_N. unfold digit_char.
  rewrite !N_ascii_embedding by lia.
  rewrite Z2N.inj_compare by lia.
  by rewrite Z.add_compare_mono_l.
Qed.

(** Comparing two numbers is comparing their quotients by [k], then their
    remainders. *)
Lemma compare_split (k n m : Z) :
  0 < k →
  (n ?= m) = match n / k ?= m / k with Eq => n mod k ?= m mod k | c => c end.
Proof.
  intros Hk.
  destruct (Z.compare_spec (n / k) (m / k)) as [H|H|H].
  - destruct (Z.compare_spec (n mod k) (m mod k)) as [H'|H'|H'].
    + apply Z.compare_eq_iff. rewrite (Z.div_mod n k), (Z.div_mod m k) by lia.
      by rewrite H, H'.
    + apply Z.compare_lt_iff.
      rewrite (Z.div_mod n k), (Z.div_mod m k), H by lia. lia.
    + apply Z.compare_gt_iff.
      rewrite (Z.div_mod n k), (Z.div_mod m k), H by lia. lia.
  - apply Z.compare_lt_iff.
    pose proof (Z.mod_pos_bound n k Hk). pose proof (Z.mod_pos_bound m k Hk).
    rewrite (Z.div_mod n k), (Z.div_mod m k) by lia. nia.
  - apply Z.compare_gt_iff.
    pose proof (Z.mod_pos_bound n k Hk). pose proof (Z.mod_pos_bound m k Hk).
    rewrite (Z.div_mod n k), (Z.div_mod m k) by lia. nia.
Qed.

Lemma compare_pad2 (n m : Z) (r r' : string) :
  0 ≤ n < 100 → 0 ≤ m < 100 →
  String.compare (pad2 n +:+ r) (pad2 m +:+ r')
  = match n ?= m with Eq => String.compare r r' | c => c end.
Proof.
  intros Hn Hm. unfold pad2. rewrite !append_cons, ?append_nil_l.
  rewrite !compare_digit by (apply Z.mod_pos_bound || split; div_lia).
  rewrite (compare_split 10 n m) by lia.
  rewrite (Z.mod_small (n / 10) 10), (Z.mod_small (m / 10) 10) by div_lia.
  by destruct (n / 10 ?= m / 10).
Qed.

Ltac digits :=
  repeat (apply (f_equal2 String); [apply (f_equal digit_char); div_lia|]);
  try done.

Lemma pad2_mod (n : Z) : pad2 (n mod 100) = pad2 n.
Proof. unfold pad2. digits. Qed.

Lemma pad4_split (n : Z) : pad4 n = pad2 (n / 100) +:+ pad2 (n mod 100).
Proof. unfold pad4, pad2. rewrite !append_cons, ?append_nil_l. digits. Qed.

Lemma pad4_mod (n : Z) : pad4 (n mod 10000) = pad4 n.
Proof. unfold pad4, pad2. digits. Qed.

Lemma pad6_split (n : Z) : pad6 n = pad2 (n / 10000) +:+ pad4 (n mod 10000).
Proof.
  unfold pad6, pad4, pad2. rewrite !append_cons, ?append_nil_l. digits.
Qed.

Lemma append_assoc (a b c : string) : (a +:+ b) +:+ c = a +:+ (b +:+ c).
Proof. induction a as [|x a IH]; [done|]. by rewrite !append_cons, IH. Qed.

Lemma compare_pad4 (n m : Z) (r r' : string) :
  0 ≤ n < 10000 → 0 ≤ m < 10000 →
  String.compare (pad4 n +:+ r) (pad4 m +:+ r')
  = match n ?= m with Eq => String.compare r r' | c => c end.
Proof.
  intros Hn Hm. rewrite !pad4_split, !append_assoc.
  rewrite compare_pad2 by div_lia.
  rewrite compare_pad2 by (apply Z.mod_pos_bound; lia).
  rewrite (compare_split 100 n m) by lia.
  by destruct (n / 100 ?= m / 100).
Qed.

Lemma compare_pad6 (n m : Z) (r r' : string) :
  0 ≤ n < 1000000 → 0 ≤ m < 1000000 →
  String.compare (pad6 n +:+ r) (pad6 m +:+ r')
  = match n ?= m with Eq => String.compare r r' | c => c end.
Proof.
  intros Hn Hm. rewrite !pad6_split, !append_assoc.
  rewrite compare_pad2 by div_lia.
  rewrite compare_pad4 by (apply Z.mod_pos_bound; lia).
  rewrite (compare_split 10000 n m) by lia.
  by destruct (n / 10000 ?= m / 10000).
Qed.

Lemma append_nil_r (a : string) : a +:+ "" = a.
Proof. induction a as [|x a IH]; [done|]. by rewrite !append_cons, IH. Qed.

Lemma valid_datetime_bounds (d : datetime) :
  valid_datetime d = true →
  0 ≤ year d < 10000 ∧ 0 ≤ month d < 100 ∧ 0 ≤ day d < 100 ∧
  0 ≤ hour d < 100 ∧ 0 ≤ minute d < 100 ∧ 0 ≤ second d < 100 ∧
  0 ≤ microsecond d < 1000000.
Proof.
  unfold valid_datetime. rewrite !andb_true_iff.
  intros [[[[[[[[[[[[[Hy1 Hy2] Hm1] Hm2] Hd1] Hd2] Hh1] Hh2] Hn1] Hn2] Hs1] Hs2]
                Hu1] Hu2].
  pose proof (days_in_month_le (year d) (month d)).
  lia.
Qed.

(** The texts [isoformat] writes are ordered as the datetimes are. *)
Lemma isoformat_compare (a b : datetime) :
  valid_datetime a = true → valid_datetime b = true →
  String.compare (isoformat a) (isoformat b) = dt_compare a b.
Proof.
  intros Ha Hb.
  destruct (valid_datetime_bounds a Ha) as (? & ? & ? & ? & ? & ? & Hua).
  destruct (valid_datetime_bounds b Hb) as (? & ? & ? & ? & ? & ? & Hub).
  unfold isoformat, dt_compare. rewrite !append_cons, !append_nil_l.
  rewrite compare_pad4 by done. destruct (year a ?= year b); try done.
  rewrite compare_same_head.
  rewrite compare_pad2 by done. destruct (month a ?= month b); try done.
  rewrite compare_same_head.
  rewrite compare_pad2 by done. destruct (day a ?= day b); try done.
  rewrite compare_same_head.
  rewrite compare_pad2 by done. destruct (hour a ?= hour b); try done.
  rewrite compare_same_head.
  rewrite compare_pad2 by done. destruct (minute a ?= minute b); try done.
  rewrite compare_same_head.
  rewrite compare_pad2 by done. destruct (second a ?= second b); try done.
  destruct (Z.eqb_spec (microsecond a) 0) as [Hza|Hza];
    destruct (Z.eqb_spec (microsecond b) 0) as [Hzb|Hzb].
  - by rewrite Hza, Hzb.
  - rewrite Hza. cbn [String.compare].
    symmetry. apply Z.compare_lt_iff. lia.
  - rewrite Hzb. cbn [String.compare].
    symmetry. apply Z.compare_gt_iff. lia.
  - rewrite compare_same_head.
    rewrite <- (append_nil_r (pad6 (microsecond a))),
      <- (append_nil_r (pad6 (microsecond b))).
    rewrite compare_pad6 by done.
    by destruct (microsecond a ?= microsecond b).
Qed.

Lemma isoformat_lt (a b : datetime) :
  valid_datetime a = true → valid_datetime b = true →
  str_lt (isoformat a) (isoformat b) = dt_ltb a b.
Proof.
  intros Ha Hb. unfold str_lt, dt_ltb. by rewrite isoformat_compare.
Qed.

Lemma StronglySorted_lookup {A : Type} (R : A → A → Prop) (l : list A)
    (i j : nat) (x y : A) :
  StronglySorted R l → l !! i = Some x → l !! j = Some y → (i < j)%nat → R x y.
Proof.
  intros Hl. revert i j. induction Hl as [|z l Hl IH Hz]; intros i j; [done|].
  destruct i as [|i], j as [|j]; try lia; cbn.
  - intros [= <-] Hy _. rewrite Forall_forall in Hz.
    apply Hz. by eapply list_elem_of_lookup_2.
  - intros Hx Hy Hij. apply (IH i j); [done|done|lia].
Qed.

(** *** Pages *)

(** X17. The pages [list_batches] gives are windows on one list: the
    batches that pass the filter (all of them without a filter or with an
    empty one; otherwise those whose status is the text of the filter in
    lower case), each once, sorted by the text of [created_at] in
    descending order, batches with the same text in the order of the
    table. A page is the [limit] entries after the first [offset] ones,
    [total_count] is the length of the whole list, and [has_more] says
    whether entries are left after the page. *)
Theorem list_batches_pages (items : list (string * BatchRequest nat))
    (status : option string) :
  ∃ sorted : list BatchInfo,
    sorted ≡ₚ listed items status ∧
    StronglySorted (desc info_created_at) sorted ∧
    (∀ t, filter (fun b => info_created_at b = t) sorted
          = filter (fun b => info_created_at b = t) (listed items status)) ∧
    ∀ limit offset,
      0 ≤ offset → 0 ≤ limit →
      let r := list_batches items status limit offset in
      batches r = take (Z.to_nat limit) (drop (Z.to_nat offset) sorted) ∧
      total_count r = Z.of_nat (length (listed items status)) ∧
      (has_more r = true
       ↔ offset + Z.of_nat (length (batches r)) < total_count r).
Proof.
  exists (sort_desc info_created_at (listed items status)).
  split; [apply sort_desc_Permutation|].
  split; [apply sort_desc_sorted|].
  split; [intros t; apply sort_desc_stable|].
  intros limit offset Ho Hl.
  destruct (list_batches_window items status limit offset Ho Hl)
    as (Hpage & Htotal & Hmore).
  cbn zeta in *. rewrite Hpage, Htotal, Hmore.
  pose proof (sort_desc_Permutation info_created_at (listed items status)) as Hp.
  split; [done|]. split; [by rewrite Hp|].
  rewrite Z.ltb_lt, length_take, length_drop. lia.
Qed.

Lemma list_batches_pages_witness :
  let b1 : BatchRequest nat := mkBatchRequest "a" "first" [] (morning 0) 0 0 0 PENDING None None in
  let b2 : BatchRequest nat := mkBatchRequest "b" "second" [] (morning 1) 0 0 0 CANCELLED None None in
  let b3 : BatchRequest nat := mkBatchRequest "c" "third" [] (morning 2) 0 0 0 PENDING None None in
  let r := list_batches [("a", b1); ("b", b2); ("c", b3)] (Some "Pending") 1 0 in
  info_id <$> batches r = ["c"] ∧ total_count r = 2 ∧ has_more r = true.
Proof.
  intros b1 b2 b3 r.
  destruct (list_batches_pages [("a", b1); ("b", b2); ("c", b3)]
              (Some "Pending")) as (sorted & _ & _ & _ & Hpages).
  destruct (Hpages 1 0 ltac:(lia) ltac:(lia)) as (_ & Htotal & _).
  split; [by vm_compute|]. split; [exact Htotal|]. by vm_compute.
Defined.

(** X18. The list is in the order of creation, newest first, within a page
    and from one page to the next: of two batches listed, the one at the
    earlier position of the whole list was not created before the other.
    The sort compares the texts of the dates, which for datetimes are
    ordered as the dates are. *)
Theorem list_batches_newest_first (items : list (string * BatchRequest nat))
    (status : option string) (limit offset limit' offset' : Z) (i j : nat)
    (bx bj : BatchRequest nat) :
  0 ≤ offset → 0 ≤ limit → 0 ≤ offset' → 0 ≤ limit' →
  valid_datetime (batch_created_at bx) = true →
  valid_datetime (batch_created_at bj) = true →
  batches (list_batches items status limit offset) !! i
  = Some (batch_info bx) →
  batches (list_batches items status limit' offset') !! j
  = Some (batch_info bj) →
  offset + Z.of_nat i < offset' + Z.of_nat j →
  dt_ltb (batch_created_at bx) (batch_created_at bj) = false.
Proof.
  intros Ho Hl Ho' Hl' Hvx Hvj Hi Hj Hlt.
  destruct (list_batches_window items status limit offset Ho Hl) as (Hp & _).
  destruct (list_batches_window items status limit' offset' Ho' Hl') as (Hp' & _).
  cbn zeta in *. rewrite Hp in Hi. rewrite Hp' in Hj.
  apply lookup_take_Some in Hi as [Hi _]. apply lookup_take_Some in Hj as [Hj _].
  rewrite lookup_drop in Hi, Hj.
  pose proof (StronglySorted_lookup _ _ _ _ _ _
                (sort_desc_sorted info_created_at (listed items status))
                Hi Hj ltac:(lia)) as Hd.
  unfold desc in Hd. cbn [info_created_at batch_info] in Hd.
  by rewrite isoformat_lt in Hd.
Qed.

Lemma list_batches_newest_first_witness :
  let b1 : BatchRequest nat := mkBatchRequest "a" "first" [] (morning 0) 0 0 0 PENDING None None in
  let b2 : BatchRequest nat := mkBatchRequest "b" "second" [] (morning 1) 0 0 0 CANCELLED None None in
  dt_ltb (batch_created_at b2) (batch_created_at b1) = false.
Proof.
  intros b1 b2.
  apply (list_batches_newest_first [("a", b1); ("b", b2)] None 1 0 1 1 0 0 b2 b1);
    try lia; by vm_compute.
Defined.

(** ** Cancelling a batch whose job is running *)

Lemma elem_of_deref (objs : list BatchJob) (js : list nat) (a : nat)
    (job : BatchJob) :
  a ∈ js → objs !! a = Some job → job ∈ deref objs js.
Proof.
  intros Ha Hjob. unfold deref. apply list_elem_of_omap. by exists a.
Qed.

Lemma count_status_pos (st : JobStatus) (js : list BatchJob) (job : BatchJob) :
  job ∈ js → job_status job = st → 0 < count_status st js.
Proof.
  intros Hin Hst. induction Hin as [job js|job x js _ IH].
  - rewrite count_status_cons, decide_True by done.
    pose proof (count_status_nonneg st js). lia.
  - rewrite count_status_cons. specialize (IH Hst). case_decide; lia.
Qed.

(** The end of [_process_job] for a job of the batch [bid]: the job object
    it leaves, and the batch it recomputes. *)
Lemma finish_job_table (o : outcome) (now : datetime) (s : Service) (a : nat)
    (job : BatchJob) (bid : string) (b : BatchRequest nat) :
  well_formed s → current s = Some a → objects s !! a = Some job →
  batch_requests s !! bid = Some b → a ∈ jobs b →
  let job' :=
    match o with
    | Returned r => complete_job now r job
    | Raised msg =>
      if retry_count job <? max_retries job
      then retry_job (fail_job now msg job) else fail_job now msg job
    end in
  let s' := finish_job o now s in
  objects s' = <[a := job']> (objects s) ∧
  batch_requests s' !! bid
  = Some (aggregate (deref (<[a := job']> (objects s)) (jobs b)) b) ∧
  (job_status job' = PENDING → a ∈ job_queue s').
Proof.
  intros (Hb & _) Hcur Hjob Hbid Ha. cbn zeta.
  destruct (finish_job_exact o now s a job Hcur Hjob) as (Hobj & _).
  destruct (finish_job_spec o now s a job Hcur Hjob)
    as (job'' & _ & Hobj' & _ & Htab & Hq).
  cbn zeta in Hobj. set (job' := match o with Returned _ => _ | _ => _ end) in *.
  assert (Hlt : (a < length (objects s))%nat) by (by eapply lookup_lt_Some).
  assert (job'' = job') as ->.
  { assert (Hl : <[a := job'']> (objects s) !! a = Some job'')
      by (by apply list_lookup_insert_eq).
    rewrite <- Hobj', Hobj, list_lookup_insert_eq in Hl by done. congruence. }
  destruct (Hb bid b Hbid) as (_ & Hjobs & _).
  destruct (Hjobs a Ha) as (job0 & Hjob0 & Hhead).
  assert (job0 = job) as -> by congruence.
  rewrite Hhead, Hbid in Htab.
  split; [done|]. split; [by rewrite Htab, lookup_insert_eq|].
  intros Hpend. destruct Hq as [[_ ->]|[[?|?] _]]; [|congruence|congruence].
  rewrite heappush_Permutation. apply elem_of_cons. by left.
Qed.

(** X19. Cancelling a batch does not stop the retries of the job the
    worker is running: when its executor then raises and the job has
    retries left, [_process_job] makes it Pending again, one step lower in
    priority, and puts it back on the queue, where the worker will take it
    as any Pending job. The batch keeps the status Cancelled. *)
Theorem cancelled_batch_retries_its_running_job (s : Service) (a : nat)
    (job : BatchJob) (bid : string) (b : BatchRequest nat)
    (task : BatchJob → outcome) (msg : string) (now : datetime) :
  reachable s → current s = Some a → objects s !! a = Some job →
  batch_requests s !! bid = Some b → a ∈ jobs b →
  retry_count job < max_retries job → run_task task job = Raised msg →
  let s1 := (cancel_batch bid s).1 in
  let s2 := resume task now s1 in
  (cancel_batch bid s).2 = true ∧
  (∃ job', objects s2 !! a = Some job' ∧ job_status job' = PENDING ∧
           retry_count job' = retry_count job + 1 ∧
           priority job' = demote (priority job)) ∧
  a ∈ job_queue s2 ∧
  ∃ b', batch_requests s2 !! bid = Some b' ∧ batch_status b' = CANCELLED.
Proof.
  intros Hreach Hcur Hjob Hbid Ha Hretry Hrun. cbn zeta.
  assert (Hreach1 : reachable (cancel_batch bid s).1)
    by (eapply reachable_step; [done|constructor]).
  pose proof (reachable_well_formed _ Hreach1) as Hwf1.
  destruct (reachable_well_formed s Hreach) as (Hb & _ & Hc).
  destruct (Hc a Hcur) as (x & Hx & Hproc).
  assert (x = job) as -> by congruence.
  destruct (Hb bid b Hbid) as (Htot & Hjobs & _).
  revert Hreach1 Hwf1. rewrite (cancel_batch_found bid s b Hbid). cbn [fst snd].
  set (s1 := _save_persistent_data _). intros Hreach1 Hwf1.
  assert (Hcur1 : current s1 = Some a) by done.
  assert (Hjob1 : objects s1 !! a = Some job).
  { unfold s1. simpl_state. rewrite cancel_jobs_lookup, Hjob.
    cbn [fmap option_fmap option_map]. rewrite decide_False; [done|].
    intros [_ ?]. congruence. }
  assert (Hbid1 : batch_requests s1 !! bid = Some (set_batch_status CANCELLED b)).
  { unfold s1. simpl_state. by rewrite lookup_insert_eq. }
  destruct (finish_job_table (Raised msg) now s1 a job bid _ Hwf1 Hcur1 Hjob1
              Hbid1 Ha) as (Hobj2 & Htab2 & Hq2).
  assert (Hout : current_outcome task s1 = Raised msg).
  { unfold current_outcome. by rewrite Hcur1, Hjob1. }
  unfold resume. rewrite Hout.
  apply Z.ltb_lt in Hretry. rewrite Hretry in Hobj2, Htab2, Hq2.
  set (job' := retry_job (fail_job now msg job)) in *.
  assert (Hlt : (a < length (objects s1))%nat) by (by eapply lookup_lt_Some).
  split; [done|]. split.
  { exists job'. rewrite Hobj2, list_lookup_insert_eq by done. done. }
  split; [by apply Hq2|].
  eexists. split; [exact Htab2|].
  rewrite aggregate_status_other; [done|].
  cbn [total_jobs set_batch_status jobs]. rewrite Htot. intros Heq.
  assert (Hlen : length (deref (<[a := job']> (objects s1)) (jobs b))
                 = length (jobs b)).
  { apply deref_valid. intros a' Ha'.
    destruct (decide (a' = a)) as [->|Hne].
    - rewrite list_lookup_insert_eq by done. by eexists.
    - rewrite list_lookup_insert_ne by done.
      unfold s1. simpl_state. rewrite cancel_jobs_lookup.
      destruct (Hjobs a' Ha') as (y & -> & _). by eexists. }
  rewrite <- Hlen in Heq. apply counted_eq_length in Heq.
  rewrite Forall_forall in Heq.
  specialize (Heq job' (elem_of_deref _ _ a job' Ha
                          ltac:(by apply list_lookup_insert_eq))).
  apply job_counted_spec in Heq as [?|?]; done.
Qed.

Lemma cancelled_batch_retries_its_running_job_witness :
  let s2 := resume raising (morning 9) (cancel_batch demo_id one_running).1 in
  (job_status <$> objects s2) = [PENDING; CANCELLED; CANCELLED] ∧
  job_queue s2 = [1; 2; 0]%nat.
Proof.
  eassert (Hjob : objects one_running !! 0%nat = Some _)
    by (vm_compute; reflexivity).
  eassert (Hbid : batch_requests one_running !! demo_id = Some _)
    by (vm_compute; reflexivity).
  pose proof (cancelled_batch_retries_its_running_job one_running 0 _ demo_id _
                raising "boom" (morning 9) reachable_one_running eq_refl Hjob
                Hbid ltac:(vm_compute; set_solver) ltac:(by vm_compute)
                ltac:(by vm_compute)) as H.
  split; by vm_compute.
Defined.

(** X20. A cancellation does not last when the job the worker is running
    is the last one of the batch: if every other job of the batch is
    Completed or Failed and the running job then completes,
    [_process_job] sets the status of the batch, which [cancel_batch] had
    set to Cancelled, to Completed. *)
Theorem cancelled_batch_can_end_completed (s : Service) (a : nat)
    (job : BatchJob) (bid : string) (b : BatchRequest nat)
    (task : BatchJob → outcome) (r : pyval) (now : datetime) :
  reachable s → current s = Some a → objects s !! a = Some job →
  batch_requests s !! bid = Some b → a ∈ jobs b →
  (∀ a' x, a' ∈ jobs b → a' ≠ a → objects s !! a' = Some x →
           job_status x = COMPLETED ∨ job_status x = FAILED) →
  run_task task job = Returned r →
  let s1 := (cancel_batch bid s).1 in
  let s2 := resume task now s1 in
  (∃ b1, batch_requests s1 !! bid = Some b1 ∧ batch_status b1 = CANCELLED) ∧
  ∃ b2, batch_requests s2 !! bid = Some b2 ∧ batch_status b2 = COMPLETED ∧
        completed_jobs b2 + failed_jobs b2 = total_jobs b2.
Proof.
  intros Hreach Hcur Hjob Hbid Ha Hrest Hrun. cbn zeta.
  assert (Hreach1 : reachable (cancel_batch bid s).1)
    by (eapply reachable_step; [done|constructor]).
  pose proof (reachable_well_formed _ Hreach1) as Hwf1.
  destruct (reachable_well_formed s Hreach) as (Hb & _ & Hc).
  destruct (Hc a Hcur) as (x & Hx & Hproc).
  assert (x = job) as -> by congruence.
  destruct (Hb bid b Hbid) as (Htot & Hjobs & _).
  revert Hreach1 Hwf1. rewrite (cancel_batch_found bid s b Hbid). cbn [fst snd].
  set (s1 := _save_persistent_data _). intros Hreach1 Hwf1.
  assert (Hcur1 : current s1 = Some a) by done.
  assert (Hjob1 : objects s1 !! a = Some job).
  { unfold s1. simpl_state. rewrite cancel_jobs_lookup, Hjob.
    cbn [fmap option_fmap option_map]. rewrite decide_False; [done|].
    intros [_ ?]. congruence. }
  assert (Hbid1 : batch_requests s1 !! bid = Some (set_batch_status CANCELLED b)).
  { unfold s1. simpl_state. by rewrite lookup_insert_eq. }
  split; [by eexists|].
  destruct (finish_job_table (Returned r) now s1 a job bid _ Hwf1 Hcur1 Hjob1
              Hbid1 Ha) as (Hobj2 & Htab2 & _).
  assert (Hout : current_outcome task s1 = Returned r).
  { unfold current_outcome. by rewrite Hcur1, Hjob1. }
  unfold resume. rewrite Hout.
  set (job' := complete_job now r job) in *.
  set (js := deref (<[a := job']> (objects s1)) (jobs (set_batch_status CANCELLED b)))
    in *.
  assert (Hlt : (a < length (objects s1))%nat) by (by eapply lookup_lt_Some).
  assert (Hall : Forall (fun j => job_counted j = true) js).
  { apply deref_Forall. intros a' y Ha' Hy. apply job_counted_spec.
    destruct (decide (a' = a)) as [->|Hne].
    - rewrite list_lookup_insert_eq in Hy by done. injection Hy as <-. by left.
    - rewrite list_lookup_insert_ne in Hy by done.
      unfold s1, _save_persistent_data in Hy. simpl_state.
      rewrite cancel_jobs_lookup in Hy.
      destruct (objects s !! a') as [y0|] eqn:Hy0; [|done].
      cbn [fmap option_fmap option_map] in Hy.
      pose proof (Hrest a' y0 Ha' Hne Hy0) as Hst.
      rewrite decide_False in Hy by (intros [_ ?]; destruct Hst; congruence).
      by injection Hy as <-. }
  assert (Hlen : length js = length (jobs b)).
  { apply deref_valid. intros a' Ha'.
    destruct (decide (a' = a)) as [->|Hne].
    - rewrite list_lookup_insert_eq by done. by eexists.
    - rewrite list_lookup_insert_ne by done.
      unfold s1. simpl_state. rewrite cancel_jobs_lookup.
      destruct (Hjobs a' Ha') as (y & -> & _). by eexists. }
  apply counted_eq_length in Hall.
  assert (Hsum : count_status COMPLETED js + count_status FAILED js
                 = total_jobs (set_batch_status CANCELLED b)).
  { cbn [total_jobs set_batch_status]. by rewrite Hall, Hlen, Htot. }
  assert (Hpos : 0 < count_status COMPLETED js).
  { apply (count_status_pos COMPLETED js job'); [|done].
    apply (elem_of_deref _ _ a); [done|]. by apply list_lookup_insert_eq. }
  eexists. split; [exact Htab2|].
  destruct (aggregate_counts js (set_batch_status CANCELLED b))
    as (-> & -> & -> & _).
  split; [|done].
  rewrite aggregate_status_counted by done. unfold aggregate_status.
  destruct (Z.eqb_spec (count_status FAILED js) 0); [done|].
  destruct (Z.eqb_spec (count_status COMPLETED js) 0); [lia|done].
Qed.

Lemma cancelled_batch_can_end_completed_witness :
  (batch_status <$>
     batch_requests (cancel_batch demo_id (take_job (morning 3) one_pending).1).1
       !! demo_id) = Some CANCELLED ∧
  (batch_status <$>
     batch_requests
       (resume succeeding (morning 4)
          (cancel_batch demo_id (take_job (morning 3) one_pending).1).1)
       !! demo_id) = Some COMPLETED.
Proof.
  assert (Hreach : reachable (take_job (morning 3) one_pending).1).
  { eapply reachable_step; [apply reachable_one_pending|].
    by apply step_take. }
  eassert (Hjob : objects (take_job (morning 3) one_pending).1 !! 0%nat = Some _)
    by (vm_compute; reflexivity).
  eassert (Hbid : batch_requests (take_job (morning 3) one_pending).1 !! demo_id
                  = Some _)
    by (vm_compute; reflexivity).
  destruct (cancelled_batch_can_end_completed _ 0 _ demo_id _ succeeding
              (VStr "done") (morning 4) Hreach eq_refl Hjob Hbid
              ltac:(vm_compute; set_solver)
              ltac:(intros a' x Ha' Hne; vm_compute in Ha';
                    by apply list_elem_of_singleton in Ha')
              eq_refl)
    as [(b1 & Hb1 & Hst1) (b2 & Hb2 & Hst2 & _)].
  split.
  - rewrite Hb1. cbn. by rewrite Hst1.
  - rewrite Hb2. cbn. by rewrite Hst2.
Defined.

(** ** The estimate of a submitted batch *)



Lemma created_jobs_typed bid kind p clock requests :
  Forall (fun request => typed_request kind request = true) requests →
  ∀ i, Forall (fun job => typed_request (job_type job) (input_data job) = true)
         (created_jobs bid kind p clock i requests).
Proof.
  induction 1 as [|r rest Hr _ IH]; intros i; [by constructor|].
  cbn [created_jobs]. constructor; [done|apply IH].
Qed.




(** ** The estimate a route answers with *)

Lemma sum_video_estimates bid p clock (jobs : list VideoJobRequest) :
  ∀ i acc,
    sum_job_estimates acc
      (created_jobs bid "video" p clock i (map video_job_dict jobs))
    = Some (fold_left
              (fun t r =>
                 t + 30.0 * (duration r / 5.0)
                     * (if String.eqb (video_quality r) "fast" then 0.7
                        else if String.eqb (video_quality r) "medium" then 1.0
                        else if String.eqb (video_quality r) "high" then 1.5
                        else 1.0))%float
              jobs acc).
Proof.
  induction jobs as [|r jobs IH]; intros i acc; [done|].
  cbn [map created_jobs sum_job_estimates fold_left].
  change (add_job_estimate acc _) with
    (Some (acc + 30.0 * (duration r / 5.0)
                 * (if String.eqb (video_quality r) "fast" then 0.7
                    else if String.eqb (video_quality r) "medium" then 1.0
                    else if String.eqb (video_quality r) "high" then 1.5
                    else 1.0))%float).
  cbn [mbind option_bind]. apply IH.
Qed.

Lemma sum_audio_estimates bid p clock (jobs : list AudioJobRequest) :
  ∀ i acc,
    sum_job_estimates acc
      (created_jobs bid "audio" p clock i (map audio_job_dict jobs))
    = Some (fold_left
              (fun t r =>
                 t + 5.0 * (Z_to_float (Z.of_nat (String.length (audio_text r)))
                            / 100.0))%float
              jobs acc).
Proof.
  induction jobs as [|r jobs IH]; intros i acc; [done|].
  cbn [map created_jobs sum_job_estimates fold_left].
  change (add_job_estimate acc _) with
    (Some (acc + 5.0 * (Z_to_float (Z.of_nat (String.length (audio_text r)))
                        / 100.0))%float).
  cbn [mbind option_bind]. apply IH.
Qed.

Lemma sum_translation_estimates bid p clock (jobs : list TranslationJobRequest) :
  ∀ i acc,
    sum_job_estimates acc
      (created_jobs bid "translation" p clock i (map translation_job_dict jobs))
    = Some (fold_left
              (fun t r =>
                 t + 2.0 * (Z_to_float
                              (Z.of_nat (String.length (translation_text r)))
                            / 200.0))%float
              jobs acc).
Proof.
  induction jobs as [|r jobs IH]; intros i acc; [done|].
  cbn [map created_jobs sum_job_estimates fold_left].
  change (add_job_estimate acc _) with
    (Some (acc + 2.0 * (Z_to_float
                          (Z.of_nat (String.length (translation_text r)))
                        / 200.0))%float).
  cbn [mbind option_bind]. apply IH.
Qed.

(** The estimate of a list of jobs that is not empty and whose costs can
    all be computed. *)
Lemma estimate_of_sum (workers : Z) (js : list BatchJob) (total : float) :
  js ≠ [] → sum_job_estimates 0%float js = Some total →
  _estimate_batch_duration workers js
  = (total * (Z_to_float (Z.min workers (Z.of_nat (length js)))
              / Z_to_float (Z.of_nat (length js))))%float.
Proof.
  intros Hne Hsum. unfold _estimate_batch_duration, parallel_factor.
  rewrite Hsum. cbn [mbind option_bind].
  destruct (Z.eqb_spec (Z.of_nat (length js)) 0) as [Hz|_]; [|done].
  by destruct js.
Qed.

Lemma route_estimate create kind label noun uuid clock requests name
    priority_str s (total : float) :
  create = create_batch kind label → requests ≠ [] →
  (∀ bid p clock' i,
     sum_job_estimates 0%float (created_jobs bid kind p clock' i requests)
     = Some total) →
  ∃ resp,
    (create_batch_route create noun uuid clock requests name priority_str s).2
    = Ok resp ∧
    response_estimated_duration resp
    = Some (total * (Z_to_float (Z.min (max_workers s)
                                   (Z.of_nat (length requests)))
                     / Z_to_float (Z.of_nat (length requests))))%float.
Proof.
  intros -> Hne Hsum. unfold create_batch_route.
  destruct (create_batch_spec kind label uuid clock requests name
              (parse_priority priority_str) s) as (_ & _ & _ & Hid & _).
  destruct (create_batch_exact kind label uuid clock requests name
              (parse_priority priority_str) s) as (name' & clock' & Hobj & Htab).
  cbn zeta in *.
  destruct (create_batch kind label uuid clock requests name
              (parse_priority priority_str) s) as [s' bid].
  cbn [fst snd] in *. subst bid.
  eexists. split; [reflexivity|]. cbn [response_estimated_duration].
  unfold get_batch_status. rewrite Htab, lookup_insert_eq.
  cbn [estimate_of_status dict_lookup batch_status_dict estimated_duration
       opt_float_json].
  change (dict_lookup "estimated_duration" _) with
    (Some (VFloat (_estimate_batch_duration (max_workers s)
             (created_jobs (uuid_str uuid) kind (parse_priority priority_str)
                clock' 0 requests)))).
  cbv iota beta. f_equal.
  rewrite (estimate_of_sum _ _ total), created_jobs_length; [done| |apply Hsum].
  destruct requests; [done|]. done.
Qed.

(** X22. The estimate a submission route answers with is never the
    fall-back of the estimator: for the payloads the request models give,
    every cost can be computed, and the estimate is the sum of the costs
    of the jobs, added up in the order of the request, times
    [min(max_workers, n) / n]. A video job costs 30 times its duration
    over 5 times the multiplier of its quality (0.7 for fast, 1.5 for
    high, 1 otherwise), an audio job 5 times the length of its text over
    100, a translation job 2 times the length of its text over 200. *)
Theorem route_estimate_follows_the_requests (uuid : Z) (clock : nat → datetime)
    (name : option string) (priority_str : string) (s : Service) :
  let factor (n : nat) :=
    (Z_to_float (Z.min (max_workers s) (Z.of_nat n))
     / Z_to_float (Z.of_nat n))%float in
  (∀ jobs : list VideoJobRequest, jobs ≠ [] →
     ∃ resp,
       (create_video_batch_route uuid clock jobs name priority_str s).2
       = Ok resp ∧
       response_estimated_duration resp
       = Some (fold_left
                 (fun t r =>
                    t + 30.0 * (duration r / 5.0)
                        * (if String.eqb (video_quality r) "fast" then 0.7
                           else if String.eqb (video_quality r) "medium" then 1.0
                           else if String.eqb (video_quality r) "high" then 1.5
                           else 1.0))
                 jobs 0 * factor (length jobs))%float) ∧
  (∀ jobs : list AudioJobRequest, jobs ≠ [] →
     ∃ resp,
       (create_audio_batch_route uuid clock jobs name priority_str s).2
       = Ok resp ∧
       response_estimated_duration resp
       = Some (fold_left
                 (fun t r =>
                    t + 5.0 * (Z_to_float
                                 (Z.of_nat (String.length (audio_text r)))
                               / 100.0))
                 jobs 0 * factor (length jobs))%float) ∧
  (∀ jobs : list TranslationJobRequest, jobs ≠ [] →
     ∃ resp,
       (create_translation_batch_route uuid clock jobs name priority_str s).2
       = Ok resp ∧
       response_estimated_duration resp
       = Some (fold_left
                 (fun t r =>
                    t + 2.0 * (Z_to_float
                                 (Z.of_nat (String.length (translation_text r)))
                               / 200.0))
                 jobs 0 * factor (length jobs))%float).
Proof.
  cbn zeta. split; [|split]; intros jobs Hne.
  - unfold create_video_batch_route.
    rewrite <- (length_map video_job_dict jobs).
    apply (route_estimate _ "video" "Video Batch "); [done| |].
    + by destruct jobs.
    + intros. apply sum_video_estimates.
  - unfold create_audio_batch_route.
    rewrite <- (length_map audio_job_dict jobs).
    apply (route_estimate _ "audio" "Audio Batch "); [done| |].
    + by destruct jobs.
    + intros. apply sum_audio_estimates.
  - unfold create_translation_batch_route.
    rewrite <- (length_map translation_job_dict jobs).
    apply (route_estimate _ "translation" "Translation Batch "); [done| |].
    + by destruct jobs.
    + intros. apply sum_translation_estimates.
Qed.

Lemma route_estimate_follows_the_requests_witness :
  ∃ resp,
    (create_audio_batch_route 255 morning
       [mkAudioJobRequest "hello" "out.mp3" "female" "medium" "en"]
       (Some "demo") "high" (empty_service 4 None)).2 = Ok resp ∧
    response_estimated_duration resp = Some 0.25%float.
Proof.
  destruct (route_estimate_follows_the_requests 255 morning (Some "demo")
              "high" (empty_service 4 None)) as (_ & Haudio & _).
  destruct (Haudio [mkAudioJobRequest "hello" "out.mp3" "female" "medium" "en"]
              ltac:(discriminate)) as (resp & Hresp & Hest).
  exists resp. split; [exact Hresp|]. rewrite Hest. by vm_compute.
Defined.

(** ** Cancelling through the route *)

(** X23. The route [DELETE /cancel] answers 404 exactly for an id that is
    not in the table, and then changes nothing. Any batch of the table can
    be cancelled, also one that is Completed, Failed or Cancelled already:
    the route answers with the success message, and [get_batch_status]
    then shows the batch as cancelled, with the counters it had. *)
Theorem cancel_route_marks_any_known_batch (bid : string) (s : Service) :
  let r := cancel_batch_route bid s in
  match batch_requests s !! bid with
  | None =>
    r = (s, HTTPException 404
              ("Batch " +:+ bid +:+ " not found or cannot be cancelled"))
  | Some b =>
    r.2 = Ok [("message",
               VStr ("Batch " +:+ bid +:+ " cancelled successfully"))] ∧
    ∃ d, get_batch_status bid r.1 = Some d ∧
         dict_lookup "status" d = Some (VStr "cancelled") ∧
         dict_lookup "total_jobs" d = Some (VInt (total_jobs b)) ∧
         dict_lookup "completed_jobs" d = Some (VInt (completed_jobs b)) ∧
         dict_lookup "failed_jobs" d = Some (VInt (failed_jobs b)) ∧
         dict_lookup "actual_duration" d
         = Some (opt_float_json (actual_duration b))
  end.
Proof.
  cbn zeta. unfold cancel_batch_route.
  destruct (batch_requests s !! bid) as [b|] eqn:Hb.
  - rewrite (cancel_batch_found bid s b Hb). cbn [fst snd]. split; [done|].
    unfold get_batch_status. simpl_state. rewrite lookup_insert_eq.
    eexists. split; [reflexivity|]. by repeat split.
  - by rewrite cancel_batch_missing.
Qed.

(** ** Cleaning [completed_jobs] *)

(** X24. What [cleanup_old_batches] takes out of [completed_jobs], when
    both cut-off dates can be computed: exactly the entries whose job has
    a [completed_at] before the cut-off. Such a job is Completed or Failed;
    the entry of a job that is waiting for a retry, or running again,
    stays, however long ago it was made. No entry is added or changed. *)
Theorem cleanup_drops_only_finished_jobs (clock : nat → datetime)
    (days_old : Z) (s : Service) (cutoff_date cutoff_time : datetime) :
  reachable s →
  dt_sub_days (clock 0%nat) days_old = Some cutoff_date →
  dt_sub_days (clock 1%nat) days_old = Some cutoff_time →
  let s' := (cleanup_old_batches clock days_old s).1 in
  ∀ id,
    match finished_jobs s !! id with
    | None => finished_jobs s' !! id = None
    | Some a =>
      (finished_jobs s' !! id = None ∨ finished_jobs s' !! id = Some a) ∧
      (finished_jobs s' !! id = None
       ↔ ∃ job t, objects s !! a = Some job ∧ completed_at job = Some t ∧
                  dt_ltb t cutoff_time = true) ∧
      (finished_jobs s' !! id = None →
       ∃ job, objects s !! a = Some job ∧
              (job_status job = COMPLETED ∨ job_status job = FAILED))
    end.
Proof.
  intros Hreach H0 H1. cbn zeta. intros id.
  destruct (reachable_sound s Hreach) as (Hjs & _).
  unfold cleanup_old_batches. rewrite H0, H1. simpl_state.
  destruct (finished_jobs s !! id) as [a|] eqn:Hid.
  - assert (Hold : old_job (objects s) cutoff_time a = true
                   ↔ ∃ job t, objects s !! a = Some job ∧
                              completed_at job = Some t ∧
                              dt_ltb t cutoff_time = true).
    { unfold old_job. destruct (objects s !! a) as [job|].
      - destruct (completed_at job) as [t|] eqn:Hc.
        + split; [by exists job, t|].
          intros (job' & t' & [= <-] & Hc' & Hlt). congruence.
        + split; [done|]. intros (job' & t' & [= <-] & Hc' & _). congruence.
      - split; [done|]. by intros (? & ? & ? & _). }
    destruct (old_job (objects s) cutoff_time a) eqn:Ho.
    + assert (Hnone : filter (fun ka : string * nat =>
                                old_job (objects s) cutoff_time ka.2 = false)
                        (finished_jobs s) !! id = None).
      { apply map_lookup_filter_None_2. right. intros a' Ha'. cbn [snd].
        assert (a' = a) as -> by congruence. congruence. }
      rewrite Hnone. split; [by left|]. split; [by rewrite <- Hold|].
      intros _. destruct (proj1 Hold eq_refl) as (job & t & Hjob & Ht & _).
      exists job. split; [done|].
      destruct (Hjs a job Hjob) as (_ & _ & _ & Hst).
      destruct (job_status job); auto;
        destruct Hst as (_ & Hc & _); congruence.
    + assert (Hsome : filter (fun ka : string * nat =>
                                old_job (objects s) cutoff_time ka.2 = false)
                        (finished_jobs s) !! id = Some a)
        by (by apply map_lookup_filter_Some_2).
      rewrite Hsome. split; [by right|]. split; [|done].
      split; [done|]. intros H. apply Hold in H. congruence.
  - apply map_lookup_filter_None_2. by left.
Qed.

Lemma cleanup_drops_only_finished_jobs_witness :
  size (finished_jobs one_completed) = 1%nat ∧
  size (finished_jobs (cleanup_old_batches ten_days_later 7 one_completed).1)
  = 0%nat.
Proof.
  eassert (H0 : dt_sub_days (ten_days_later 0) 7 = Some _)
    by (vm_compute; reflexivity).
  eassert (H1 : dt_sub_days (ten_days_later 1) 7 = Some _)
    by (vm_compute; reflexivity).
  pose proof (cleanup_drops_only_finished_jobs ten_days_later 7 one_completed
                _ _ reachable_one_completed H0 H1) as H.
  split; by vm_compute.
Defined.

(** ** The filter on the status Processing *)

Lemma status_value_processing (st : JobStatus) :
  status_value st = "processing" → st = PROCESSING.
Proof. by destruct st. Qed.

(** X25. Listing the batches with the filter [processing], in any case of
    the letters, gives an empty list in every reachable state, since no
    batch ever has that status: [items] being entries of the table, the
    page is empty, [total_count] is 0 and [has_more] is false. *)
Theorem list_of_processing_batches_is_empty (s : Service)
    (items : list (string * BatchRequest nat)) (st : string) (lim off : Z) :
  reachable s →
  (∀ kb, kb ∈ items → batch_requests s !! kb.1 = Some kb.2) →
  lower st = "processing" → 0 ≤ off → 0 ≤ lim →
  list_batches items (Some st) lim off = mkBatchList [] 0 lim off false.
Proof.
  intros Hreach Hitems Hst Ho Hl.
  destruct (reachable_sound s Hreach) as (_ & _ & Hbs & _).
  destruct (list_batches_window items (Some st) lim off Ho Hl)
    as (Hpage & Htotal & Hmore).
  assert (Hnone : listed items (Some st) = []).
  { unfold listed. destruct (String.eqb_spec st "") as [->|_]; [done|].
    rewrite Hst. clear Hpage Htotal Hmore.
    induction items as [|kb items IH]; [done|]. cbn [map List.filter].
    rewrite IH by (intros kb' Hkb'; apply Hitems, elem_of_cons; by right).
    destruct (String.eqb_spec (info_status (batch_info kb.2)) "processing")
      as [Heq|_]; [|done].
    apply status_value_processing in Heq.
    destruct (Hbs kb.1 kb.2) as (_ & Hnp & _); [|done].
    apply Hitems, elem_of_cons. by left. }
  cbn zeta in Hpage, Htotal, Hmore. rewrite Hnone in Hpage, Htotal, Hmore.
  change (sort_desc info_created_at []) with (@nil BatchInfo) in *.
  rewrite drop_nil, take_nil in Hpage. cbn [length] in Htotal, Hmore.
  assert (Hlim : limit (list_batches items (Some st) lim off) = lim) by done.
  assert (Hoff : offset (list_batches items (Some st) lim off) = off) by done.
  destruct (list_batches items (Some st) lim off) as [bs tc l o hm].
  cbn [batches total_count has_more limit offset] in *. subst.
  f_equal. apply Z.ltb_ge. lia.
Qed.

Lemma list_of_processing_batches_is_empty_witness :
  list_batches (map_to_list (batch_requests one_running)) (Some "Processing")
    50 0
  = mkBatchList [] 0 50 0 false.
Proof.
  apply (list_of_processing_batches_is_empty one_running);
    [apply reachable_one_running| |reflexivity|lia|lia].
  intros [k b] Hkb. by apply elem_of_map_to_list in Hkb.
Defined.
